(** * Range-bar pipeline: aggregator, gap recovery and incremental indicators

    A shallow embedding of [historic_df_live.py] (kline stream to range
    bars, gap recovery) and of the stateful calculators and the engine of
    [indicator_computes.py], with the properties the specification states
    about them; then of the code around them (start-up, the live feed, the
    drains of the main loop, the monitor's update pass, its market-data
    socket and its 03:00 cache), with properties read off the code.

    Numbers.  Prices, volumes and indicator values are Python floats in the
    source; they are embedded as exact rationals ([Q]), so every statement
    below is about the arithmetic the code spells out, not about binary64
    rounding.  The inputs on which a statement of the specification is
    shown to fail are numbers that binary64 represents and computes with
    exactly, so the two arithmetics agree there.  Millisecond epoch stamps
    are integers
    ([Z]); a [datetime] is an integer count of microseconds.  [None] and
    not-a-number results are [None] of an option type. *)

From Stdlib Require Import String.
From Stdlib Require Import ZArith QArith Qround Qabs Qminmax.
From Stdlib Require Import List Bool Lia Lqa.
Import ListNotations.

Local Open Scope Q_scope.

(** ** Comparisons and sums on rationals, as the source uses them *)

(** [a < b] as a test. *)
Definition Qltb (a b : Q) : bool := negb (Qle_bool b a).

(** [sum(...)] of Python: a left fold that starts from [0]. *)
Definition Qsum (l : list Q) : Q := fold_left Qplus l 0.

Definition Zsum (l : list Z) : Z := fold_left Z.add l 0%Z.

(** ** The range-bar aggregator ([historic_df_live.py]) *)

Module Aggregator.

(** One kline event, the dictionary built by [kline_handler] and by
    [fetch_historical_klines] (the constant ["interval"] entry is left out). *)
Record Kline := mkKline {
  timestamp : Z;
  open_time : Z;
  close_time : Z;
  open : Q;
  high : Q;
  low : Q;
  close : Q;
  volume : Q;
  quote_volume : Q;
  trades : Z;
  is_final : bool
}.

(** The global [current_bar] dictionary. *)
Record CurrentBar := mkCurrentBar {
  open_price : Q;
  bar_high : Q;
  bar_low : Q;
  close_price : Q;
  bar_open_time : Z;
  bar_close_time : Z
}.

(** A row of the bar table.  [format_timestamp] only renders the stamp, so
    the two time columns keep the millisecond stamp itself. *)
Record CompletedBar := mkCompletedBar {
  Open_Time : Z;
  Open : Q;
  High : Q;
  Low : Q;
  Close : Q;
  Volume : Q;
  Close_Time : Z;
  Quote_Asset_Volume : Q;
  Number_of_Trades : Z;
  Taker_Buy_Base_Asset_Volume : Q;
  Taker_Buy_Quote_Asset_Volume : Q;
  Ignore : Z
}.

(** The two globals the aggregator mutates. *)
Record AggState := mkAggState {
  current_bar : option CurrentBar;
  bar_klines : list Kline
}.


Definition create_completed_bar (open_price high low close_price : Q)
    (klines : list Kline) (open_time close_time : Z) : CompletedBar :=
  let total_volume := Qsum (map volume klines) in
  let total_quote_volume := Qsum (map quote_volume klines) in
  let total_trades := Zsum (map trades klines) in
  let taker_buy_base := total_volume * (1 # 2) in
  let taker_buy_quote := total_quote_volume * (1 # 2) in
  {| Open_Time := open_time;
     Open := open_price;
     High := high;
     Low := low;
     Close := close_price;
     Volume := total_volume;
     Close_Time := close_time;
     Quote_Asset_Volume := total_quote_volume;
     Number_of_Trades := total_trades;
     Taker_Buy_Base_Asset_Volume := taker_buy_base;
     Taker_Buy_Quote_Asset_Volume := taker_buy_quote;
     Ignore := 0%Z |}.

Section WithRangeSize.

(** The global [range_size], fixed by [get_symbol_ticksize] at start-up. *)
Variable range_size : Q.

Definition check_range_completion (bar_High bar_Low : Q) : bool :=
  let span := bar_High - bar_Low in
  Qle_bool range_size span.

(** [int(price_move // range_size)].  Python raises on a zero
    [range_size]; start-up sets it to the tick size, and the statements
    about jumps take it positive. *)
Definition possible_bars_of (price open_price : Q) : Z :=
  let price_move := Qabs (price - open_price) in
  Qfloor (price_move / range_size).

Definition handle_large_price_jump (st : AggState) (price : Q)
    (timestamp : Z) (kline_data : Kline) : AggState * list CompletedBar :=
  match current_bar st with
  | None => (st, [])
  | Some cb =>
    let open_price := open_price cb in
    let possible_bars := possible_bars_of price open_price in
    if (2 <=? possible_bars)%Z then
      let '(completed_high, completed_low, completed_close) :=
        if Qltb open_price price
        then (open_price + range_size, bar_low cb, open_price + range_size)
        else (bar_high cb, open_price - range_size, open_price - range_size) in
      let completed_bar :=
        create_completed_bar open_price completed_high completed_low
          completed_close (bar_klines st) (bar_open_time cb) timestamp in
      let remaining_move := Qabs (price - completed_close) in
      if Qle_bool range_size remaining_move then
        let '(additional_open, additional_high, additional_low,
              additional_close) :=
          if Qltb completed_close price
          then (completed_close, price, completed_close, price)
          else (completed_close, completed_close, price, price) in
        let additional_bar :=
          create_completed_bar additional_open additional_high additional_low
            additional_close [kline_data] timestamp timestamp in
        ({| current_bar :=
              Some {| open_price := additional_close;
                      bar_high := additional_close;
                      bar_low := additional_close;
                      close_price := additional_close;
                      bar_open_time := timestamp;
                      bar_close_time := timestamp |};
            bar_klines := [] |},
         [completed_bar; additional_bar])
      else
        ({| current_bar :=
              Some {| open_price := completed_close;
                      bar_high := Qmax completed_close price;
                      bar_low := Qmin completed_close price;
                      close_price := price;
                      bar_open_time := timestamp;
                      bar_close_time := timestamp |};
            bar_klines := [kline_data] |},
         [completed_bar])
    else (st, [])
  end.

Definition process_kline_into_bar (st : AggState) (kline_data : Kline)
    : AggState * option CompletedBar :=
  let price := close kline_data in
  let timestamp := close_time kline_data in
  let high := high kline_data in
  let low := low kline_data in
  let bar_klines := bar_klines st ++ [kline_data] in
  match current_bar st with
  | None =>
    ({| current_bar :=
          Some {| open_price := price;
                  bar_high := high;
                  bar_low := low;
                  close_price := price;
                  bar_open_time := open_time kline_data;
                  bar_close_time := timestamp |};
        bar_klines := bar_klines |},
     None)
  | Some cb =>
    let cb :=
      {| open_price := open_price cb;
         bar_high := Qmax (bar_high cb) high;
         bar_low := Qmin (bar_low cb) low;
         close_price := price;
         bar_open_time := bar_open_time cb;
         bar_close_time := timestamp |} in
    if check_range_completion (bar_high cb) (bar_low cb) then
      let completed_bar :=
        create_completed_bar (open_price cb) (bar_high cb) (bar_low cb)
          (close_price cb) bar_klines (bar_open_time cb) (bar_close_time cb) in
      ({| current_bar :=
            Some {| open_price := close_price cb;
                    bar_high := close_price cb;
                    bar_low := close_price cb;
                    close_price := close_price cb;
                    bar_open_time := timestamp;
                    bar_close_time := timestamp |};
          Aggregator.bar_klines := [] |},
       Some completed_bar)
    else
      ({| current_bar := Some cb; Aggregator.bar_klines := bar_klines |}, None)
  end.

(** The body of the [for kline in list(klines_data)] loop of
    [create_range_bar_from_klines]: the state after the kline and the bars
    it appends to [all_completed_bars]. *)
Definition process_one (st : AggState) (kline : Kline)
    : AggState * list CompletedBar :=
  let price := close kline in
  let timestamp := close_time kline in
  let normal (st : AggState) :=
    let '(st', completed_bar) := process_kline_into_bar st kline in
    (st', match completed_bar with Some b => [b] | None => [] end) in
  match current_bar st with
  | Some cb =>
    if (2 <=? possible_bars_of price (open_price cb))%Z then
      let '(st', large_jump_bars) :=
        handle_large_price_jump st price timestamp kline in
      match large_jump_bars with
      | [] => normal st'
      | _ :: _ => (st', large_jump_bars)
      end
    else normal st
  | None => normal st
  end.

Fixpoint process_all (st : AggState) (klines : list Kline)
    : AggState * list CompletedBar :=
  match klines with
  | [] => (st, [])
  | kline :: rest =>
    let '(st1, bars1) := process_one st kline in
    let '(st2, bars2) := process_all st1 rest in
    (st2, bars1 ++ bars2)
  end.

(** [create_range_bar_from_klines]: drains the buffer [klines_data]; gives
    the new aggregator state, the cleared or untouched buffer, and the
    returned pair. *)
Definition create_range_bar_from_klines (st : AggState)
    (klines_data : list Kline)
    : AggState * list Kline * (list CompletedBar * bool) :=
  match klines_data with
  | [] => (st, klines_data, ([], false))
  | _ :: _ =>
    let '(st', all_completed_bars) := process_all st klines_data in
    (st', [], (all_completed_bars, (0 <? length all_completed_bars)%nat))
  end.

(** Successive drain cycles of the main loop, one buffer content each. *)
Fixpoint run_cycles (st : AggState) (cycles : list (list Kline))
    : AggState * list CompletedBar :=
  match cycles with
  | [] => (st, [])
  | klines_data :: rest =>
    let '(st1, _, (bars1, _)) := create_range_bar_from_klines st klines_data in
    let '(st2, bars2) := run_cycles st1 rest in
    (st2, bars1 ++ bars2)
  end.

End WithRangeSize.

(** *** Properties stated about the aggregator *)

(** A kline of the exchange closes between its low and its high. *)
Definition kline_wf (k : Kline) : Prop :=
  low k <= close k /\ close k <= high k.






(** Taker-buy volumes are half the totals. *)
Definition even_split (b : CompletedBar) : Prop :=
  Taker_Buy_Base_Asset_Volume b == Volume b / 2
  /\ Taker_Buy_Quote_Asset_Volume b == Quote_Asset_Volume b / 2.



(** A bar that just opened at [p] and has seen nothing else. *)
Definition flat_bar (p : Q) (t : Z) : CurrentBar :=
  {| open_price := p; bar_high := p; bar_low := p; close_price := p;
     bar_open_time := t; bar_close_time := t |}.

(** Sample events: a one-second kline at [t] whose prices are all [p]. *)
Definition tick (t : Z) (p : Q) : Kline :=
  {| timestamp := t; open_time := t; close_time := t + 999;
     open := p; high := p; low := p; close := p;
     volume := 1; quote_volume := p; trades := 3; is_final := true |}.

(** The state a completion at price 100 leaves: a bar just opened there. *)
Definition sample_state : AggState :=
  {| current_bar := Some (flat_bar 100 0); bar_klines := [] |}.

End Aggregator.

(** ** Gap recovery ([check_for_data_gaps] of [historic_df_live.py]) *)

Module GapRecovery.

Import Aggregator.

Local Open Scope Z_scope.

Definition GAP_DETECTION_THRESHOLD : Z := 300.
Definition KLINE_INTERVAL_SECONDS : Z := 1.
Definition MAX_KLINES_PER_REQUEST : Z := 1000.
Definition MAX_GAP_FILL_RETRIES : Z := 3.

(** [maxlen] of the shared buffer [klines_data]. *)
Definition KLINES_DATA_MAXLEN : nat := Z.to_nat 10000.

(** A [datetime] is a count of microseconds.
    [int(dt.timestamp() * 1000)] truncates it to milliseconds. *)
Definition timestamp_ms (dt : Z) : Z := Z.quot dt 1000.

(** [datetime.fromtimestamp(ms / 1000)]. *)
Definition fromtimestamp_ms (ms : Z) : Z := ms * 1000.

(** The [.seconds] attribute of a [timedelta]: the seconds within the day,
    days set apart. *)
Definition timedelta_seconds (delta : Z) : Z := (delta / 1000000) mod 86400.

(** [(delta).total_seconds() > s] for a whole number [s] of seconds. *)
Definition total_seconds_gt (delta s : Z) : bool := s * 1000000 <? delta.

(** The module globals read or written by gap recovery. *)
Record GapState := mkGapState {
  klines_data : list Kline;
  prefetch_completed : bool;
  gap_filling_in_progress : bool;
  data_gap_filling : bool;
  last_successful_ws_update : option Z;
  last_gap_fill_time : option Z;
  ws_reconnection_detected : bool;
  gap_fill_retry_count : Z
}.

(** [list.sort(key=lambda x: x['timestamp'])]: a stable sort. *)
Fixpoint insert_by_timestamp (k : Kline) (l : list Kline) : list Kline :=
  match l with
  | [] => [k]
  | x :: rest =>
    if timestamp k <=? timestamp x then k :: l
    else x :: insert_by_timestamp k rest
  end.

Definition sort_by_timestamp (l : list Kline) : list Kline :=
  fold_right insert_by_timestamp [] l.

(** [deque.extend] on a deque of bounded length: the oldest entries fall
    off the left end. *)
Definition deque_extend {A : Type} (maxlen : nat) (d items : list A) : list A :=
  let d' := (d ++ items)%list in
  skipn (length d' - maxlen) d'.

(** What one call leaves behind: the globals, the returned flag, and the
    historical requests [(startTime, endTime)] it issued, in order. *)
Record GapOutcome := mkGapOutcome {
  state_after : GapState;
  returned : bool;
  requests : list (Z * Z)
}.

Section WithExchange.

(** [fetch_historical_klines]: the exchange's answer to a historical query;
    the source turns every failure of the request into the empty list. *)
Variable fetch_historical_klines : Z -> Z -> list Kline.

(** The [while current_chunk_start < gap_end_ms] loop.  Every round moves
    [current_chunk_start] forward by at least one, so [gap_end_ms -
    gap_start_ms] rounds are enough: the count is never what ends the loop
    ([chunk_requests_enough], [chunk_requests_unfold]). *)
Fixpoint fetch_loop (rounds : nat) (gap_end_ms chunk_size_ms : Z)
    (current_chunk_start : Z) (all_gap_data : list Kline)
    (issued : list (Z * Z)) : list Kline * list (Z * Z) :=
  match rounds with
  | O => (all_gap_data, issued)
  | S rounds' =>
    if current_chunk_start <? gap_end_ms then
      let current_chunk_end :=
        Z.min (current_chunk_start + chunk_size_ms) gap_end_ms in
      let chunk_data :=
        fetch_historical_klines current_chunk_start current_chunk_end in
      let all_gap_data :=
        match chunk_data with
        | [] => all_gap_data
        | _ :: _ => (all_gap_data ++ sort_by_timestamp chunk_data)%list
        end in
      fetch_loop rounds' gap_end_ms chunk_size_ms (current_chunk_end + 1)
        all_gap_data (issued ++ [(current_chunk_start, current_chunk_end)])%list
    else (all_gap_data, issued)
  end.

(** [check_for_data_gaps].  The three readings of [datetime.now()] are
    arguments: [now_debounce] in the ten-second debounce test, [current_time]
    for the window, [now_finally] in the [finally] clause. *)
Definition check_for_data_gaps (now_debounce current_time now_finally : Z)
    (st : GapState) : GapOutcome :=
  if negb (prefetch_completed st) || gap_filling_in_progress st
     || data_gap_filling st
  then mkGapOutcome st false []
  else if match last_gap_fill_time st with
          | Some t => timedelta_seconds (now_debounce - t) <? 10
          | None => false
          end
  then mkGapOutcome st false []
  else
    match last_successful_ws_update st with
    | None => mkGapOutcome st false []
    | Some last_update =>
      let time_since_last_update := current_time - last_update in
      let should_fill_gap :=
        if ws_reconnection_detected st then true
        else if total_seconds_gt time_since_last_update GAP_DETECTION_THRESHOLD
        then true
        else if 0 <? gap_fill_retry_count st then true
        else false in
      if negb should_fill_gap then mkGapOutcome st false []
      else
        (* the [try] block; [finish] applies the [finally] clause *)
        let finish (buffer : list Kline) (watermark : option Z) (retry : Z) :=
          {| klines_data := buffer;
             prefetch_completed := prefetch_completed st;
             gap_filling_in_progress := false;
             data_gap_filling := false;
             last_successful_ws_update := watermark;
             last_gap_fill_time := Some now_finally;
             ws_reconnection_detected := false;
             gap_fill_retry_count := retry |} in
        let gap_start_ms := timestamp_ms last_update + 1000 in
        let gap_end_ms := timestamp_ms current_time - 2000 in
        if gap_end_ms <=? gap_start_ms then
          mkGapOutcome (finish (klines_data st) (Some last_update) 0) false []
        else
          let chunk_size_ms :=
            MAX_KLINES_PER_REQUEST * KLINE_INTERVAL_SECONDS * 1000 in
          let '(all_gap_data, issued) :=
            fetch_loop (Z.to_nat (gap_end_ms - gap_start_ms)) gap_end_ms
              chunk_size_ms gap_start_ms [] [] in
          match all_gap_data with
          | _ :: _ =>
            let existing_data := (klines_data st ++ all_gap_data)%list in
            let existing_data := sort_by_timestamp existing_data in
            let buffer := deque_extend KLINES_DATA_MAXLEN [] existing_data in
            mkGapOutcome
              (finish buffer (Some (fromtimestamp_ms gap_end_ms)) 0) true issued
          | [] =>
            let retry := gap_fill_retry_count st + 1 in
            if MAX_GAP_FILL_RETRIES <=? retry then
              mkGapOutcome (finish (klines_data st) (Some current_time) 0)
                false issued
            else
              mkGapOutcome (finish (klines_data st) (Some last_update) retry)
                false issued
          end
    end.

End WithExchange.

(** *** Properties stated about gap recovery *)

(** The requests the chunk loop issues, whatever the exchange answers. *)
Fixpoint chunk_requests (rounds : nat) (gap_end_ms chunk_size_ms : Z)
    (current_chunk_start : Z) : list (Z * Z) :=
  match rounds with
  | O => []
  | S rounds' =>
    if current_chunk_start <? gap_end_ms then
      let current_chunk_end :=
        Z.min (current_chunk_start + chunk_size_ms) gap_end_ms in
      (current_chunk_start, current_chunk_end)
        :: chunk_requests rounds' gap_end_ms chunk_size_ms
             (current_chunk_end + 1)
    else []
  end.

(** Requests that follow one another from [s] on: each starts one
    millisecond after the previous one ends. *)
Fixpoint contiguous_from (s : Z) (reqs : list (Z * Z)) : Prop :=
  match reqs with
  | [] => True
  | (a, b) :: rest => a = s /\ a <= b /\ contiguous_from (b + 1) rest
  end.

(** What the requests brought back, each answer sorted, put together. *)
Definition gathered (fetch : Z -> Z -> list Kline) (reqs : list (Z * Z))
    : list Kline :=
  concat (map (fun r => sort_by_timestamp (fetch (fst r) (snd r))) reqs).

(** Where the last of the requests ends. *)
Definition fetched_up_to (reqs : list (Z * Z)) : Z := snd (last reqs (0, 0)).

(** The exchange has nothing (every historical query comes back empty). *)
Definition no_data (_ _ : Z) : list Kline := [].

(** The exchange answers every query with one kline, at the query's start. *)
Definition one_kline (start_time end_time : Z) : list Kline :=
  [tick start_time 100].

(** The ten-second debounce lets the call through. *)
Definition debounce_passed (now_debounce : Z) (st : GapState) : Prop :=
  match last_gap_fill_time st with
  | Some t => 10 <= timedelta_seconds (now_debounce - t)
  | None => True
  end.

(** A datetime, in microseconds, from a millisecond stamp. *)
Definition at_ms (ms : Z) : Z := ms * 1000.

(** Sample globals: prefetch done, nothing in progress, the last live
    update at [last_ms], the last gap fill a minute before it. *)
Definition sample_globals (last_ms : Z) (reconnected : bool) (retries : Z)
    : GapState :=
  {| klines_data := [];
     prefetch_completed := true;
     gap_filling_in_progress := false;
     data_gap_filling := false;
     last_successful_ws_update := Some (at_ms last_ms);
     last_gap_fill_time := Some (at_ms (last_ms - 60000));
     ws_reconnection_detected := reconnected;
     gap_fill_retry_count := retries |}.

End GapRecovery.

(** ** The table and the drains of the main loop ([historic_df_live.py]) *)

Module Pipeline.

Import Aggregator.

(** [process_new_data]: drains the buffer into the table [df]; gives the
    aggregator state, the buffer, the table and the returned flag.  Writing
    the table to the CSV file and the clock reading kept in
    [last_data_update_time] are not part of the model. *)
Definition process_new_data (range_size : Q) (st : AggState)
    (klines_data : list Kline) (df : list CompletedBar)
    : AggState * list Kline * list CompletedBar * bool :=
  let '(st', klines_data', (completed_bars, has_new_bars)) :=
    create_range_bar_from_klines range_size st klines_data in
  if has_new_bars && match completed_bars with [] => false | _ :: _ => true end
  then (st', klines_data', df ++ completed_bars, true)
  else (st', klines_data', df, false).

(** The drains of the main loop, one buffer content each. *)
Fixpoint drain_cycles (range_size : Q) (st : AggState)
    (df : list CompletedBar) (cycles : list (list Kline))
    : AggState * list CompletedBar :=
  match cycles with
  | [] => (st, df)
  | klines_data :: rest =>
    let '(st1, _, df1, _) := process_new_data range_size st klines_data df in
    drain_cycles range_size st1 df1 rest
  end.

(** *** Properties of the bars of a run *)

(** Bars that follow one another from the price [p] and the time [t]: each
    opens at the price and at the time at which the one before it closed. *)
Fixpoint chain_from (p : Q) (t : Z) (bars : list CompletedBar) : Prop :=
  match bars with
  | [] => True
  | b :: rest =>
    Open b = p /\ Open_Time b = t
    /\ chain_from (Close b) (Close_Time b) rest
  end.

(** Where such a chain ends: the close of its last bar. *)
Fixpoint chain_end (p : Q) (t : Z) (bars : list CompletedBar) : Q * Z :=
  match bars with
  | [] => (p, t)
  | b :: rest => chain_end (Close b) (Close_Time b) rest
  end.

(** Where the first bar opens: at the bar in progress, or with the first
    kline when there is none. *)
Definition opening (st : AggState) (klines : list Kline) : option (Q * Z) :=
  match current_bar st, klines with
  | Some cb, _ => Some (open_price cb, bar_open_time cb)
  | None, k :: _ => Some (close k, open_time k)
  | None, [] => None
  end.

(** Klines in the order of their close times, none before [t]. *)
Fixpoint closes_from (t : Z) (klines : list Kline) : Prop :=
  match klines with
  | [] => True
  | k :: rest => (t <= close_time k)%Z /\ closes_from (close_time k) rest
  end.

(** A candle: the open and the close lie between the low and the high. *)
Definition candle (b : CompletedBar) : Prop :=
  Low b <= Open b /\ Open b <= High b /\ Low b <= Close b /\ Close b <= High b.

(** The in-progress bar holds its open and its running close between its
    running low and high. *)
Definition brackets (cb : CurrentBar) : Prop :=
  bar_low cb <= open_price cb /\ open_price cb <= bar_high cb
  /\ bar_low cb <= close_price cb /\ close_price cb <= bar_high cb.

(** The state holds no bar, or one that brackets its open and its close. *)
Definition holds_brackets (st : AggState) : Prop :=
  match current_bar st with
  | Some cb => brackets cb
  | None => True
  end.

(** Bars laid out in time from [t] on: each begins no earlier than the one
    before it ended, and ends no earlier than it begins. *)
Fixpoint timeline (t : Z) (bars : list CompletedBar) : Prop :=
  match bars with
  | [] => True
  | b :: rest =>
    (t <= Open_Time b)%Z /\ (Open_Time b <= Close_Time b)%Z
    /\ timeline (Close_Time b) rest
  end.

(** The clock of the events runs forward from the bar in progress (from
    the first kline when there is none). *)
Definition timed (st : AggState) (klines : list Kline) : Prop :=
  match current_bar st, klines with
  | Some cb, _ =>
    (bar_open_time cb <= bar_close_time cb)%Z
    /\ closes_from (bar_close_time cb) klines
  | None, k :: rest =>
    (open_time k <= close_time k)%Z /\ closes_from (close_time k) rest
  | None, [] => True
  end.

End Pipeline.

(** ** The live feed and start-up ([historic_df_live.py]) *)

Module LiveFeed.

Import Aggregator GapRecovery.

Local Open Scope Z_scope.

Definition PREFETCH_HOURS : Z := 2.
Definition ws_max_reconnect_delay : Z := 60.

(** *** [get_symbol_ticksize] *)

(** An entry of [info["filters"]]; the tick size, parsed, is read on the
    price filter only. *)
Record Filter := mkFilter {
  filterType : string;
  tickSize : Q
}.

(** [a // b] and [a % b] of Python for a divisor that is not zero. *)
Definition floordiv (a b : Q) : Q := inject_Z (Qfloor (a / b)).
Definition pymod (a b : Q) : Q := (a - b * inject_Z (Qfloor (a / b)))%Q.

(** [get_symbol_ticksize]: the globals [(tick_size, range_size)] it sets.
    [None] is the [except] clause, which ends the process: no symbol
    information, no price filter among the filters, or the division by a
    zero tick size. *)
Definition get_symbol_ticksize (info : option (list Filter)) (RANGE_SIZE : Q)
    : option (Q * Q) :=
  match info with
  | None => None
  | Some filters =>
    match find (fun f => String.eqb (filterType f) "PRICE_FILTER") filters with
    | None => None
    | Some tick_filter =>
      let tick_size := tickSize tick_filter in
      if Qeq_bool RANGE_SIZE 0 then Some (tick_size, tick_size)
      else
        let range_size := RANGE_SIZE in
        if Qeq_bool tick_size 0 then None
        else if negb (Qeq_bool (pymod range_size tick_size) 0) then
          Some (tick_size, ((floordiv range_size tick_size + 1) * tick_size)%Q)
        else Some (tick_size, range_size)
    end
  end.

(** *** The globals of the feed *)

(** The globals of the websocket side; [gap_state] holds the ones gap
    recovery shares with it. *)
Record FeedState := mkFeedState {
  gap_state : GapState;
  last_kline_time : option Z;
  last_data_update_time : option Z;
  ws_connected : bool;
  ws_reconnect_delay : Z
}.

(** *** [prefetch_historical_data] *)

Section WithExchange.

Variable fetch_historical_klines : Z -> Z -> list Kline.

(** The [while current_start < end_time] loop; as in the chunk loop of gap
    recovery, [end_time - start_time] rounds are enough. *)
Fixpoint prefetch_loop (rounds : nat) (end_time chunk_size_ms : Z)
    (current_start : Z) (all_historical_data : list Kline)
    (issued : list (Z * Z)) : list Kline * list (Z * Z) :=
  match rounds with
  | O => (all_historical_data, issued)
  | S rounds' =>
    if current_start <? end_time then
      let current_end := Z.min (current_start + chunk_size_ms) end_time in
      let chunk_data := fetch_historical_klines current_start current_end in
      prefetch_loop rounds' end_time chunk_size_ms (current_end + 1)
        (all_historical_data ++ chunk_data)%list
        (issued ++ [(current_start, current_end)])%list
    else (all_historical_data, issued)
  end.

(** [prefetch_historical_data], with the two readings of [datetime.now()];
    gives the globals and the requests issued. *)
Definition prefetch_historical_data (now_end now_ws : Z) (g : FeedState)
    : FeedState * list (Z * Z) :=
  let end_time := timestamp_ms now_end in
  let start_time := end_time - PREFETCH_HOURS * 3600 * 1000 in
  let chunk_size_ms := MAX_KLINES_PER_REQUEST * KLINE_INTERVAL_SECONDS * 1000 in
  let '(all_historical_data, issued) :=
    prefetch_loop (Z.to_nat (end_time - start_time)) end_time chunk_size_ms
      start_time [] [] in
  let gs := gap_state g in
  ({| gap_state :=
        {| klines_data :=
             deque_extend KLINES_DATA_MAXLEN (klines_data gs)
               all_historical_data;
           prefetch_completed := true;
           gap_filling_in_progress := gap_filling_in_progress gs;
           data_gap_filling := false;
           last_successful_ws_update := Some now_ws;
           last_gap_fill_time := last_gap_fill_time gs;
           ws_reconnection_detected := ws_reconnection_detected gs;
           gap_fill_retry_count := gap_fill_retry_count gs |};
      last_kline_time := last_kline_time g;
      last_data_update_time := last_data_update_time g;
      ws_connected := ws_connected g;
      ws_reconnect_delay := ws_reconnect_delay g |},
   issued).

End WithExchange.

(** *** [kline_handler] *)

(** The dictionary [msg["k"]] of a kline message, its numbers parsed (the
    interval entry is left out, as in [Kline]). *)
Record KlinePayload := mkKlinePayload {
  k_t : Z;
  k_T : Z;
  k_o : Q;
  k_h : Q;
  k_l : Q;
  k_c : Q;
  k_v : Q;
  k_q : Q;
  k_n : Z;
  k_x : bool
}.

(** A websocket message: the entry ["e"], if there is one, and ["k"]. *)
Record Message := mkMessage {
  msg_e : option string;
  msg_k : KlinePayload
}.

(** ["e" in msg and msg["e"] == "kline"]. *)
Definition is_kline_event (msg : Message) : bool :=
  match msg_e msg with
  | Some ev => String.eqb ev "kline"
  | None => false
  end.

(** The dictionary [kline_handler] appends to [klines_data]. *)
Definition kline_entry (kline : KlinePayload) : Kline :=
  {| timestamp := k_t kline;
     open_time := k_t kline;
     close_time := k_T kline;
     open := k_o kline;
     high := k_h kline;
     low := k_l kline;
     close := k_c kline;
     volume := k_v kline;
     quote_volume := k_q kline;
     trades := k_n kline;
     is_final := k_x kline |}.

(** [kline_handler], with its three readings of [datetime.now()];
    [deque.append] is [deque_extend] by one entry. *)
Definition kline_handler (now_kline now_data now_ws : Z) (msg : Message)
    (g : FeedState) : FeedState :=
  if is_kline_event msg then
    let kline := msg_k msg in
    let gs := gap_state g in
    {| gap_state :=
         {| klines_data :=
              deque_extend KLINES_DATA_MAXLEN (klines_data gs)
                [kline_entry kline];
            prefetch_completed := prefetch_completed gs;
            gap_filling_in_progress := gap_filling_in_progress gs;
            data_gap_filling := data_gap_filling gs;
            last_successful_ws_update := Some now_ws;
            last_gap_fill_time := last_gap_fill_time gs;
            ws_reconnection_detected := ws_reconnection_detected gs;
            gap_fill_retry_count := gap_fill_retry_count gs |};
       last_kline_time := Some now_kline;
       last_data_update_time := Some now_data;
       ws_connected := true;
       ws_reconnect_delay := ws_reconnect_delay g |}
  else g.

(** *** [start_websocket] and [check_websocket_health] *)

(** [ws_connected] and [ws_reconnection_detected] set, the rest kept. *)
Definition with_connection (g : FeedState) (connected reconnection : bool)
    (delay : Z) : FeedState :=
  let gs := gap_state g in
  {| gap_state :=
       {| klines_data := klines_data gs;
          prefetch_completed := prefetch_completed gs;
          gap_filling_in_progress := gap_filling_in_progress gs;
          data_gap_filling := data_gap_filling gs;
          last_successful_ws_update := last_successful_ws_update gs;
          last_gap_fill_time := last_gap_fill_time gs;
          ws_reconnection_detected := reconnection;
          gap_fill_retry_count := gap_fill_retry_count gs |};
     last_kline_time := last_kline_time g;
     last_data_update_time := last_data_update_time g;
     ws_connected := connected;
     ws_reconnect_delay := delay |}.

(** What starting the socket manager and the kline socket does: it
    succeeds, or raises [BinanceAPIException], or raises something else. *)
Inductive Attempt := Started | ApiError | OtherError.

(** [start_websocket], the outcome of each attempt given; the globals at
    the return and the seconds slept before each retry.  [None]: the
    function is still retrying after the outcomes given. *)
Fixpoint start_websocket (attempts : list Attempt) (g : FeedState)
    : option (FeedState * list Z) :=
  match attempts with
  | [] => None
  | attempt :: rest =>
    let reconnection :=
      if ws_connected g then true
      else ws_reconnection_detected (gap_state g) in
    match attempt with
    | Started => Some (with_connection g false reconnection 5, [])
    | ApiError | OtherError =>
      let delay := Z.min (ws_reconnect_delay g * 2) ws_max_reconnect_delay in
      match start_websocket rest (with_connection g false true delay) with
      | Some (g', slept) => Some (g', delay :: slept)
      | None => None
      end
    end
  end.

(** [check_websocket_health]. *)
Definition check_websocket_health (now : Z) (g : FeedState)
    : FeedState * bool :=
  let reconnection := ws_reconnection_detected (gap_state g) in
  match last_kline_time g with
  | None =>
    (if ws_connected g
     then with_connection g false reconnection (ws_reconnect_delay g)
     else g, false)
  | Some t =>
    if 30 <? timedelta_seconds (now - t) then
      (if ws_connected g
       then with_connection g false true (ws_reconnect_delay g)
       else g, false)
    else
      (if negb (ws_connected g)
       then with_connection g true reconnection (ws_reconnect_delay g)
       else g, true)
  end.

(** *** Properties of the feed *)

(** The klines a list of messages brings, in the order of arrival; a
    message comes with the time at which it is handled. *)
Definition klines_of (msgs : list (Z * Message)) : list Kline :=
  map (fun m => kline_entry (msg_k (snd m)))
    (filter (fun m => is_kline_event (snd m)) msgs).

(** Messages handled one after the other. *)
Definition handle_all (msgs : list (Z * Message)) (g : FeedState)
    : FeedState :=
  fold_left (fun g m => kline_handler (fst m) (fst m) (fst m) (snd m) g)
    msgs g.

(** The time of the last kline message among [msgs], [t] if there is none. *)
Definition last_kline_at (t : option Z) (msgs : list (Z * Message))
    : option Z :=
  fold_left (fun t m => if is_kline_event (snd m) then Some (fst m) else t)
    msgs t.

(** An attempt that raised. *)
Definition failed (a : Attempt) : Prop := a <> Started.

(** Sample globals of the feed: connected, the last kline at [t]. *)
Definition sample_feed (t : Z) : FeedState :=
  {| gap_state := sample_globals 1700000000000 false 0;
     last_kline_time := Some t;
     last_data_update_time := Some t;
     ws_connected := true;
     ws_reconnect_delay := 5 |}.

(** Sample messages: a kline event for a second at price [p], and a
    message that is not a kline event. *)
Definition kline_message (t : Z) (p : Q) : Message :=
  {| msg_e := Some "kline"%string;
     msg_k := {| k_t := t; k_T := t + 999; k_o := p; k_h := p; k_l := p;
                 k_c := p; k_v := 1; k_q := p; k_n := 3; k_x := true |} |}.

Definition other_message : Message :=
  {| msg_e := Some "error"%string;
     msg_k := {| k_t := 0; k_T := 0; k_o := 0; k_h := 0; k_l := 0;
                 k_c := 0; k_v := 0; k_q := 0; k_n := 0; k_x := false |} |}.

(** The filters of a symbol whose tick size is one hundredth. *)
Definition sample_filters : list Filter :=
  [ {| filterType := "LOT_SIZE"; tickSize := 0 |};
    {| filterType := "PRICE_FILTER"; tickSize := (1 # 100)%Q |} ].

End LiveFeed.

(** ** The stateful calculators and the engine ([indicator_computes.py]) *)

Module Indicators.

(** [deque(maxlen=...).append]. *)
Definition deque_append {A : Type} (maxlen : nat) (d : list A) (x : A)
    : list A :=
  let d' := d ++ [x] in
  skipn (length d' - maxlen) d'.

(** [np.diff]. *)
Fixpoint diff (prices : list Q) : list Q :=
  match prices with
  | a :: (b :: _) as rest => (b - a) :: diff rest
  | _ => []
  end.

(** [np.mean] of a non-empty array. *)
Definition mean (l : list Q) : Q := Qsum l / inject_Z (Z.of_nat (length l)).

(** *** [StatefulRSICalculator] *)

Module StatefulRSICalculator.

Record t := mk {
  length : nat;
  alpha : Q;
  previous_avg_gain : option Q;
  previous_avg_loss : option Q;
  previous_price : option Q;
  initialized : bool;
  initial_prices : list Q
}.

(** [__init__]. *)
Definition init (length : nat) : t :=
  {| length := length;
     alpha := 1 / inject_Z (Z.of_nat length);
     previous_avg_gain := None;
     previous_avg_loss := None;
     previous_price := None;
     initialized := false;
     initial_prices := [] |}.

Definition initialize (self : t) (prices : list Q) : t * option Q :=
  if (List.length prices <? length self + 1)%nat then (self, None)
  else
    let changes := diff prices in
    let gains := map (fun ch => if Qle_bool 0 ch then ch else 0) changes in
    let losses := map (fun ch => if Qltb ch 0 then - ch else 0) changes in
    let avg_gain := mean (firstn (length self) gains) in
    let avg_loss := mean (firstn (length self) losses) in
    let self' :=
      {| length := length self;
         alpha := alpha self;
         previous_avg_gain := Some avg_gain;
         previous_avg_loss := Some avg_loss;
         previous_price := Some (last prices 0);
         initialized := true;
         initial_prices := initial_prices self |} in
    if Qeq_bool avg_loss 0 then (self', Some 100)
    else if Qeq_bool avg_gain 0 then (self', Some 0)
    else
      let rs := avg_gain / avg_loss in
      (self', Some (100 - 100 / (1 + rs))).

(** Once [initialized] is set the three [previous_...] attributes hold
    numbers; the last case is not reached from [init]. *)
Definition update (self : t) (new_price : Q) : t * option Q :=
  if negb (initialized self) then
    let self :=
      {| length := length self;
         alpha := alpha self;
         previous_avg_gain := previous_avg_gain self;
         previous_avg_loss := previous_avg_loss self;
         previous_price := previous_price self;
         initialized := initialized self;
         initial_prices :=
           deque_append (length self + 1) (initial_prices self) new_price |} in
    if (length self + 1 <=? List.length (initial_prices self))%nat
    then initialize self (initial_prices self)
    else (self, None)
  else
    match previous_price self, previous_avg_gain self,
          previous_avg_loss self with
    | Some price, Some avg_gain, Some avg_loss =>
      let change := new_price - price in
      let gain := if Qltb 0 change then change else 0 in
      let loss := if Qltb change 0 then - change else 0 in
      let len := inject_Z (Z.of_nat (length self)) in
      let avg_gain := (avg_gain * (len - 1) + gain) / len in
      let avg_loss := (avg_loss * (len - 1) + loss) / len in
      let self' :=
        {| length := length self;
           alpha := alpha self;
           previous_avg_gain := Some avg_gain;
           previous_avg_loss := Some avg_loss;
           previous_price := Some new_price;
           initialized := initialized self;
           initial_prices := initial_prices self |} in
      if Qeq_bool avg_loss 0 then (self', Some 100)
      else if Qeq_bool avg_gain 0 then (self', Some 0)
      else
        let rs := avg_gain / avg_loss in
        (self', Some (100 - 100 / (1 + rs)))
    | _, _, _ => (self, None)
    end.

End StatefulRSICalculator.

(** *** [StatefulSMA], the RSI signal line *)

Module StatefulSMA.

Record t := mk {
  length : nat;
  values : list Q;
  initialized : bool
}.

Definition init (length : nat) : t :=
  {| length := length; values := []; initialized := false |}.

(** [new_value] may be not-a-number, which is [None]. *)
Definition update (self : t) (new_value : option Q) : t * option Q :=
  match new_value with
  | None => (self, None)
  | Some v =>
    let values := deque_append (length self) (values self) v in
    if (List.length values <? length self)%nat then
      ({| length := length self; StatefulSMA.values := values;
          initialized := initialized self |}, None)
    else if (List.length values =? 0)%nat then
      (* [np.mean] of nothing is not-a-number *)
      ({| length := length self; StatefulSMA.values := values;
          initialized := true |}, None)
    else
      ({| length := length self; StatefulSMA.values := values;
          initialized := true |}, Some (mean values))
  end.

End StatefulSMA.

(** *** [StatefulMovingAverage] *)

Module StatefulMovingAverage.

Record t := mk {
  length : nat;
  prices : list Q;
  initialized : bool
}.

Definition init (length : nat) : t :=
  {| length := length; prices := []; initialized := false |}.

Definition update (self : t) (new_price : Q) : t * option Q :=
  let prices := deque_append (length self) (prices self) new_price in
  if (List.length prices <? length self)%nat then
    ({| length := length self; StatefulMovingAverage.prices := prices;
        initialized := initialized self |}, None)
  else if (List.length prices =? 0)%nat then
    (* the division by [len(self.prices)] raises; [except] gives nan *)
    ({| length := length self; StatefulMovingAverage.prices := prices;
        initialized := initialized self |}, None)
  else
    let ma_value := Qsum prices / inject_Z (Z.of_nat (List.length prices)) in
    ({| length := length self; StatefulMovingAverage.prices := prices;
        initialized := true |}, Some ma_value).

End StatefulMovingAverage.

(** *** [StatefulFibonacci] *)

(** The dictionary of levels returned by [StatefulFibonacci.update]. *)
Record FibLevels := mkFibLevels {
  level_100 : option Q;
  level_764 : option Q;
  level_618 : option Q;
  level_500 : option Q;
  level_382 : option Q;
  level_236 : option Q;
  level_000 : option Q
}.

Definition fib_nan : FibLevels :=
  {| level_100 := None; level_764 := None; level_618 := None;
     level_500 := None; level_382 := None; level_236 := None;
     level_000 := None |}.

(** [max] and [min] of a non-empty sequence. *)
Definition max_of (x : Q) (l : list Q) : Q :=
  fold_left (fun m y => if Qltb m y then y else m) l x.

Definition min_of (x : Q) (l : list Q) : Q :=
  fold_left (fun m y => if Qltb y m then y else m) l x.

Module StatefulFibonacci.

Record t := mk {
  length : nat;
  prices : list Q;
  initialized : bool
}.

Definition init (length : nat) : t :=
  {| length := length; prices := []; initialized := false |}.

Definition update (self : t) (new_price : Q) : t * FibLevels :=
  let prices := deque_append (length self) (prices self) new_price in
  if (List.length prices <? length self)%nat then
    ({| length := length self; StatefulFibonacci.prices := prices;
        initialized := initialized self |}, fib_nan)
  else
    match prices with
    | [] =>
      (* [max] of an empty deque raises; [except] gives the nan levels *)
      ({| length := length self; StatefulFibonacci.prices := prices;
          initialized := initialized self |}, fib_nan)
    | p :: ps =>
      let maxr := max_of p ps in
      let minr := min_of p ps in
      let ranr := maxr - minr in
      ({| length := length self; StatefulFibonacci.prices := prices;
          initialized := true |},
       {| level_100 := Some maxr;
          level_764 := Some (maxr - (236 # 1000) * ranr);
          level_618 := Some (maxr - (382 # 1000) * ranr);
          level_500 := Some (maxr - (1 # 2) * ranr);
          level_382 := Some (minr + (382 # 1000) * ranr);
          level_236 := Some (minr + (236 # 1000) * ranr);
          level_000 := Some minr |})
    end.

End StatefulFibonacci.

(** *** [StatefulIndicatorEngine] *)

(** A row of the bar table as [load_range_bars_only] reads it: [Open Time]
    parsed to a time stamp, the numeric columns. *)
Record BarRow := mkBarRow {
  Open_Time : Z;
  Open : Q;
  High : Q;
  Low : Q;
  Close : Q;
  Volume : Q
}.

(** A row of [current_df]: the bar and its indicator columns.  The
    [daily_diff] column is fetched from the exchange and the clock and is
    not part of the model. *)
Record IndicatorRow := mkIndicatorRow {
  bar : BarRow;
  rsi_col : option Q;
  rsi_ma50_col : option Q;
  ma_cols : list (string * option Q);
  fib_cols : FibLevels
}.

(** The column lists built by the row loop of [initialize_from_history];
    [ma_rows] holds, row by row, what the source keeps column by column in
    [ma_lists], and [fib_rows] likewise for [fib_lists]. *)
Record Columns := mkColumns {
  rsi_list : list (option Q);
  rsi_ma50_list : list (option Q);
  ma_rows : list (list (string * option Q));
  fib_rows : list FibLevels
}.

Module StatefulIndicatorEngine.

(** [ma_calculators] is the dictionary, in insertion order, of the eight
    moving averages (the attributes [ma2] ... [ma500] are the same objects). *)
Record t := mk {
  initialized : bool;
  last_processed_time : option Z;
  current_df : list IndicatorRow;
  rsi : StatefulRSICalculator.t;
  rsi_ma50 : StatefulSMA.t;
  ma_calculators : list (string * StatefulMovingAverage.t);
  fibonacci : StatefulFibonacci.t
}.

Definition init : t :=
  {| initialized := false;
     last_processed_time := None;
     current_df := [];
     rsi := StatefulRSICalculator.init 14;
     rsi_ma50 := StatefulSMA.init 36;
     ma_calculators :=
       [ ("short002"%string, StatefulMovingAverage.init 2);
         ("short007"%string, StatefulMovingAverage.init 7);
         ("short21"%string, StatefulMovingAverage.init 14);
         ("short50"%string, StatefulMovingAverage.init 50);
         ("long100"%string, StatefulMovingAverage.init 100);
         ("long200"%string, StatefulMovingAverage.init 200);
         ("long350"%string, StatefulMovingAverage.init 350);
         ("long500"%string, StatefulMovingAverage.init 500) ];
     fibonacci := StatefulFibonacci.init (Z.to_nat 5000) |}.

(** [for name, calc in self.ma_calculators.items(): calc.update(close)]:
    the updated calculators and the value of each. *)
Fixpoint update_mas (calcs : list (string * StatefulMovingAverage.t))
    (close : Q)
    : list (string * StatefulMovingAverage.t) * list (string * option Q) :=
  match calcs with
  | [] => ([], [])
  | (name, calc) :: rest =>
    let '(calc', ma_val) := StatefulMovingAverage.update calc close in
    let '(rest', vals) := update_mas rest close in
    ((name, calc') :: rest', (name, ma_val) :: vals)
  end.

(** The calculators of an engine, the part the two row loops thread. *)
Definition with_calculators (self : t) (rsi' : StatefulRSICalculator.t)
    (rsi_ma50' : StatefulSMA.t)
    (mas' : list (string * StatefulMovingAverage.t))
    (fib' : StatefulFibonacci.t) : t :=
  {| initialized := initialized self;
     last_processed_time := last_processed_time self;
     current_df := current_df self;
     rsi := rsi';
     rsi_ma50 := rsi_ma50';
     ma_calculators := mas';
     fibonacci := fib' |}.

(** The [for _, row in self.current_df.iterrows()] loop of
    [initialize_from_history]. *)
Fixpoint history_loop (self : t) (rows : list BarRow) (cols : Columns)
    : t * Columns :=
  match rows with
  | [] => (self, cols)
  | row :: rest =>
    let close := Close row in
    let '(rsi', rsi_val) := StatefulRSICalculator.update (rsi self) close in
    let '(rsi_ma50', rsi_ma50_val) :=
      match rsi_val with
      | None => (rsi_ma50 self, None)
      | Some _ => StatefulSMA.update (rsi_ma50 self) rsi_val
      end in
    let '(mas', ma_vals) := update_mas (ma_calculators self) close in
    let '(fib', fib_levels) :=
      StatefulFibonacci.update (fibonacci self) close in
    history_loop (with_calculators self rsi' rsi_ma50' mas' fib') rest
      {| rsi_list := rsi_list cols ++ [rsi_val];
         rsi_ma50_list := rsi_ma50_list cols ++ [rsi_ma50_val];
         ma_rows := ma_rows cols ++ [ma_vals];
         fib_rows := fib_rows cols ++ [fib_levels] |}
  end.

(** [self.current_df[...] = ...]: the columns laid beside the bars. *)
Fixpoint assign_columns (rows : list BarRow) (rsis rsi_ma50s : list (option Q))
    (mas : list (list (string * option Q))) (fibs : list FibLevels)
    : list IndicatorRow :=
  match rows, rsis, rsi_ma50s, mas, fibs with
  | row :: rows', r :: rsis', s :: rsi_ma50s', m :: mas', f :: fibs' =>
    {| bar := row; rsi_col := r; rsi_ma50_col := s; ma_cols := m;
       fib_cols := f |} :: assign_columns rows' rsis' rsi_ma50s' mas' fibs'
  | _, _, _, _, _ => []
  end.

Definition initialize_from_history (self : t) (historical_df : list BarRow)
    : t * bool :=
  match historical_df with
  | [] => (self, false)
  | _ :: _ =>
    let '(self', cols) :=
      history_loop self historical_df
        {| rsi_list := []; rsi_ma50_list := []; ma_rows := [];
           fib_rows := [] |} in
    ({| initialized := true;
        last_processed_time :=
          match rev historical_df with
          | row :: _ => Some (Open_Time row)
          | [] => last_processed_time self'
          end;
        current_df :=
          assign_columns historical_df (rsi_list cols) (rsi_ma50_list cols)
            (ma_rows cols) (fib_rows cols);
        rsi := rsi self';
        rsi_ma50 := rsi_ma50 self';
        ma_calculators := ma_calculators self';
        fibonacci := fibonacci self' |}, true)
  end.

(** The [for _, row in new_rows_df.iterrows()] loop of [process_new_data]:
    the engine (calculators and [last_processed_time]) and the list
    [new_data]. *)
Fixpoint new_data_loop (self : t) (rows : list BarRow)
    (new_data : list IndicatorRow) : t * list IndicatorRow :=
  match rows with
  | [] => (self, new_data)
  | row :: rest =>
    if match last_processed_time self with
       | Some t => (Open_Time row <=? t)%Z
       | None => false
       end
    then new_data_loop self rest new_data
    else
      let close := Close row in
      let timestamp := Open_Time row in
      let '(rsi', rsi_val) := StatefulRSICalculator.update (rsi self) close in
      let '(rsi_ma50', rsi_ma50_val) :=
        match rsi_val with
        | Some _ => StatefulSMA.update (rsi_ma50 self) rsi_val
        | None => (rsi_ma50 self, None)
        end in
      let '(mas', ma_values) := update_mas (ma_calculators self) close in
      let '(fib', fib_levels) :=
        StatefulFibonacci.update (fibonacci self) close in
      let new_row :=
        {| bar := row; rsi_col := rsi_val; rsi_ma50_col := rsi_ma50_val;
           ma_cols := ma_values; fib_cols := fib_levels |} in
      new_data_loop
        {| initialized := initialized self;
           last_processed_time := Some timestamp;
           current_df := current_df self;
           rsi := rsi';
           rsi_ma50 := rsi_ma50';
           ma_calculators := mas';
           fibonacci := fib' |}
        rest (new_data ++ [new_row])
  end.

Definition process_new_data (self : t) (new_rows_df : list BarRow)
    : t * bool :=
  if negb (initialized self) || (List.length new_rows_df =? 0)%nat
  then (self, false)
  else
    let '(self', new_data) := new_data_loop self new_rows_df [] in
    match new_data with
    | _ :: _ =>
      ({| initialized := initialized self';
          last_processed_time := last_processed_time self';
          current_df := current_df self' ++ new_data;
          rsi := rsi self';
          rsi_ma50 := rsi_ma50 self';
          ma_calculators := ma_calculators self';
          fibonacci := fibonacci self' |}, true)
    | [] => (self', false)
    end.

End StatefulIndicatorEngine.

(** *** Properties stated about the calculators and the engine *)

(** Feeding bars one at a time, each in a call of [process_new_data] of
    its own. *)
Definition feed_one_at_a_time (e : StatefulIndicatorEngine.t)
    (bars : list BarRow) : StatefulIndicatorEngine.t :=
  fold_left
    (fun e row => fst (StatefulIndicatorEngine.process_new_data e [row]))
    bars e.

(** Feeding a calculator a list of prices, one [update] each: the final
    calculator and the value returned at each price. *)
Fixpoint ma_feed (c : StatefulMovingAverage.t) (prices : list Q)
    : StatefulMovingAverage.t * list (option Q) :=
  match prices with
  | [] => (c, [])
  | p :: rest =>
    let '(c1, v) := StatefulMovingAverage.update c p in
    let '(c2, vs) := ma_feed c1 rest in
    (c2, v :: vs)
  end.

Fixpoint rsi_feed (c : StatefulRSICalculator.t) (prices : list Q)
    : StatefulRSICalculator.t * list (option Q) :=
  match prices with
  | [] => (c, [])
  | p :: rest =>
    let '(c1, v) := StatefulRSICalculator.update c p in
    let '(c2, vs) := rsi_feed c1 rest in
    (c2, v :: vs)
  end.

(** The RSI of an average gain and an average loss, in the words of the
    specification: 100 on a zero average loss, else 0 on a zero average
    gain, else Wilder's formula. *)
Definition wilder_rsi (avg_gain avg_loss : Q) : Q :=
  if Qeq_bool avg_loss 0 then 100
  else if Qeq_bool avg_gain 0 then 0
  else 100 - 100 / (1 + avg_gain / avg_loss).

(** The gain and the loss of a price change. *)
Definition gain_of (change : Q) : Q := if Qle_bool 0 change then change else 0.
Definition loss_of (change : Q) : Q := if Qltb change 0 then - change else 0.

(** Wilder smoothing of an average with a new term, as [update] writes it. *)
Definition wilder_smooth (n : nat) (avg x : Q) : Q :=
  (avg * (inject_Z (Z.of_nat n) - 1) + x) / inject_Z (Z.of_nat n).

(** An RSI calculator still gathering its seed prices. *)
Definition seeding (n : nat) (seen : list Q) : StatefulRSICalculator.t :=
  {| StatefulRSICalculator.length := n;
     StatefulRSICalculator.alpha := 1 / inject_Z (Z.of_nat n);
     StatefulRSICalculator.previous_avg_gain := None;
     StatefulRSICalculator.previous_avg_loss := None;
     StatefulRSICalculator.previous_price := None;
     StatefulRSICalculator.initialized := false;
     StatefulRSICalculator.initial_prices := seen |}.

(** An initialized RSI calculator. *)
Definition running (n : nat) (avg_gain avg_loss price : Q) (seeds : list Q)
    : StatefulRSICalculator.t :=
  {| StatefulRSICalculator.length := n;
     StatefulRSICalculator.alpha := 1 / inject_Z (Z.of_nat n);
     StatefulRSICalculator.previous_avg_gain := Some avg_gain;
     StatefulRSICalculator.previous_avg_loss := Some avg_loss;
     StatefulRSICalculator.previous_price := Some price;
     StatefulRSICalculator.initialized := true;
     StatefulRSICalculator.initial_prices := seeds |}.

(** The value a moving average of length [n] returns on the window [w]. *)
Definition ma_value_on (n : nat) (w : list Q) : option Q :=
  if (length w <? n)%nat then None else Some (mean w).

(** The calculators of an engine, set apart from its bookkeeping. *)
Record Calculators := mkCalculators {
  c_rsi : StatefulRSICalculator.t;
  c_rsi_ma50 : StatefulSMA.t;
  c_mas : list (string * StatefulMovingAverage.t);
  c_fib : StatefulFibonacci.t
}.

Definition calculators_of (e : StatefulIndicatorEngine.t) : Calculators :=
  {| c_rsi := StatefulIndicatorEngine.rsi e;
     c_rsi_ma50 := StatefulIndicatorEngine.rsi_ma50 e;
     c_mas := StatefulIndicatorEngine.ma_calculators e;
     c_fib := StatefulIndicatorEngine.fibonacci e |}.

(** One bar through every calculator's [update]: the indicator row. *)
Definition indicator_step (c : Calculators) (row : BarRow)
    : Calculators * IndicatorRow :=
  let '(rsi', rsi_val) := StatefulRSICalculator.update (c_rsi c) (Close row) in
  let '(rsi_ma50', rsi_ma50_val) :=
    match rsi_val with
    | Some _ => StatefulSMA.update (c_rsi_ma50 c) rsi_val
    | None => (c_rsi_ma50 c, None)
    end in
  let '(mas', ma_vals) :=
    StatefulIndicatorEngine.update_mas (c_mas c) (Close row) in
  let '(fib', fib_levels) := StatefulFibonacci.update (c_fib c) (Close row) in
  ({| c_rsi := rsi'; c_rsi_ma50 := rsi_ma50'; c_mas := mas'; c_fib := fib' |},
   {| bar := row; rsi_col := rsi_val; rsi_ma50_col := rsi_ma50_val;
      ma_cols := ma_vals; fib_cols := fib_levels |}).

(** The bars of a table through the calculators, in order. *)
Fixpoint replay (c : Calculators) (rows : list BarRow)
    : Calculators * list IndicatorRow :=
  match rows with
  | [] => (c, [])
  | row :: rest =>
    let '(c1, r) := indicator_step c row in
    let '(c2, rs) := replay c1 rest in
    (c2, r :: rs)
  end.

(** Every bar opens strictly after the one before it, the first strictly
    after [t]. *)
Fixpoint strictly_newer (t : Z) (rows : list BarRow) : Prop :=
  match rows with
  | [] => True
  | row :: rest => (t < Open_Time row)%Z /\ strictly_newer (Open_Time row) rest
  end.

(** The open time of the last bar of a table. *)
Definition last_open_time (rows : list BarRow) : option Z :=
  match rev rows with
  | row :: _ => Some (Open_Time row)
  | [] => None
  end.

(** An engine put together from its bookkeeping and its calculators. *)
Definition engine_with (init : bool) (t : option Z) (df : list IndicatorRow)
    (c : Calculators) : StatefulIndicatorEngine.t :=
  {| StatefulIndicatorEngine.initialized := init;
     StatefulIndicatorEngine.last_processed_time := t;
     StatefulIndicatorEngine.current_df := df;
     StatefulIndicatorEngine.rsi := c_rsi c;
     StatefulIndicatorEngine.rsi_ma50 := c_rsi_ma50 c;
     StatefulIndicatorEngine.ma_calculators := c_mas c;
     StatefulIndicatorEngine.fibonacci := c_fib c |}.

(** Sample closes: nine, rising by two. *)
Definition sample_closes : list Q :=
  [100; 102; 104; 106; 108; 110; 112; 114; 116].

(** Sample prices: fourteen, rising by one. *)
Definition rising_prices : list Q :=
  [50; 51; 52; 53; 54; 55; 56; 57; 58; 59; 60; 61; 62; 63].

(** A sample bar: opened at [t], all prices [p]. *)
Definition sample_bar (t : Z) (p : Q) : BarRow :=
  {| Open_Time := t; Open := p; High := p; Low := p; Close := p;
     Volume := 1 |}.

End Indicators.

(** ** The monitor around the engine ([indicator_computes.py]) *)

Module Monitor.

Import Indicators.

(** *** Runs of the calculators *)

(** Feeding the signal line a list of values, some of them not-a-number. *)
Fixpoint sma_feed (c : StatefulSMA.t) (values : list (option Q))
    : StatefulSMA.t * list (option Q) :=
  match values with
  | [] => (c, [])
  | v :: rest =>
    let '(c1, out) := StatefulSMA.update c v in
    let '(c2, outs) := sma_feed c1 rest in
    (c2, out :: outs)
  end.

Fixpoint fib_feed (c : StatefulFibonacci.t) (prices : list Q)
    : StatefulFibonacci.t * list FibLevels :=
  match prices with
  | [] => (c, [])
  | p :: rest =>
    let '(c1, levels) := StatefulFibonacci.update c p in
    let '(c2, levelss) := fib_feed c1 rest in
    (c2, levels :: levelss)
  end.

(** The numbers among values of which some are not-a-number. *)
Definition defined (values : list (option Q)) : list Q :=
  flat_map (fun v => match v with Some x => [x] | None => [] end) values.

(** The [n] most recent of the entries up to the [i]-th. *)
Definition window {A : Type} (n i : nat) (l : list A) : list A :=
  skipn (S i - n) (firstn (S i) l).

(** Prices that never fall, none below [p]; prices that always fall, the
    first below [p]. *)
Fixpoint rising_from (p : Q) (prices : list Q) : Prop :=
  match prices with
  | [] => True
  | q :: rest => p <= q /\ rising_from q rest
  end.

Fixpoint falling_from (p : Q) (prices : list Q) : Prop :=
  match prices with
  | [] => True
  | q :: rest => q < p /\ falling_from q rest
  end.

Definition never_falls (prices : list Q) : Prop :=
  match prices with
  | [] => True
  | p :: rest => rising_from p rest
  end.

Definition always_falls (prices : list Q) : Prop :=
  match prices with
  | [] => True
  | p :: rest => falling_from p rest
  end.

(** The levels [StatefulFibonacci] of length [n] returns on the deque [w]. *)
Definition fib_levels_on (n : nat) (w : list Q) : FibLevels :=
  if (length w <? n)%nat then fib_nan
  else
    match w with
    | [] => fib_nan
    | p :: ps =>
      let maxr := max_of p ps in
      let minr := min_of p ps in
      let ranr := maxr - minr in
      {| level_100 := Some maxr;
         level_764 := Some (maxr - (236 # 1000) * ranr);
         level_618 := Some (maxr - (382 # 1000) * ranr);
         level_500 := Some (maxr - (1 # 2) * ranr);
         level_382 := Some (minr + (382 # 1000) * ranr);
         level_236 := Some (minr + (236 # 1000) * ranr);
         level_000 := Some minr |}
    end.

(** The seven levels are numbers, in the order of their names. *)
Definition ordered_levels (lv : FibLevels) : Prop :=
  match level_000 lv, level_236 lv, level_382 lv, level_500 lv,
        level_618 lv, level_764 lv, level_100 lv with
  | Some l0, Some l2, Some l3, Some l5, Some l6, Some l7, Some l1 =>
    l0 <= l2 /\ l2 <= l3 /\ l3 <= l5 /\ l5 <= l6 /\ l6 <= l7 /\ l7 <= l1
  | _, _, _, _, _, _, _ => False
  end.

(** *** The update pass of [continuous_indicator_calculator] *)

(** One pass of the loop on a bar table that was updated: the table [df]
    as [load_range_bars_only] read it, the engine and the flag
    [engine_initialized]. *)
Definition update_pass (stateful_engine : StatefulIndicatorEngine.t)
    (engine_initialized : bool) (df : list BarRow)
    : StatefulIndicatorEngine.t * bool :=
  match df with
  | [] => (stateful_engine, engine_initialized)
  | _ :: _ =>
    if negb engine_initialized then
      StatefulIndicatorEngine.initialize_from_history stateful_engine df
    else
      let new_data :=
        match StatefulIndicatorEngine.last_processed_time stateful_engine with
        | Some last_time =>
          filter (fun row => (last_time <? Open_Time row)%Z) df
        | None => df
        end in
      match new_data with
      | [] => (stateful_engine, engine_initialized)
      | _ :: _ =>
        (fst (StatefulIndicatorEngine.process_new_data stateful_engine
                new_data),
         engine_initialized)
      end
  end.

(** The bars of a batch that open after the watermark [t] and after
    every bar before them in the batch. *)
Fixpoint records (t : option Z) (rows : list BarRow) : list BarRow :=
  match rows with
  | [] => []
  | row :: rest =>
    if match t with
       | Some t => (Open_Time row <=? t)%Z
       | None => false
       end
    then records t rest
    else row :: records (Some (Open_Time row)) rest
  end.

(** The watermark after the bars [recs] have been taken. *)
Definition watermark_after (t : option Z) (recs : list BarRow) : option Z :=
  match last_open_time recs with
  | Some t' => Some t'
  | None => t
  end.

(** Bars none of which opens after [t]. *)
Definition none_after (t : Z) (rows : list BarRow) : Prop :=
  Forall (fun row => (Open_Time row <= t)%Z) rows.

(** The value of the moving average [calc] at the [i]-th of [closes]. *)
Definition ma_at (calc : StatefulMovingAverage.t) (closes : list Q) (i : nat)
    : option Q :=
  nth i (snd (ma_feed calc closes)) None.

(** *** [WebSocketMarketData] *)

(** A [datetime] is a count of microseconds since the epoch, in UTC;
    [dt.date()] is the count of whole days and [dt.hour] the hour in the
    day. *)
Definition date_of (dt : Z) : Z := (dt / 86400000000)%Z.
Definition hour_of (dt : Z) : Z := ((dt mod 86400000000) / 3600000000)%Z.

(** [timedelta(hours=...)] and [timedelta(days=...)]. *)
Definition hours (n : Z) : Z := (n * 3600000000)%Z.
Definition days (n : Z) : Z := (n * 86400000000)%Z.

(** [get_price_at_kenyan_0300_1sec].  [get_historical_klines symbol
    interval start_str end_str] is the exchange's answer, the closes of the
    klines it returns, or [None] when the request raises.  The result is
    the pair [(price, target_date)]; [None] is [(None, None)]. *)
Definition get_price_at_kenyan_0300_1sec
    (get_historical_klines : string -> string -> Z -> Z -> option (list Q))
    (symbol : string) (utc_now : Z) : option (Q * Z) :=
  let kenyan_time := (utc_now + hours 3)%Z in
  let target_kenyan_time := (days (date_of kenyan_time) + hours 3)%Z in
  let target_date := date_of target_kenyan_time in
  let '(target_kenyan_time, target_date) :=
    if (kenyan_time <? target_kenyan_time)%Z
    then ((target_kenyan_time - days 1)%Z,
          date_of (target_kenyan_time - days 1))
    else (target_kenyan_time, target_date) in
  let target_utc := (target_kenyan_time - hours 3)%Z in
  let timestamp := Z.quot target_utc 1000 in
  match
    get_historical_klines symbol "1s"%string timestamp (timestamp + 1000)%Z
  with
  | None => None
  | Some (price :: _) => Some (price, target_date)
  | Some [] =>
    match
      get_historical_klines symbol "1m"%string timestamp
        (timestamp + 60000)%Z
    with
    | None => None
    | Some (price :: _) => Some (price, target_date)
    | Some [] => None
    end
  end.

Module WebSocketMarketData.

(** An entry of [price_0300_cache]. *)
Record CacheEntry := mkCacheEntry {
  price : Q;
  pairing : string;
  timestamp : Z;
  cache_date : Z
}.

(** The attributes the connection and the cache methods read or write.
    [websocket_manager] tells whether the attribute holds a manager;
    [token_data] keeps, of each token's entry, the current price. *)
Record t := mk {
  token_data : list (string * Q);
  websocket_manager : bool;
  connected : bool;
  price_0300_cache : list (string * CacheEntry);
  cache_initialized : bool;
  last_cache_update_date : option Z;
  last_data_received_time : Q;
  connection_attempts : Z;
  max_connection_attempts : Z;
  health_check_interval : Q;
  last_health_check : Q;
  data_stale_threshold : Q;
  auto_reconnect : bool
}.

(** [__init__]. *)
Definition init : t :=
  {| token_data := [];
     websocket_manager := false;
     connected := false;
     price_0300_cache := [];
     cache_initialized := false;
     last_cache_update_date := None;
     last_data_received_time := 0;
     connection_attempts := 0;
     max_connection_attempts := 5;
     health_check_interval := 60;
     last_health_check := 0;
     data_stale_threshold := 120;
     auto_reconnect := true |}.

(** The connection attributes set, the rest kept. *)
Definition with_connection (self : t) (manager connected' : bool)
    (received : Q) (attempts : Z) (checked : Q) : t :=
  {| token_data := token_data self;
     websocket_manager := manager;
     connected := connected';
     price_0300_cache := price_0300_cache self;
     cache_initialized := cache_initialized self;
     last_cache_update_date := last_cache_update_date self;
     last_data_received_time := received;
     connection_attempts := attempts;
     max_connection_attempts := max_connection_attempts self;
     health_check_interval := health_check_interval self;
     last_health_check := checked;
     data_stale_threshold := data_stale_threshold self;
     auto_reconnect := auto_reconnect self |}.

(** What one pass through the [try] block of [start_websocket] does: the
    sockets start and [time.time()] reads [now], or something raises,
    before or after the new manager is stored. *)
Inductive Attempt :=
| Connects (now : Q)
| Raises (manager_stored : bool).

(** [start_websocket], the outcome of each attempt given.  [None]: still
    retrying after the outcomes given. *)
Fixpoint start_websocket (attempts : list Attempt) (self : t)
    : option (t * bool) :=
  match attempts with
  | [] => None
  | Connects now :: _ =>
    Some (with_connection self true true now 0 (last_health_check self), true)
  | Raises manager_stored :: rest =>
    let self :=
      with_connection self (manager_stored || websocket_manager self) false
        (last_data_received_time self) (connection_attempts self + 1)
        (last_health_check self) in
    if (connection_attempts self <? max_connection_attempts self)%Z
    then start_websocket rest self
    else Some (self, false)
  end.

(** [stop]; [stop_raises] tells whether stopping the manager raises. *)
Definition stop (stop_raises : bool) (self : t) : t :=
  if websocket_manager self then
    if stop_raises then self
    else
      with_connection self (websocket_manager self) false
        (last_data_received_time self) (connection_attempts self)
        (last_health_check self)
  else self.

(** [check_health], with the reading of [time.time()]. *)
Definition check_health (current_time : Q) (stop_raises : bool)
    (attempts : list Attempt) (self : t) : option (t * bool) :=
  if Qltb (current_time - last_health_check self) (health_check_interval self)
  then Some (self, true)
  else
    let self :=
      with_connection self (websocket_manager self) (connected self)
        (last_data_received_time self) (connection_attempts self)
        current_time in
    if Qltb (data_stale_threshold self)
         (current_time - last_data_received_time self)
    then
      if auto_reconnect self && connected self
      then start_websocket attempts (stop stop_raises self)
      else Some (self, connected self)
    else if connected self
            && Qltb 30 (current_time - last_data_received_time self)
    then
      match token_data self with
      | [] =>
        if auto_reconnect self
        then start_websocket attempts (stop stop_raises self)
        else Some (self, connected self)
      | _ :: _ => Some (self, connected self)
      end
    else Some (self, connected self).

(** [self.price_0300_cache.get(token)]. *)
Definition cache_get (token : string) (cache : list (string * CacheEntry))
    : option CacheEntry :=
  match find (fun kv => String.eqb (fst kv) token) cache with
  | Some kv => Some (snd kv)
  | None => None
  end.

(** [should_refresh_0300_cache], with its two readings of the clock. *)
Definition should_refresh_0300_cache (utc_now utc_now' : Z) (self : t)
    : bool :=
  match last_cache_update_date self with
  | None => true
  | Some updated =>
    let kenyan_time := (utc_now + hours 3)%Z in
    let current_date := date_of kenyan_time in
    let required_date :=
      if (3 <=? hour_of kenyan_time)%Z then current_date
      else (current_date - 1)%Z in
    match cache_get "SOL"%string (price_0300_cache self) with
    | Some cache_data =>
      if negb (cache_date cache_data =? required_date)%Z then true
      else if (hours 24 <? utc_now' - updated)%Z then true
      else false
    | None => true
    end
  end.

End WebSocketMarketData.

(** The attempts a call of [start_websocket] may make: it goes on while
    the count of failures is below the maximum, and makes one in any case. *)
Definition attempts_left (self : WebSocketMarketData.t) : nat :=
  Z.to_nat
    (Z.max 1
       (WebSocketMarketData.max_connection_attempts self
        - WebSocketMarketData.connection_attempts self)).

(** An attempt that raised. *)
Definition raised (a : WebSocketMarketData.Attempt) : Prop :=
  match a with
  | WebSocketMarketData.Raises _ => True
  | WebSocketMarketData.Connects _ => False
  end.

(** A manager that gave up connecting. *)
Definition gave_up : WebSocketMarketData.t :=
  WebSocketMarketData.with_connection WebSocketMarketData.init true false 0 5
    0.

(** Sample values: two not-a-number, then four numbers with a
    not-a-number among them. *)
Definition sample_values : list (option Q) :=
  [None; None; Some 40; Some 50; None; Some 60; Some 70].

(** Sample prices: falling by one. *)
Definition falling_prices : list Q := rev rising_prices.

End Monitor.

(** * Proofs *)

(** ** Rational comparisons *)

Lemma Qltb_lt (a b : Q) : Qltb a b = true <-> a < b.
Proof.
  unfold Qltb. rewrite negb_true_iff.
  destruct (Qle_bool b a) eqn:E.
  - apply Qle_bool_iff in E. split; [discriminate | intro; lra].
  - split; [intros _ | reflexivity].
    destruct (Qlt_le_dec a b) as [|Hle]; [assumption|].
    apply Qle_bool_iff in Hle. congruence.
Qed.

Lemma Qltb_ge (a b : Q) : Qltb a b = false <-> b <= a.
Proof.
  unfold Qltb. rewrite negb_false_iff. apply Qle_bool_iff.
Qed.

(** ** The aggregator *)

Module AggregatorSpec.

Import Aggregator.


Section Range.

Variable range_size : Q.
Hypothesis range_pos : 0 < range_size.

(** Two or more possible bars means a move of at least twice the range. *)
Lemma possible_bars_move (price open_price : Q) :
  (2 <= possible_bars_of range_size price open_price)%Z ->
  2 * range_size <= Qabs (price - open_price).
Proof.
  unfold possible_bars_of. intros H.
  set (m := Qabs (price - open_price)) in *.
  assert (Hq : 2 <= m / range_size).
  { apply Qle_trans with (inject_Z (Qfloor (m / range_size))).
    - rewrite Zle_Qle in H. exact H.
    - apply Qfloor_le. }
  assert (Hm : m == (m / range_size) * range_size) by (field; lra).
  rewrite Hm. apply Qmult_le_compat_r; lra.
Qed.


(** In exact arithmetic the move left after the first bar of a jump is
    itself at least the range: a large jump always emits two bars and
    leaves a flat bar at the triggering price. *)
Lemma large_jump_emits_two (st : AggState) (cb : CurrentBar) (price : Q)
    (ts : Z) (k : Kline) :
  current_bar st = Some cb ->
  (2 <= possible_bars_of range_size price (open_price cb))%Z ->
  exists b1 b2,
    handle_large_price_jump range_size st price ts k
    = ({| current_bar := Some (flat_bar price ts); bar_klines := [] |},
       [b1; b2]).
Proof.
  intros Hcb Hjump. unfold handle_large_price_jump. rewrite Hcb.
  rewrite (proj2 (Z.leb_le _ _) Hjump).
  apply possible_bars_move in Hjump.
  destruct (Qltb (open_price cb) price) eqn:Hdir.
  - apply Qltb_lt in Hdir. rewrite Qabs_pos in Hjump by lra.
    rewrite (proj2 (Qle_bool_iff _ _)) by (rewrite Qabs_pos; lra).
    rewrite (proj2 (Qltb_lt _ _)) by lra.
    do 2 eexists. reflexivity.
  - apply Qltb_ge in Hdir. rewrite Qabs_neg in Hjump by lra.
    rewrite (proj2 (Qle_bool_iff _ _)) by (rewrite Qabs_neg; lra).
    rewrite (proj2 (Qltb_ge _ _)) by lra.
    do 2 eexists. reflexivity.
Qed.





End Range.

(** Every bar is built by [create_completed_bar], which halves the totals. *)
Lemma create_completed_bar_even_split (o h l c : Q) (ks : list Kline)
    (t1 t2 : Z) :
  even_split (create_completed_bar o h l c ks t1 t2).
Proof. unfold even_split; simpl; split; field. Qed.

Lemma handle_large_price_jump_even_split (rs : Q) (st : AggState) (p : Q)
    (ts : Z) (k : Kline) :
  Forall even_split (snd (handle_large_price_jump rs st p ts k)).
Proof.
  unfold handle_large_price_jump.
  destruct (current_bar st); [|constructor].
  destruct (2 <=? _)%Z; [|constructor].
  destruct (Qltb _ _); destruct (Qle_bool _ _); try destruct (Qltb _ _);
    simpl; repeat constructor; apply create_completed_bar_even_split.
Qed.

Lemma process_one_even_split (rs : Q) (st : AggState) (k : Kline) :
  Forall even_split (snd (process_one rs st k)).
Proof.
  assert (Hnormal : forall st0,
    Forall even_split
      (snd (let '(st', completed_bar) := process_kline_into_bar rs st0 k in
            (st', match completed_bar with Some b => [b] | None => [] end)))).
  { intros st0. unfold process_kline_into_bar.
    destruct (current_bar st0); [|constructor].
    destruct (check_range_completion _ _ _); simpl; repeat constructor;
      apply create_completed_bar_even_split. }
  unfold process_one.
  destruct (current_bar st); [|apply Hnormal].
  destruct (2 <=? _)%Z; [|apply Hnormal].
  pose proof (handle_large_price_jump_even_split rs st (close k)
                (close_time k) k) as H.
  destruct (handle_large_price_jump rs st (close k) (close_time k) k)
    as [st' bars].
  destruct bars; [apply Hnormal | exact H].
Qed.

Lemma process_all_even_split (rs : Q) (klines : list Kline) : forall st,
  Forall even_split (snd (process_all rs st klines)).
Proof.
  induction klines as [|k rest IH]; intros st; simpl; [constructor|].
  pose proof (process_one_even_split rs st k) as H1.
  destruct (process_one rs st k) as [st1 bars1].
  specialize (IH st1).
  destruct (process_all rs st1 rest) as [st2 bars2].
  apply Forall_app; auto.
Qed.



(** C9. Every CompletedBar the aggregator emits, from any state and any
    events, ordinary completion or either bar of a large-jump split, has
    its taker-buy base volume equal to half its volume and its taker-buy
    quote volume equal to half its quote volume. *)
Theorem taker_buy_is_half_of_volume (range_size : Q) (st : AggState)
    (cycles : list (list Kline)) :
  Forall even_split (snd (run_cycles range_size st cycles)).
Proof.
  revert st. induction cycles as [|ks rest IH]; intros st; simpl;
    [constructor|].
  unfold create_range_bar_from_klines.
  destruct ks as [|k ks'].
  - specialize (IH st). destruct (run_cycles range_size st rest). exact IH.
  - pose proof (process_all_even_split range_size (k :: ks') st) as H1.
    destruct (process_all range_size st (k :: ks')) as [st1 bars1].
    specialize (IH st1).
    destruct (run_cycles range_size st1 rest) as [st2 bars2].
    apply Forall_app; auto.
Qed.





End AggregatorSpec.

(** ** Gap recovery *)

Module GapRecoverySpec.

Import Aggregator GapRecovery.
Local Open Scope Z_scope.

(** *** Sorting keeps every kline *)

Lemma insert_by_timestamp_length (k : Kline) (l : list Kline) :
  length (insert_by_timestamp k l) = S (length l).
Proof.
  induction l as [|x rest IH]; simpl; [reflexivity|].
  destruct (timestamp k <=? timestamp x); simpl; congruence.
Qed.

Lemma sort_by_timestamp_length (l : list Kline) :
  length (sort_by_timestamp l) = length l.
Proof.
  induction l as [|x rest IH]; simpl; [reflexivity|].
  rewrite insert_by_timestamp_length. congruence.
Qed.

Lemma sort_by_timestamp_nil (l : list Kline) :
  sort_by_timestamp l = [] <-> l = [].
Proof.
  split; intros H; [|subst; reflexivity].
  apply length_zero_iff_nil. rewrite <- sort_by_timestamp_length, H.
  reflexivity.
Qed.

Section Exchange.

Variable fetch : Z -> Z -> list Kline.

(** *** The chunk loop *)

(** The loop gathers the sorted answers to the requests it issues. *)
Lemma fetch_loop_requests (rounds : nat) (ge cs : Z) :
  forall s acc issued,
    fetch_loop fetch rounds ge cs s acc issued
    = ((acc ++ concat (map (fun r => sort_by_timestamp (fetch (fst r) (snd r)))
                         (chunk_requests rounds ge cs s)))%list,
       (issued ++ chunk_requests rounds ge cs s)%list).
Proof.
  induction rounds as [|n IH]; intros s acc issued; simpl.
  - rewrite !app_nil_r. reflexivity.
  - destruct (s <? ge); [|rewrite !app_nil_r; reflexivity].
    rewrite IH. simpl. rewrite <- !app_assoc. simpl.
    destruct (fetch s (Z.min (s + cs) ge)) eqn:E;
      [reflexivity | rewrite <- app_assoc; reflexivity].
Qed.

(** The round count given to the loop is never what stops it: any count
    from [ge - s] on issues the same requests. *)
Lemma chunk_requests_enough (ge cs : Z) : 0 <= cs ->
  forall n m s,
    (Z.to_nat (ge - s) <= n)%nat -> (Z.to_nat (ge - s) <= m)%nat ->
    chunk_requests n ge cs s = chunk_requests m ge cs s.
Proof.
  intros Hcs. induction n as [|n IH]; intros m s Hn Hm.
  - destruct m; simpl; [reflexivity|].
    destruct (s <? ge) eqn:E; [|reflexivity]. apply Z.ltb_lt in E. lia.
  - simpl. destruct (s <? ge) eqn:E.
    + apply Z.ltb_lt in E. destruct m as [|m]; [lia|]. simpl.
      rewrite (proj2 (Z.ltb_lt _ _) E). f_equal. apply IH; lia.
    + destruct m; simpl; [reflexivity|]. rewrite E. reflexivity.
Qed.

(** The loop of the source, with no count: while the start is before the
    end, request a chunk and go on one millisecond after it. *)
Lemma chunk_requests_unfold (ge cs s : Z) : 0 <= cs ->
  chunk_requests (Z.to_nat (ge - s)) ge cs s
  = if s <? ge
    then (s, Z.min (s + cs) ge)
           :: chunk_requests (Z.to_nat (ge - (Z.min (s + cs) ge + 1))) ge cs
                (Z.min (s + cs) ge + 1)
    else [].
Proof.
  intros Hcs. destruct (s <? ge) eqn:E.
  - apply Z.ltb_lt in E.
    destruct (Z.to_nat (ge - s)) as [|n] eqn:En; [lia|]. simpl.
    rewrite (proj2 (Z.ltb_lt _ _) E). f_equal.
    apply chunk_requests_enough; lia.
  - destruct (Z.to_nat (ge - s)); simpl; [reflexivity|].
    rewrite E. reflexivity.
Qed.

(** The requests start at the start, follow one another without a hole,
    hold at most a chunk each, and end at the end of the window or one
    millisecond before it. *)
Lemma chunk_requests_window (ge cs : Z) : 0 <= cs ->
  forall n s, (Z.to_nat (ge - s) <= n)%nat -> s < ge ->
    chunk_requests n ge cs s <> []
    /\ contiguous_from s (chunk_requests n ge cs s)
    /\ Forall (fun r => snd r - fst r <= cs) (chunk_requests n ge cs s)
    /\ ge - 1 <= fetched_up_to (chunk_requests n ge cs s) <= ge.
Proof.
  intros Hcs. induction n as [|n IH]; intros s Hn Hlt; [lia|].
  simpl. rewrite (proj2 (Z.ltb_lt _ _) Hlt).
  set (e := Z.min (s + cs) ge).
  split; [discriminate|].
  destruct (Z_lt_ge_dec (e + 1) ge) as [Hmore|Hdone].
  - destruct (IH (e + 1)) as (Hne & Hc & Hf & Hl); [lia | assumption|].
    split; [simpl; repeat split; [lia | assumption]|].
    split; [constructor; [simpl; lia | assumption]|].
    unfold fetched_up_to in *. simpl.
    destruct (chunk_requests n ge cs (e + 1)); [congruence | exact Hl].
  - assert (Hnil : chunk_requests n ge cs (e + 1) = []).
    { destruct n; simpl; [reflexivity|].
      destruct (e + 1 <? ge) eqn:E; [apply Z.ltb_lt in E; lia | reflexivity]. }
    rewrite Hnil. unfold fetched_up_to. simpl.
    repeat split; try lia. constructor; [simpl; lia | constructor].
Qed.

Lemma gathered_nil (reqs : list (Z * Z)) :
  gathered fetch reqs = []
  <-> forall r, In r reqs -> fetch (fst r) (snd r) = [].
Proof.
  unfold gathered. induction reqs as [|r rest IH]; simpl.
  - split; [intros _ r [] | reflexivity].
  - split.
    + intros H. apply app_eq_nil in H. destruct H as [H1 H2].
      intros r' [<-|Hin]; [apply sort_by_timestamp_nil, H1 | apply IH; auto].
    + intros H.
      rewrite (proj2 (sort_by_timestamp_nil _) (H r (or_introl eq_refl))).
      simpl. apply IH. intros r' Hin. apply H. right. exact Hin.
Qed.

(** The shape of a call that issues requests: it passed every guard, the
    window is positive, and the globals are set by what came back. *)
Lemma backfill_shape (now_debounce current_time now_finally : Z)
    (st : GapState) (last_update : Z) :
  last_successful_ws_update st = Some last_update ->
  let out :=
    check_for_data_gaps fetch now_debounce current_time now_finally st in
  let gap_start_ms := timestamp_ms last_update + 1000 in
  let gap_end_ms := timestamp_ms current_time - 2000 in
  let reqs :=
    chunk_requests (Z.to_nat (gap_end_ms - gap_start_ms)) gap_end_ms 1000000
      gap_start_ms in
  requests out <> [] ->
  gap_start_ms < gap_end_ms
  /\ requests out = reqs
  /\ match gathered fetch reqs with
     | _ :: _ =>
       returned out = true
       /\ gap_fill_retry_count (state_after out) = 0
       /\ last_successful_ws_update (state_after out)
          = Some (fromtimestamp_ms gap_end_ms)
     | [] =>
       returned out = false
       /\ if MAX_GAP_FILL_RETRIES <=? gap_fill_retry_count st + 1
          then gap_fill_retry_count (state_after out) = 0
               /\ last_successful_ws_update (state_after out)
                  = Some current_time
          else gap_fill_retry_count (state_after out)
               = gap_fill_retry_count st + 1
               /\ last_successful_ws_update (state_after out)
                  = Some last_update
     end.
Proof.
  intros Hlast. cbv zeta. unfold check_for_data_gaps.
  destruct (negb (prefetch_completed st) || gap_filling_in_progress st
            || data_gap_filling st); [simpl; congruence|].
  destruct (match last_gap_fill_time st with
            | Some t => timedelta_seconds (now_debounce - t) <? 10
            | None => false
            end); [simpl; congruence|].
  rewrite Hlast.
  destruct (negb (if ws_reconnection_detected st then _ else _));
    [simpl; congruence|].
  destruct (timestamp_ms current_time - 2000
            <=? timestamp_ms last_update + 1000) eqn:Hwin;
    [simpl; congruence|].
  apply Z.leb_gt in Hwin.
  rewrite fetch_loop_requests. simpl app.
  change (MAX_KLINES_PER_REQUEST * KLINE_INTERVAL_SECONDS * 1000) with 1000000.
  fold (gathered fetch (chunk_requests
         (Z.to_nat (timestamp_ms current_time - 2000
                    - (timestamp_ms last_update + 1000)))
         (timestamp_ms current_time - 2000) 1000000
         (timestamp_ms last_update + 1000))).
  intros Hreq. split; [exact Hwin|].
  destruct (gathered fetch _) eqn:Hdata.
  - destruct (MAX_GAP_FILL_RETRIES <=? gap_fill_retry_count st + 1);
      simpl; auto.
  - simpl. auto.
Qed.

End Exchange.

(** Truncation to milliseconds never goes past the datetime by a whole
    millisecond. *)
Lemma timestamp_ms_bounds (dt : Z) :
  dt < (timestamp_ms dt + 1) * 1000 /\ (timestamp_ms dt - 1) * 1000 < dt.
Proof.
  unfold timestamp_ms.
  pose proof (Z.quot_rem' dt 1000) as E.
  pose proof (Z.rem_bound_abs dt 1000 ltac:(lia)) as B.
  lia.
Qed.

(** A call that passes the guards with a trigger set and a positive
    window does issue requests. *)
Lemma backfill_issues_requests (fetch : Z -> Z -> list Kline)
    (now_debounce current_time now_finally : Z) (st : GapState)
    (last_update : Z) :
  prefetch_completed st = true ->
  gap_filling_in_progress st = false ->
  data_gap_filling st = false ->
  debounce_passed now_debounce st ->
  last_successful_ws_update st = Some last_update ->
  ws_reconnection_detected st = true
  \/ 300 * 1000000 < current_time - last_update
  \/ 0 < gap_fill_retry_count st ->
  timestamp_ms last_update + 1000 < timestamp_ms current_time - 2000 ->
  requests (check_for_data_gaps fetch now_debounce current_time now_finally st)
  <> [].
Proof.
  intros Hp Hg Hd Hdeb Hlast Htrig Hwin. unfold check_for_data_gaps.
  rewrite Hp, Hg, Hd. cbn [negb orb].
  assert (Hdeb' : match last_gap_fill_time st with
                  | Some t => timedelta_seconds (now_debounce - t) <? 10
                  | None => false
                  end = false).
  { unfold debounce_passed in Hdeb.
    destruct (last_gap_fill_time st);
      [apply Z.ltb_ge; exact Hdeb | reflexivity]. }
  rewrite Hdeb', Hlast.
  assert (Hfill : (if ws_reconnection_detected st then true
                   else if total_seconds_gt (current_time - last_update)
                             GAP_DETECTION_THRESHOLD
                   then true
                   else if 0 <? gap_fill_retry_count st then true else false)
                  = true).
  { destruct (ws_reconnection_detected st); [reflexivity|].
    destruct (total_seconds_gt _ _) eqn:Hstale; [reflexivity|].
    destruct (0 <? gap_fill_retry_count st) eqn:Hretry; [reflexivity|].
    unfold total_seconds_gt, GAP_DETECTION_THRESHOLD in Hstale.
    apply Z.ltb_ge in Hstale, Hretry.
    destruct Htrig as [H|[H|H]]; [discriminate H | lia | lia]. }
  rewrite Hfill. cbn [negb].
  replace (timestamp_ms current_time - 2000 <=? timestamp_ms last_update + 1000)
    with false by (symmetry; apply Z.leb_gt; exact Hwin).
  rewrite fetch_loop_requests. cbn [app].
  change (MAX_KLINES_PER_REQUEST * KLINE_INTERVAL_SECONDS * 1000) with 1000000.
  pose proof (chunk_requests_window
                (timestamp_ms current_time - 2000) 1000000 ltac:(lia)
                (Z.to_nat (timestamp_ms current_time - 2000
                           - (timestamp_ms last_update + 1000)))
                (timestamp_ms last_update + 1000) ltac:(lia) Hwin)
    as (Hne & _).
  destruct (concat _);
    [destruct (MAX_GAP_FILL_RETRIES <=? _)|]; simpl; exact Hne.
Qed.

(** A chunk boundary one millisecond before the end of the window: the
    loop stops there. *)
Example chunk_boundary_before_window_end :
  chunk_requests (Z.to_nat (11 - 0)) 11 10 0 = [(0, 10)]
  /\ fetched_up_to (chunk_requests (Z.to_nat (11 - 0)) 11 10 0) = 11 - 1.
Proof. split; reflexivity. Qed.

(** C4, as the code has it.  Whenever a call backfills, the requests it
    issues start exactly 1000 ms after the last-successful-update watermark,
    follow one another without a hole in chunks of at most 1,000,000 ms,
    and run up to the current time minus the 2000 ms safety margin (the last
    request stops one millisecond short of it when a chunk boundary falls
    there). *)
Theorem backfill_window (fetch : Z -> Z -> list Kline)
    (now_debounce current_time now_finally : Z) (st : GapState)
    (last_update : Z) :
  last_successful_ws_update st = Some last_update ->
  requests (check_for_data_gaps fetch now_debounce current_time now_finally st)
  <> [] ->
  let reqs :=
    requests
      (check_for_data_gaps fetch now_debounce current_time now_finally st) in
  let gap_start_ms := timestamp_ms last_update + 1000 in
  let gap_end_ms := timestamp_ms current_time - 2000 in
  gap_start_ms < gap_end_ms
  /\ contiguous_from gap_start_ms reqs
  /\ Forall (fun r => snd r - fst r <= 1000000) reqs
  /\ gap_end_ms - 1 <= fetched_up_to reqs <= gap_end_ms.
Proof.
  intros Hlast Hreq. cbv zeta.
  destruct (backfill_shape fetch now_debounce current_time now_finally st
              last_update Hlast Hreq) as (Hwin & -> & _).
  split; [exact Hwin|].
  apply chunk_requests_window; lia.
Qed.

(** Events at [T] and [T + 1s], a reconnection, and a gap check at
    [T + 5s]: the window is [[T + 2000 ms, T + 3000 ms]]. *)
Lemma backfill_window_witness :
  requests
    (check_for_data_gaps no_data (at_ms 1700000005000) (at_ms 1700000005000)
       (at_ms 1700000005300) (sample_globals 1700000001000 true 0))
  = [(1700000002000, 1700000003000)]
  /\ contiguous_from (1700000001000 + 1000)
       (requests
          (check_for_data_gaps no_data (at_ms 1700000005000)
             (at_ms 1700000005000) (at_ms 1700000005300)
             (sample_globals 1700000001000 true 0))).
Proof.
  split; [vm_compute; reflexivity|].
  refine (proj1 (proj2 (backfill_window no_data (at_ms 1700000005000)
            (at_ms 1700000005000) (at_ms 1700000005300)
            (sample_globals 1700000001000 true 0) (at_ms 1700000001000)
            eq_refl _))).
  vm_compute. discriminate.
Defined.

(** C4 as stated fails: with the watermark at [T + 1000 ms] and the check
    at [T + 5000 ms], the window fetched starts at [T + 2000 ms], a full
    second after the watermark, not at [T + 1001 ms]. *)
Lemma backfill_starts_a_second_after_watermark :
  let T := 1700000000000 in
  let st := sample_globals (T + 1000) true 0 in
  let out :=
    check_for_data_gaps no_data (at_ms (T + 5000)) (at_ms (T + 5000))
      (at_ms (T + 5300)) st in
  last_successful_ws_update st = Some (at_ms (T + 1000))
  /\ requests out = [(T + 2000, T + 5000 - 2000)]
  /\ requests out <> [(T + 1001, T + 5000 - 2000)].
Proof. vm_compute. repeat split; discriminate. Qed.





(** C6. In a call that backfills: when every request comes back empty the
    retry counter goes up by one, unless that reaches the maximum, in which
    case the watermark moves forward to the current time and the counter is
    reset; when some request brings data the watermark moves forward to the
    end of the window and the counter is cleared. *)
Theorem backfill_retries_and_watermark (fetch : Z -> Z -> list Kline)
    (now_debounce current_time now_finally : Z) (st : GapState)
    (last_update : Z) :
  last_successful_ws_update st = Some last_update ->
  requests (check_for_data_gaps fetch now_debounce current_time now_finally st)
  <> [] ->
  let out :=
    check_for_data_gaps fetch now_debounce current_time now_finally st in
  let gap_end_ms := timestamp_ms current_time - 2000 in
  ((forall r, In r (requests out) -> fetch (fst r) (snd r) = []) ->
   returned out = false
   /\ (gap_fill_retry_count st + 1 < MAX_GAP_FILL_RETRIES ->
       gap_fill_retry_count (state_after out) = gap_fill_retry_count st + 1
       /\ last_successful_ws_update (state_after out) = Some last_update)
   /\ (MAX_GAP_FILL_RETRIES <= gap_fill_retry_count st + 1 ->
       gap_fill_retry_count (state_after out) = 0
       /\ last_successful_ws_update (state_after out) = Some current_time
       /\ last_update < current_time))
  /\ ((exists r, In r (requests out) /\ fetch (fst r) (snd r) <> []) ->
      returned out = true
      /\ gap_fill_retry_count (state_after out) = 0
      /\ last_successful_ws_update (state_after out)
         = Some (fromtimestamp_ms gap_end_ms)
      /\ last_update < fromtimestamp_ms gap_end_ms).
Proof.
  intros Hlast Hreq. cbv zeta.
  destruct (backfill_shape fetch now_debounce current_time now_finally st
              last_update Hlast Hreq) as (Hwin & Hreqs & Hshape).
  rewrite Hreqs.
  pose proof (timestamp_ms_bounds last_update) as [Hl1 Hl2].
  pose proof (timestamp_ms_bounds current_time) as [Hc1 Hc2].
  split.
  - intros Hempty. apply gathered_nil in Hempty. rewrite Hempty in Hshape.
    destruct Hshape as [Hret Hcount]. split; [exact Hret|]. split.
    + intros Hlt. apply Z.leb_gt in Hlt. rewrite Hlt in Hcount. exact Hcount.
    + intros Hge. apply Z.leb_le in Hge. rewrite Hge in Hcount.
      destruct Hcount as [H1 H2]. repeat split; auto. lia.
  - intros (r & Hin & Hdata).
    destruct (gathered fetch _) eqn:Hg.
    + exfalso. apply Hdata.
      exact (proj1 (gathered_nil fetch _) Hg r Hin).
    + destruct Hshape as (H1 & H2 & H3). repeat split; auto.
      unfold fromtimestamp_ms. lia.
Qed.

(** Three runs of the sample: an empty answer with no retry pending, an
    empty answer with two pending, and an answer with data. *)
Lemma backfill_retries_and_watermark_witness :
  gap_fill_retry_count
    (state_after
       (check_for_data_gaps no_data (at_ms 1700000005000)
          (at_ms 1700000005000) (at_ms 1700000005300)
          (sample_globals 1700000001000 true 0))) = 0 + 1
  /\ last_successful_ws_update
       (state_after
          (check_for_data_gaps no_data (at_ms 1700000005000)
             (at_ms 1700000005000) (at_ms 1700000005300)
             (sample_globals 1700000001000 true 2)))
     = Some (at_ms 1700000005000)
  /\ last_successful_ws_update
       (state_after
          (check_for_data_gaps one_kline (at_ms 1700000005000)
             (at_ms 1700000005000) (at_ms 1700000005300)
             (sample_globals 1700000001000 true 0)))
     = Some (fromtimestamp_ms (1700000005000 - 2000)).
Proof.
  split; [|split].
  - assert (Hreq : requests
      (check_for_data_gaps no_data (at_ms 1700000005000) (at_ms 1700000005000)
         (at_ms 1700000005300) (sample_globals 1700000001000 true 0)) <> [])
      by (vm_compute; discriminate).
    destruct (backfill_retries_and_watermark no_data _ _ _
                (sample_globals 1700000001000 true 0) _ eq_refl Hreq)
      as [Hempty _].
    destruct (Hempty (fun _ _ => eq_refl)) as (_ & Hbelow & _).
    apply Hbelow. reflexivity.
  - assert (Hreq : requests
      (check_for_data_gaps no_data (at_ms 1700000005000) (at_ms 1700000005000)
         (at_ms 1700000005300) (sample_globals 1700000001000 true 2)) <> [])
      by (vm_compute; discriminate).
    destruct (backfill_retries_and_watermark no_data _ _ _
                (sample_globals 1700000001000 true 2) _ eq_refl Hreq)
      as [Hempty _].
    destruct (Hempty (fun _ _ => eq_refl)) as (_ & _ & Hmax).
    apply Hmax. vm_compute. intro H. discriminate H.
  - assert (Hreq : requests
      (check_for_data_gaps one_kline (at_ms 1700000005000)
         (at_ms 1700000005000) (at_ms 1700000005300)
         (sample_globals 1700000001000 true 0)) <> [])
      by (vm_compute; discriminate).
    destruct (backfill_retries_and_watermark one_kline _ _ _
                (sample_globals 1700000001000 true 0) _ eq_refl Hreq)
      as [_ Hdata].
    apply Hdata. exists (1700000002000, 1700000003000). split.
    + vm_compute. left. reflexivity.
    + discriminate.
Defined.

End GapRecoverySpec.

(** ** The calculators *)

Module IndicatorSpec.

Import Indicators.

Module RSI := StatefulRSICalculator.
Module MA := StatefulMovingAverage.

(** *** Bounded deques *)

(** The last [n] entries of a list. *)
Lemma deque_append_lastn {A : Type} (n : nat) (d : list A) (x : A) :
  deque_append n d x = skipn (length (d ++ [x]) - n) (d ++ [x]).
Proof. reflexivity. Qed.

Lemma skipn_app_le {A : Type} (k : nat) (a b : list A) :
  (k <= length a)%nat -> skipn k (a ++ b) = skipn k a ++ b.
Proof.
  intros H. rewrite skipn_app.
  replace (k - length a)%nat with 0%nat by lia. reflexivity.
Qed.

(** Keeping the last [n] of a deque already cut to its last [n]. *)
Lemma lastn_app_lastn {A : Type} (n : nat) (a b : list A) :
  skipn (length (skipn (length a - n) a ++ b) - n) (skipn (length a - n) a ++ b)
  = skipn (length (a ++ b) - n) (a ++ b).
Proof.
  set (k := (length a - n)%nat).
  assert (Hk : (k <= length a)%nat) by (unfold k; lia).
  rewrite !length_app, length_skipn.
  replace (length a + length b - n)%nat
    with ((length a - k + length b - n) + k)%nat by (unfold k; lia).
  rewrite <- skipn_skipn.
  rewrite (skipn_app_le k a b Hk). reflexivity.
Qed.

(** *** The moving average *)

(** After any prices, the deque holds the last [n] of them and each value
    is the mean of the window then in the deque, once it is full. *)
Lemma ma_feed_nth (n : nat) (prices : list Q) : (0 < n)%nat ->
  forall (c : MA.t) (i : nat),
    MA.length c = n -> (i < length prices)%nat ->
    nth i (snd (ma_feed c prices)) None
    = let seen := MA.prices c ++ firstn (S i) prices in
      ma_value_on n (skipn (length seen - n) seen).
Proof.
  intros Hn. induction prices as [|p rest IH]; intros c i Hc Hi;
    [simpl in Hi; lia|].
  simpl ma_feed.
  destruct (MA.update c p) as [c1 v] eqn:Hup.
  destruct (ma_feed c1 rest) as [c2 vs] eqn:Hfeed.
  assert (Hc1 : MA.length c1 = n
                /\ MA.prices c1 = deque_append n (MA.prices c) p
                /\ v = ma_value_on n (deque_append n (MA.prices c) p)).
  { unfold MA.update in Hup. rewrite Hc in Hup. unfold ma_value_on.
    destruct (length (deque_append n (MA.prices c) p) <? n)%nat eqn:Hlen.
    - injection Hup as <- <-. auto.
    - assert (Hpos : (length (deque_append n (MA.prices c) p) =? 0)%nat
                     = false).
      { apply Nat.eqb_neq. apply Nat.ltb_ge in Hlen. lia. }
      rewrite Hpos in Hup. injection Hup as <- <-. auto. }
  destruct Hc1 as (Hlen1 & Hp1 & Hv).
  destruct i as [|i]; cbn [snd nth].
  - rewrite Hv. reflexivity.
  - simpl in Hi. specialize (IH c1 i Hlen1 ltac:(lia)).
    rewrite Hfeed in IH. cbn [snd] in IH. rewrite IH, Hp1.
    rewrite deque_append_lastn.
    change (firstn (S (S i)) (p :: rest)) with ([p] ++ firstn (S i) rest).
    rewrite app_assoc. cbv zeta. rewrite lastn_app_lastn. reflexivity.
Qed.

Lemma ma_feed_length (prices : list Q) : forall c,
  length (snd (ma_feed c prices)) = length prices.
Proof.
  induction prices as [|p rest IH]; intros c; simpl; [reflexivity|].
  destruct (MA.update c p) as [c1 v].
  specialize (IH c1). destruct (ma_feed c1 rest). simpl in *. congruence.
Qed.

(** C8. A fresh moving average of length 7 returns a value for every close
    fed to it: not-a-number for each of the first six, and from the seventh
    on the arithmetic mean of the seven most recent closes. *)
Theorem moving_average_of_seven (closes : list Q) (i : nat) :
  (i < length closes)%nat ->
  length (snd (ma_feed (MA.init 7) closes)) = length closes
  /\ nth i (snd (ma_feed (MA.init 7) closes)) None
     = (if (i <? 6)%nat then None
        else Some (mean (firstn 7 (skipn (i - 6) closes))))
  /\ (6 <= i -> length (firstn 7 (skipn (i - 6) closes)) = 7)%nat.
Proof.
  intros Hi. split; [apply ma_feed_length|].
  rewrite (ma_feed_nth 7 closes ltac:(lia) (MA.init 7) i
             eq_refl Hi).
  change (MA.prices (MA.init 7) ++ firstn (S i) closes)
    with (firstn (S i) closes).
  cbv zeta. unfold ma_value_on.
  assert (Hlen : length (firstn (S i) closes) = S i)
    by (rewrite length_firstn; lia).
  rewrite Hlen, length_skipn, Hlen.
  destruct (i <? 6)%nat eqn:Hsix.
  - apply Nat.ltb_lt in Hsix.
    replace (S i - (S i - 7) <? 7)%nat with true
      by (symmetry; apply Nat.ltb_lt; lia).
    split; [reflexivity | lia].
  - apply Nat.ltb_ge in Hsix.
    replace (S i - (S i - 7) <? 7)%nat with false
      by (symmetry; apply Nat.ltb_ge; lia).
    replace (S i - 7)%nat with (i - 6)%nat by lia.
    rewrite skipn_firstn_comm.
    replace (S i - (i - 6))%nat with 7%nat by lia.
    split; [reflexivity|]. intros _.
    rewrite length_firstn, length_skipn. lia.
Qed.

(** Nine closes: six undefined values, then three means of seven. *)
Lemma moving_average_of_seven_witness :
  snd (ma_feed (MA.init 7) sample_closes)
  = [None; None; None; None; None; None;
     Some (742 # 7); Some (756 # 7); Some (770 # 7)]
  /\ nth 7 (snd (ma_feed (MA.init 7) sample_closes)) None
     = Some (mean [102; 104; 106; 108; 110; 112; 114]).
Proof.
  split; [reflexivity|].
  exact (proj1 (proj2 (moving_average_of_seven sample_closes 7
                         ltac:(simpl; lia)))).
Defined.

(** *** The RSI calculator *)

Lemma rsi_feed_app (a b : list Q) : forall c,
  rsi_feed c (a ++ b)
  = (fst (rsi_feed (fst (rsi_feed c a)) b),
     snd (rsi_feed c a) ++ snd (rsi_feed (fst (rsi_feed c a)) b)).
Proof.
  induction a as [|p rest IH]; intros c; simpl.
  - destruct (rsi_feed c b); reflexivity.
  - destruct (RSI.update c p) as [c1 v]. rewrite IH.
    destruct (rsi_feed c1 rest) as [c2 vs]. reflexivity.
Qed.

Lemma diff_length (prices : list Q) :
  length (diff prices) = (length prices - 1)%nat.
Proof.
  induction prices as [|a [|b rest] IH]; simpl in *; try reflexivity.
  rewrite IH. lia.
Qed.

(** While fewer than [n + 1] prices are in, [update] only stores them. *)
Lemma rsi_update_seeding (n : nat) (seen : list Q) (p : Q) :
  (length seen < n)%nat ->
  RSI.update (seeding n seen) p = (seeding n (seen ++ [p]), None).
Proof.
  intros H. unfold RSI.update, seeding. cbn [RSI.initialized negb].
  cbn [RSI.length RSI.initial_prices]. unfold deque_append.
  rewrite length_app. simpl length.
  replace (length seen + 1 - (n + 1))%nat with 0%nat by lia. simpl skipn.
  rewrite length_app. simpl length.
  replace (n + 1 <=? length seen + 1)%nat with false
    by (symmetry; apply Nat.leb_gt; lia).
  reflexivity.
Qed.

(** The price that completes the seeds initializes the calculator with the
    simple means of the [n] gains and of the [n] losses. *)
Lemma rsi_update_last_seed (n : nat) (seen : list Q) (p : Q) :
  length seen = n ->
  let seeds := seen ++ [p] in
  let avg_gain := mean (map gain_of (diff seeds)) in
  let avg_loss := mean (map loss_of (diff seeds)) in
  RSI.update (seeding n seen) p
  = (running n avg_gain avg_loss (last seeds 0) seeds,
     Some (wilder_rsi avg_gain avg_loss)).
Proof.
  intros H. cbv zeta. unfold RSI.update, seeding.
  cbn [RSI.initialized negb RSI.length RSI.initial_prices]. unfold deque_append.
  rewrite length_app. simpl length.
  replace (length seen + 1 - (n + 1))%nat with 0%nat by lia. simpl skipn.
  rewrite length_app. simpl length.
  replace (n + 1 <=? length seen + 1)%nat with true
    by (symmetry; apply Nat.leb_le; lia).
  unfold RSI.initialize. cbn [RSI.length RSI.alpha RSI.initial_prices].
  rewrite length_app. simpl length.
  replace (length seen + 1 <? n + 1)%nat with false
    by (symmetry; apply Nat.ltb_ge; lia).
  fold gain_of. fold loss_of.
  change (fun ch : Q => if Qle_bool 0 ch then ch else 0) with gain_of.
  change (fun ch : Q => if Qltb ch 0 then - ch else 0) with loss_of.
  rewrite !firstn_all2
    by (rewrite length_map, diff_length, length_app; simpl; lia).
  unfold wilder_rsi, running.
  destruct (Qeq_bool (mean (map loss_of (diff (seen ++ [p])))) 0);
    [reflexivity|].
  destruct (Qeq_bool (mean (map gain_of (diff (seen ++ [p])))) 0);
    reflexivity.
Qed.

Lemma rsi_feed_seeding (n : nat) (prices : list Q) : forall seen,
  (length seen + length prices <= n)%nat ->
  rsi_feed (seeding n seen) prices
  = (seeding n (seen ++ prices), repeat None (length prices)).
Proof.
  induction prices as [|p rest IH]; intros seen H; simpl.
  - rewrite app_nil_r. reflexivity.
  - simpl in H. rewrite rsi_update_seeding by lia.
    rewrite IH by (rewrite length_app; simpl; lia).
    rewrite <- app_assoc. reflexivity.
Qed.

(** An initialized calculator smooths both averages and reports the RSI of
    the new averages. *)
Lemma rsi_update_running (n : nat) (g l pp : Q) (seeds : list Q) (p : Q) :
  let change := p - pp in
  let gain := if Qltb 0 change then change else 0 in
  let loss := if Qltb change 0 then - change else 0 in
  RSI.update (running n g l pp seeds) p
  = (running n (wilder_smooth n g gain) (wilder_smooth n l loss) p seeds,
     Some (wilder_rsi (wilder_smooth n g gain) (wilder_smooth n l loss))).
Proof.
  cbv zeta. unfold RSI.update, running.
  cbn [RSI.initialized negb RSI.previous_price RSI.previous_avg_gain
       RSI.previous_avg_loss RSI.length RSI.alpha RSI.initial_prices].
  fold (wilder_smooth n g (if Qltb 0 (p - pp) then p - pp else 0)).
  fold (wilder_smooth n l (if Qltb (p - pp) 0 then - (p - pp) else 0)).
  unfold wilder_rsi.
  destruct (Qeq_bool (wilder_smooth n l _) 0); [reflexivity|].
  destruct (Qeq_bool (wilder_smooth n g _) 0); reflexivity.
Qed.

Lemma inject_nat_nonzero (n : nat) :
  (0 < n)%nat -> ~ inject_Z (Z.of_nat n) == 0.
Proof.
  intros Hn E. change 0 with (inject_Z 0) in E.
  rewrite inject_Z_injective in E. lia.
Qed.

(** Wilder smoothing blends the new term in at weight [1 / n]. *)
Lemma wilder_smooth_weight (n : nat) (avg x : Q) : (0 < n)%nat ->
  wilder_smooth n avg x
  == (1 - 1 / inject_Z (Z.of_nat n)) * avg + (1 / inject_Z (Z.of_nat n)) * x.
Proof.
  intros Hn. unfold wilder_smooth. field. apply inject_nat_nonzero, Hn.
Qed.

(** C7. A fresh RSI calculator of length [n] returns nothing for its first
    [n] prices; the price that makes [n + 1] seeds initializes the average
    gain and the average loss with the simple means of the [n] gains and
    losses of the seeds and returns their RSI; every later price smooths
    both averages at weight [1 / n] and returns the RSI of the new
    averages; and that RSI is 100 on a zero average loss, else 0 on a zero
    average gain, else [100 - 100 / (1 + avg_gain / avg_loss)]. *)
Theorem rsi_seeds_then_wilder_smoothing (n : nat) :
  (0 < n)%nat ->
  (forall seeds, (length seeds <= n)%nat ->
     snd (rsi_feed (RSI.init n) seeds)
     = repeat None (length seeds))
  /\ (forall seeds, length seeds = S n ->
        let avg_gain :=
          Qsum (map gain_of (diff seeds)) / inject_Z (Z.of_nat n) in
        let avg_loss :=
          Qsum (map loss_of (diff seeds)) / inject_Z (Z.of_nat n) in
        rsi_feed (RSI.init n) seeds
        = (running n avg_gain avg_loss (last seeds 0) seeds,
           repeat None n ++ [Some (wilder_rsi avg_gain avg_loss)]))
  /\ (forall avg_gain avg_loss previous seeds price,
        let change := price - previous in
        let gain := if Qltb 0 change then change else 0 in
        let loss := if Qltb change 0 then - change else 0 in
        let avg_gain' := wilder_smooth n avg_gain gain in
        let avg_loss' := wilder_smooth n avg_loss loss in
        RSI.update (running n avg_gain avg_loss previous seeds) price
        = (running n avg_gain' avg_loss' price seeds,
           Some (wilder_rsi avg_gain' avg_loss'))
        /\ avg_gain' == (1 - 1 / inject_Z (Z.of_nat n)) * avg_gain
                        + (1 / inject_Z (Z.of_nat n)) * gain
        /\ avg_loss' == (1 - 1 / inject_Z (Z.of_nat n)) * avg_loss
                        + (1 / inject_Z (Z.of_nat n)) * loss)
  /\ (forall avg_gain avg_loss,
        (avg_loss == 0 -> wilder_rsi avg_gain avg_loss = 100)
        /\ (~ avg_loss == 0 -> avg_gain == 0 ->
            wilder_rsi avg_gain avg_loss = 0)
        /\ (~ avg_loss == 0 -> ~ avg_gain == 0 ->
            wilder_rsi avg_gain avg_loss
            = 100 - 100 / (1 + avg_gain / avg_loss))).
Proof.
  intros Hn. split; [|split; [|split]].
  - intros seeds Hlen.
    change (RSI.init n) with (seeding n []).
    rewrite rsi_feed_seeding by (simpl; lia). reflexivity.
  - intros seeds Hlen. cbv zeta.
    destruct (exists_last (l := seeds)) as (seen & p & ->);
      [intros ->; discriminate|].
    rewrite length_app in Hlen. simpl in Hlen.
    assert (Hseen : length seen = n) by lia.
    change (RSI.init n) with (seeding n []).
    rewrite rsi_feed_app.
    rewrite rsi_feed_seeding by (simpl; lia).
    cbn [fst snd app]. simpl rsi_feed.
    rewrite (rsi_update_last_seed n seen p Hseen). cbv zeta.
    unfold mean. rewrite !length_map, diff_length, length_app. simpl length.
    replace (length seen + 1 - 1)%nat with n by lia.
    rewrite Hseen. reflexivity.
  - intros g l pp seeds p. cbv zeta.
    split; [apply rsi_update_running|].
    split; apply wilder_smooth_weight; exact Hn.
  - intros g l. unfold wilder_rsi. split; [|split].
    + intros H. apply Qeq_bool_iff in H. rewrite H. reflexivity.
    + intros Hl Hg. apply Qeq_bool_iff in Hg. rewrite Hg.
      destruct (Qeq_bool l 0) eqn:E; [|reflexivity].
      apply Qeq_bool_iff in E. contradiction.
    + intros Hl Hg.
      destruct (Qeq_bool l 0) eqn:E;
        [apply Qeq_bool_iff in E; contradiction|].
      destruct (Qeq_bool g 0) eqn:E';
        [apply Qeq_bool_iff in E'; contradiction|].
      reflexivity.
Qed.

(** RSI(14), the engine's, on fourteen rising prices and then a fall. *)
Lemma rsi_seeds_then_wilder_smoothing_witness :
  snd (rsi_feed (RSI.init 14) rising_prices) = repeat None 14
  /\ snd (rsi_feed (RSI.init 14) (rising_prices ++ [62]))
     = repeat None 14 ++ [Some (wilder_rsi (13 / 14) (1 / 14))]
  /\ wilder_rsi (13 / 14) (1 / 14) = 100 - 100 / (1 + (13 / 14) / (1 / 14)).
Proof.
  pose proof (rsi_seeds_then_wilder_smoothing 14 ltac:(lia))
    as (Hnone & Hseed & _ & Hvalue).
  split; [|split].
  - exact (Hnone rising_prices ltac:(simpl; lia)).
  - specialize (Hseed (rising_prices ++ [62]) eq_refl).
    cbv zeta in Hseed. rewrite Hseed. reflexivity.
  - apply (Hvalue (13 / 14) (1 / 14)); intro H; discriminate H.
Defined.

(** A sum of zeros is zero. *)
Lemma Qsum_zeros (l : list Q) :
  Forall (fun x => x == 0) l -> Qsum l == 0.
Proof.
  unfold Qsum. generalize 0 at 2 3 as acc.
  induction l as [|x rest IH]; intros acc H; simpl; [reflexivity|].
  inversion H as [|? ? Hx Hrest]; subst.
  rewrite IH by exact Hrest. rewrite Hx. ring.
Qed.

Lemma mean_zeros (l : list Q) : Forall (fun x => x == 0) l -> mean l == 0.
Proof.
  intros H. unfold mean. rewrite (Qsum_zeros l H). unfold Qdiv. ring.
Qed.

Lemma diff_repeat (p : Q) (k : nat) :
  diff (repeat p (S k)) = repeat (p - p) k.
Proof.
  induction k as [|k IH]; [reflexivity|].
  simpl repeat in *.
  change (diff (p :: p :: repeat p k))
    with ((p - p) :: diff (p :: repeat p k)).
  rewrite IH. reflexivity.
Qed.

(** With both averages at zero and the price unchanged, the calculator
    returns 100 and both averages stay at zero. *)
Lemma rsi_feed_flat (n : nat) (p : Q) (seeds : list Q) (k : nat) :
  (0 < n)%nat ->
  forall g l pp, g == 0 -> l == 0 -> pp == p ->
    snd (rsi_feed (running n g l pp seeds) (repeat p k))
    = repeat (Some 100) k
    /\ exists g' l' pp',
         fst (rsi_feed (running n g l pp seeds) (repeat p k))
         = running n g' l' pp' seeds
         /\ g' == 0 /\ l' == 0.
Proof.
  intros Hn. induction k as [|k IH]; intros g l pp Hg Hl Hpp.
  - simpl. split; [reflexivity|]. exists g, l, pp. auto.
  - simpl repeat. simpl rsi_feed. rewrite rsi_update_running. cbv zeta.
    assert (Hch : p - pp == 0) by (rewrite Hpp; ring).
    assert (Hup : Qltb 0 (p - pp) = false) by (apply Qltb_ge; lra).
    assert (Hdown : Qltb (p - pp) 0 = false) by (apply Qltb_ge; lra).
    rewrite Hup, Hdown.
    assert (Hz : forall a, a == 0 -> wilder_smooth n a 0 == 0).
    { intros a Ha. unfold wilder_smooth. rewrite Ha. unfold Qdiv. ring. }
    destruct (IH (wilder_smooth n g 0) (wilder_smooth n l 0) p
                (Hz g Hg) (Hz l Hl) (Qeq_refl p)) as [Hout Hst].
    destruct (rsi_feed _ (repeat p k)) as [c2 vs]. cbn [fst snd] in *.
    split; [|exact Hst].
    rewrite Hout. f_equal. f_equal. unfold wilder_rsi.
    rewrite (proj2 (Qeq_bool_iff _ _) (Hz l Hl)). reflexivity.
Qed.

(** C10. When the average gain and the average loss are both zero the RSI
    is 100, not 0; and a calculator fed one and the same price throughout
    has both averages at zero and returns exactly 100 from its first value
    on. *)
Theorem flat_prices_give_rsi_100 (n : nat) (p : Q) (m : nat) :
  (0 < n)%nat ->
  (forall avg_gain avg_loss, avg_gain == 0 -> avg_loss == 0 ->
     wilder_rsi avg_gain avg_loss = 100 /\ ~ wilder_rsi avg_gain avg_loss == 0)
  /\ snd (rsi_feed (RSI.init n) (repeat p m))
     = repeat None (Nat.min m n) ++ repeat (Some 100) (m - n)
  /\ ((n < m)%nat ->
      exists avg_gain avg_loss previous,
        fst (rsi_feed (RSI.init n) (repeat p m))
        = running n avg_gain avg_loss previous (repeat p (S n))
        /\ avg_gain == 0 /\ avg_loss == 0).
Proof.
  intros Hn. split; [|].
  { intros g l _ Hl. unfold wilder_rsi.
    rewrite (proj2 (Qeq_bool_iff _ _) Hl). split; [reflexivity|].
    intros H. discriminate H. }
  change (RSI.init n) with (seeding n []).
  destruct (le_lt_dec m n) as [Hle|Hlt].
  - rewrite rsi_feed_seeding by (rewrite repeat_length; simpl; lia).
    rewrite repeat_length. cbn [snd].
    replace (Nat.min m n) with m by lia.
    replace (m - n)%nat with 0%nat by lia.
    simpl repeat. rewrite app_nil_r. split; [reflexivity | lia].
  - assert (Hm : repeat p m = repeat p n ++ repeat p 1 ++ repeat p (m - S n)).
    { rewrite <- !repeat_app. f_equal. lia. }
    rewrite Hm. rewrite !rsi_feed_app.
    rewrite rsi_feed_seeding by (rewrite repeat_length; simpl; lia).
    rewrite repeat_length. cbn [fst snd app]. simpl (repeat p 1).
    simpl (rsi_feed _ [p]).
    rewrite (rsi_update_last_seed n (repeat p n) p (repeat_length p n)).
    cbv zeta. cbn [fst snd].
    change (repeat p n ++ [p]) with (repeat p n ++ repeat p 1).
    rewrite <- repeat_app.
    replace (n + 1)%nat with (S n) by lia.
    rewrite diff_repeat, !map_repeat.
    assert (Hg : mean (repeat (gain_of (p - p)) n) == 0).
    { apply mean_zeros, Forall_forall. intros x Hx.
      apply repeat_spec in Hx. subst x. unfold gain_of.
      destruct (Qle_bool 0 (p - p)); [ring | reflexivity]. }
    assert (Hl : mean (repeat (loss_of (p - p)) n) == 0).
    { apply mean_zeros, Forall_forall. intros x Hx.
      apply repeat_spec in Hx. subst x. unfold loss_of.
      destruct (Qltb (p - p) 0); [ring | reflexivity]. }
    assert (Hlast : last (repeat p (S n)) 0 == p).
    { clear. induction n as [|k IH]; [reflexivity|].
      change (repeat p (S (S k))) with (p :: repeat p (S k)).
      change (repeat p (S k)) with (p :: repeat p k) at 1.
      cbn [last]. exact IH. }
    destruct (rsi_feed_flat n p (repeat p (S n)) (m - S n) Hn _ _ _ Hg Hl Hlast)
      as [Hout Hst].
    rewrite Hout. split.
    + replace (Nat.min m n) with n by lia.
      f_equal. unfold wilder_rsi.
      rewrite (proj2 (Qeq_bool_iff _ _) Hl).
      replace (m - n)%nat with (S (m - S n)) by lia.
      reflexivity.
    + intros _. exact Hst.
Qed.

(** RSI(14), the engine's, on seventeen equal prices. *)
Lemma flat_prices_give_rsi_100_witness :
  snd (rsi_feed (RSI.init 14) (repeat 5 17))
  = repeat None 14 ++ [Some 100; Some 100; Some 100].
Proof.
  exact (proj1 (proj2 (flat_prices_give_rsi_100 14 5 17 ltac:(lia)))).
Defined.

End IndicatorSpec.

(** ** The engine: one replay against the incremental path *)

Module EngineSpec.

Import Indicators.
Import StatefulIndicatorEngine.

Lemma engine_with_calculators_of (e : StatefulIndicatorEngine.t) :
  engine_with (initialized e) (last_processed_time e) (current_df e)
    (calculators_of e) = e.
Proof. destruct e; reflexivity. Qed.

Lemma calculators_of_engine_with (i : bool) (t : option Z)
    (df : list IndicatorRow) (c : Calculators) :
  calculators_of (engine_with i t df c) = c.
Proof. destruct c; reflexivity. Qed.

Lemma replay_app (a b : list BarRow) : forall c,
  replay c (a ++ b)
  = (fst (replay (fst (replay c a)) b),
     snd (replay c a) ++ snd (replay (fst (replay c a)) b)).
Proof.
  induction a as [|row rest IH]; intros c; simpl.
  - destruct (replay c b); reflexivity.
  - destruct (indicator_step c row) as [c1 r]. rewrite IH.
    destruct (replay c1 rest) as [c2 rs]. reflexivity.
Qed.

Lemma replay_bars (rows : list BarRow) : forall c,
  map bar (snd (replay c rows)) = rows.
Proof.
  induction rows as [|row rest IH]; intros c; simpl; [reflexivity|].
  destruct (indicator_step c row) as [c1 r] eqn:Hstep.
  specialize (IH c1). destruct (replay c1 rest) as [c2 rs]. simpl in *.
  rewrite IH. f_equal.
  unfold indicator_step in Hstep.
  destruct (StatefulRSICalculator.update _ _) as [? rsi_val].
  destruct (match rsi_val with Some _ => _ | None => _ end).
  destruct (update_mas _ _). destruct (StatefulFibonacci.update _ _).
  injection Hstep as _ <-. reflexivity.
Qed.

(** The row loop of [initialize_from_history] is a replay whose rows are
    kept column by column. *)
Lemma history_loop_replay (rows : list BarRow) : forall e cols,
  history_loop e rows cols
  = (engine_with (initialized e) (last_processed_time e) (current_df e)
       (fst (replay (calculators_of e) rows)),
     {| rsi_list :=
          rsi_list cols ++ map rsi_col (snd (replay (calculators_of e) rows));
        rsi_ma50_list :=
          rsi_ma50_list cols
          ++ map rsi_ma50_col (snd (replay (calculators_of e) rows));
        ma_rows :=
          ma_rows cols ++ map ma_cols (snd (replay (calculators_of e) rows));
        fib_rows :=
          fib_rows cols
          ++ map fib_cols (snd (replay (calculators_of e) rows)) |}).
Proof.
  induction rows as [|row rest IH]; intros e cols.
  - simpl. rewrite !app_nil_r, engine_with_calculators_of.
    destruct cols; reflexivity.
  - cbn [history_loop replay]. unfold indicator_step.
    cbn [calculators_of c_rsi c_rsi_ma50 c_mas c_fib].
    destruct (StatefulRSICalculator.update (rsi e) (Close row))
      as [rsi' rsi_val].
    destruct (match rsi_val with
              | Some _ => StatefulSMA.update (rsi_ma50 e) rsi_val
              | None => (rsi_ma50 e, None)
              end) as [sma' sma_val].
    destruct (update_mas (ma_calculators e) (Close row)) as [mas' ma_vals].
    destruct (StatefulFibonacci.update (fibonacci e) (Close row))
      as [fib' fib_levels].
    rewrite IH. cbn [rsi_list rsi_ma50_list ma_rows fib_rows].
    unfold with_calculators, calculators_of.
    cbn [initialized last_processed_time current_df rsi rsi_ma50
         ma_calculators fibonacci].
    destruct (replay _ rest) as [c2 rs]. cbn [fst snd map].
    rewrite <- !app_assoc. reflexivity.
Qed.

Lemma assign_columns_rows (rows : list BarRow) (rs : list IndicatorRow) :
  map bar rs = rows ->
  assign_columns rows (map rsi_col rs) (map rsi_ma50_col rs)
    (map ma_cols rs) (map fib_cols rs) = rs.
Proof.
  intros <-. induction rs as [|r rest IH]; simpl; [reflexivity|].
  rewrite IH. destruct r; reflexivity.
Qed.

Lemma last_open_time_app (a b : list BarRow) :
  last_open_time (a ++ b)
  = match last_open_time b with
    | Some t => Some t
    | None => last_open_time a
    end.
Proof.
  unfold last_open_time. rewrite rev_app_distr.
  destruct (rev b); simpl; reflexivity.
Qed.

(** [initialize_from_history] on a table that is not empty. *)
Lemma initialize_from_history_replay (e : StatefulIndicatorEngine.t)
    (rows : list BarRow) :
  rows <> [] ->
  initialize_from_history e rows
  = (engine_with true (last_open_time rows)
       (snd (replay (calculators_of e) rows))
       (fst (replay (calculators_of e) rows)), true).
Proof.
  intros Hne. unfold initialize_from_history.
  destruct rows as [|row rest] eqn:Hrows; [congruence|]. rewrite <- Hrows.
  rewrite history_loop_replay.
  cbn [rsi_list rsi_ma50_list ma_rows fib_rows app].
  rewrite (assign_columns_rows rows _ (replay_bars rows (calculators_of e))).
  unfold last_open_time.
  destruct (rev rows) eqn:Hrev.
  - apply (f_equal (@rev _)) in Hrev. rewrite rev_involutive in Hrev.
    simpl in Hrev. congruence.
  - destruct (fst (replay (calculators_of e) rows)); reflexivity.
Qed.

(** The row loop of [process_new_data] on bars that are each strictly
    newer than the one before. *)
Lemma new_data_loop_replay (rows : list BarRow) : forall e t new_data,
  last_processed_time e = Some t -> strictly_newer t rows ->
  new_data_loop e rows new_data
  = (engine_with (initialized e)
       (match last_open_time rows with Some t' => Some t' | None => Some t end)
       (current_df e) (fst (replay (calculators_of e) rows)),
     new_data ++ snd (replay (calculators_of e) rows)).
Proof.
  induction rows as [|row rest IH]; intros e t new_data Ht Hnew.
  - simpl. rewrite app_nil_r, <- Ht, engine_with_calculators_of. reflexivity.
  - destruct Hnew as [Hlt Hrest].
    cbn [new_data_loop replay]. rewrite Ht.
    replace (Open_Time row <=? t)%Z with false
      by (symmetry; apply Z.leb_gt; exact Hlt).
    unfold indicator_step.
    cbn [calculators_of c_rsi c_rsi_ma50 c_mas c_fib].
    destruct (StatefulRSICalculator.update (rsi e) (Close row))
      as [rsi' rsi_val].
    destruct (match rsi_val with
              | Some _ => StatefulSMA.update (rsi_ma50 e) rsi_val
              | None => (rsi_ma50 e, None)
              end) as [sma' sma_val].
    destruct (update_mas (ma_calculators e) (Close row)) as [mas' ma_vals].
    destruct (StatefulFibonacci.update (fibonacci e) (Close row))
      as [fib' fib_levels].
    rewrite (IH _ (Open_Time row)) by (auto; reflexivity).
    unfold calculators_of.
    cbn [initialized last_processed_time current_df rsi rsi_ma50
         ma_calculators fibonacci].
    destruct (replay _ rest) as [c2 rs]. cbn [fst snd].
    rewrite <- app_assoc.
    change (row :: rest) with ([row] ++ rest).
    rewrite last_open_time_app.
    destruct (last_open_time rest); reflexivity.
Qed.

(** [process_new_data] on an initialized engine and strictly newer bars:
    the rows of a replay are appended to the table. *)
Lemma process_new_data_replay (e : StatefulIndicatorEngine.t)
    (rows : list BarRow) (t : Z) :
  initialized e = true -> last_processed_time e = Some t ->
  strictly_newer t rows ->
  fst (process_new_data e rows)
  = engine_with true
      (match last_open_time rows with Some t' => Some t' | None => Some t end)
      (current_df e ++ snd (replay (calculators_of e) rows))
      (fst (replay (calculators_of e) rows)).
Proof.
  intros Hinit Ht Hnew. unfold process_new_data. rewrite Hinit.
  destruct rows as [|row rest] eqn:Hrows.
  - simpl. rewrite app_nil_r, <- Hinit, <- Ht.
    symmetry. apply engine_with_calculators_of.
  - rewrite <- Hrows in *. replace (length rows =? 0)%nat with false
      by (rewrite Hrows; reflexivity).
    cbn [negb orb].
    rewrite (new_data_loop_replay rows e t [] Ht Hnew). cbn [app].
    destruct (snd (replay (calculators_of e) rows)) as [|r rs] eqn:Hrs.
    + pose proof (replay_bars rows (calculators_of e)) as Hb.
      rewrite Hrs, Hrows in Hb. discriminate Hb.
    + rewrite Hinit. unfold engine_with.
      cbn [initialized last_processed_time current_df rsi rsi_ma50
           ma_calculators fibonacci fst].
      reflexivity.
Qed.

(** Bars fed one call at a time add up to one replay. *)
Lemma feed_one_at_a_time_replay (rows : list BarRow) : forall e t,
  initialized e = true -> last_processed_time e = Some t ->
  strictly_newer t rows ->
  feed_one_at_a_time e rows
  = engine_with true
      (match last_open_time rows with Some t' => Some t' | None => Some t end)
      (current_df e ++ snd (replay (calculators_of e) rows))
      (fst (replay (calculators_of e) rows)).
Proof.
  unfold feed_one_at_a_time.
  induction rows as [|row rest IH]; intros e t Hinit Ht Hnew.
  - simpl. rewrite app_nil_r, <- Hinit, <- Ht.
    symmetry. apply engine_with_calculators_of.
  - destruct Hnew as [Hlt Hrest]. cbn [fold_left].
    rewrite (process_new_data_replay e [row] t Hinit Ht (conj Hlt I)).
    rewrite (IH _ (Open_Time row)); [|reflexivity|reflexivity|exact Hrest].
    rewrite calculators_of_engine_with.
    cbn [replay]. destruct (indicator_step (calculators_of e) row) as [c1 r].
    cbn [fst snd]. unfold engine_with at 2. cbn [current_df].
    destruct (replay c1 rest) as [c2 rs]. cbn [fst snd].
    rewrite <- app_assoc.
    change (row :: rest) with ([row] ++ rest).
    rewrite last_open_time_app.
    destruct (last_open_time rest); reflexivity.
Qed.

(** C2, as the code has it.  For a bar table whose first part is not empty
    and whose remaining bars each open strictly after the bar before, a
    fresh engine initialized by one replay of the whole table ends with the
    same indicator rows, bar for bar, and the same calculators and
    bookkeeping as a fresh engine initialized from the first part and then
    given the remaining bars through the incremental path, one at a time or
    in one call. *)
Theorem replay_equals_incremental (history rest : list BarRow) (t : Z) :
  last_open_time history = Some t ->
  strictly_newer t rest ->
  let replayed :=
    fst (initialize_from_history StatefulIndicatorEngine.init
           (history ++ rest)) in
  let started :=
    fst (initialize_from_history StatefulIndicatorEngine.init history) in
  feed_one_at_a_time started rest = replayed
  /\ fst (process_new_data started rest) = replayed
  /\ map bar (current_df replayed) = history ++ rest
  /\ current_df replayed
     = snd (replay (calculators_of StatefulIndicatorEngine.init)
              (history ++ rest)).
Proof.
  intros Hlast Hnew. cbv zeta.
  assert (Hne : history <> []) by (intros ->; discriminate Hlast).
  assert (Hne' : history ++ rest <> [])
    by (intros H; apply app_eq_nil in H; tauto).
  rewrite !initialize_from_history_replay by assumption. cbn [fst].
  set (c0 := calculators_of StatefulIndicatorEngine.init).
  assert (Hgoal :
    engine_with true
      (match last_open_time rest with Some t' => Some t' | None => Some t end)
      (snd (replay c0 history) ++ snd (replay (fst (replay c0 history)) rest))
      (fst (replay (fst (replay c0 history)) rest))
    = engine_with true (last_open_time (history ++ rest))
        (snd (replay c0 (history ++ rest)))
        (fst (replay c0 (history ++ rest)))).
  { rewrite replay_app, last_open_time_app, Hlast. cbn [fst snd].
    destruct (last_open_time rest); reflexivity. }
  set (started := engine_with true (last_open_time history)
                    (snd (replay c0 history)) (fst (replay c0 history))).
  assert (Hinit : initialized started = true) by reflexivity.
  assert (Htime : last_processed_time started = Some t) by exact Hlast.
  assert (Hcalc : calculators_of started = fst (replay c0 history))
    by apply calculators_of_engine_with.
  split; [|split; [|split]].
  - rewrite (feed_one_at_a_time_replay rest started t Hinit Htime Hnew).
    rewrite Hcalc. exact Hgoal.
  - rewrite (process_new_data_replay started rest t Hinit Htime Hnew).
    rewrite Hcalc. exact Hgoal.
  - apply replay_bars.
  - reflexivity.
Qed.

(** Two bars replayed, against one replayed and one fed. *)
Lemma replay_equals_incremental_witness :
  feed_one_at_a_time
    (fst (initialize_from_history StatefulIndicatorEngine.init
            [sample_bar 1000 100]))
    [sample_bar 2000 101]
  = fst (initialize_from_history StatefulIndicatorEngine.init
           [sample_bar 1000 100; sample_bar 2000 101]).
Proof.
  exact (proj1 (replay_equals_incremental [sample_bar 1000 100]
                  [sample_bar 2000 101] 1000 eq_refl
                  (conj eq_refl I))).
Defined.

(** C2 as stated fails twice over.  A fresh engine ignores the incremental
    path until it has been initialized from history: fed a bar, it stays as
    it was, with no row, where a replay of that bar gives one row.  And an
    initialized engine skips a bar that does not open strictly after the
    last one processed, where a replay takes every bar. *)
Lemma fresh_engine_ignores_incremental_bars :
  feed_one_at_a_time StatefulIndicatorEngine.init [sample_bar 1000 100]
  <> fst (initialize_from_history StatefulIndicatorEngine.init
            [sample_bar 1000 100])
  /\ feed_one_at_a_time StatefulIndicatorEngine.init [sample_bar 1000 100]
     = StatefulIndicatorEngine.init
  /\ length (current_df
               (feed_one_at_a_time StatefulIndicatorEngine.init
                  [sample_bar 1000 100])) = 0%nat
  /\ length (current_df
               (fst (initialize_from_history StatefulIndicatorEngine.init
                       [sample_bar 1000 100]))) = 1%nat
  /\ length (current_df
               (feed_one_at_a_time
                  (fst (initialize_from_history StatefulIndicatorEngine.init
                          [sample_bar 1000 100]))
                  [sample_bar 1000 101])) = 1%nat
  /\ length (current_df
               (fst (initialize_from_history StatefulIndicatorEngine.init
                       [sample_bar 1000 100; sample_bar 1000 101]))) = 2%nat.
Proof.
  split; [intros H; discriminate H|]. repeat split; reflexivity.
Qed.

End EngineSpec.

(** ** The bars of a run *)

Module PipelineSpec.

Import Aggregator Pipeline.

(** *** Sums *)

Lemma Qsum_from (l : list Q) : forall a, fold_left Qplus l a == a + Qsum l.
Proof.
  unfold Qsum. induction l as [|x rest IH]; intros a; simpl; [ring|].
  rewrite (IH (a + x)), (IH (0 + x)). ring.
Qed.

Lemma Qsum_app (a b : list Q) : Qsum (a ++ b) == Qsum a + Qsum b.
Proof.
  unfold Qsum at 1. rewrite fold_left_app. apply Qsum_from.
Qed.



(** *** The event loop composes *)

Lemma process_all_app (rs : Q) (a b : list Kline) : forall st,
  process_all rs st (a ++ b)
  = (fst (process_all rs (fst (process_all rs st a)) b),
     snd (process_all rs st a)
     ++ snd (process_all rs (fst (process_all rs st a)) b)).
Proof.
  induction a as [|k rest IH]; intros st; simpl.
  - destruct (process_all rs st b); reflexivity.
  - destruct (process_one rs st k) as [st1 bars1]. rewrite IH.
    destruct (process_all rs st1 rest) as [st2 bars2]. cbn [fst snd].
    rewrite app_assoc. reflexivity.
Qed.

Lemma process_new_data_drains (rs : Q) (st : AggState) (buffer : list Kline)
    (df : list CompletedBar) :
  process_new_data rs st buffer df
  = (fst (process_all rs st buffer), [],
     df ++ snd (process_all rs st buffer),
     match snd (process_all rs st buffer) with [] => false | _ => true end).
Proof.
  unfold process_new_data, create_range_bar_from_klines.
  destruct buffer as [|k rest]; [simpl; rewrite app_nil_r; reflexivity|].
  destruct (process_all rs st (k :: rest)) as [st' bars]. cbn [fst snd].
  destruct bars; simpl; [rewrite app_nil_r|]; reflexivity.
Qed.

(** X1. However the events are split over the drain cycles of the main
    loop, the table ends up with the bars the aggregator makes of all the
    events in one pass, appended to what it held, and the aggregator ends
    in the same state. *)
Theorem drain_cycles_one_pass (rs : Q) (cycles : list (list Kline)) :
  forall (st : AggState) (df : list CompletedBar),
    drain_cycles rs st df cycles
    = (fst (process_all rs st (concat cycles)),
       df ++ snd (process_all rs st (concat cycles))).
Proof.
  induction cycles as [|buffer rest IH]; intros st df; simpl.
  - rewrite app_nil_r. reflexivity.
  - rewrite process_new_data_drains, IH, process_all_app. cbn [fst snd].
    rewrite app_assoc. reflexivity.
Qed.

(** *** One event *)

Ltac step_cases Hcb :=
  unfold process_one, handle_large_price_jump, process_kline_into_bar,
    check_range_completion;
  rewrite ?Hcb; cbv zeta;
  repeat match goal with
         | |- context [if ?c then _ else _] => destruct c eqn:?
         end.

(** Each bar an event emits opens where the one before it closed, in price
    and in time, and the bar left in progress opens where the last one
    closed. *)
Lemma process_one_chain (rs : Q) (st : AggState) (cb : CurrentBar)
    (k : Kline) :
  current_bar st = Some cb ->
  chain_from (open_price cb) (bar_open_time cb) (snd (process_one rs st k))
  /\ exists cb',
       current_bar (fst (process_one rs st k)) = Some cb'
       /\ (open_price cb', bar_open_time cb')
          = chain_end (open_price cb) (bar_open_time cb)
              (snd (process_one rs st k)).
Proof.
  intros Hcb. step_cases Hcb; simpl; rewrite ?Hcb; simpl;
    repeat split; eauto.
Qed.





(** *** Nothing is lost, nothing counted twice *)

Lemma Qsum_cons (x : Q) (l : list Q) : Qsum (x :: l) == x + Qsum l.
Proof.
  change (x :: l) with ([x] ++ l). rewrite Qsum_app.
  unfold Qsum; simpl. ring.
Qed.




(** *** Candles *)

Ltac tests :=
  repeat match goal with
         | H : Qltb _ _ = true |- _ => apply Qltb_lt in H
         | H : Qltb _ _ = false |- _ => apply Qltb_ge in H
         | H : Qle_bool _ _ = true |- _ => apply Qle_bool_iff in H
         | H : Qle_bool ?a ?b = false |- _ =>
           assert (b < a)
             by (apply Qnot_le_lt; intros Hle; apply Qle_bool_iff in Hle;
                 congruence);
           clear H
         end.

Ltac minmax :=
  repeat match goal with
         | |- context [Qmax ?a ?b] =>
           let m := fresh "m" in
           pose proof (Q.le_max_l a b); pose proof (Q.le_max_r a b);
           set (m := Qmax a b) in *; clearbody m
         | |- context [Qmin ?a ?b] =>
           let m := fresh "m" in
           pose proof (Q.le_min_l a b); pose proof (Q.le_min_r a b);
           set (m := Qmin a b) in *; clearbody m
         end.

Lemma process_one_candles (rs : Q) (st : AggState) (k : Kline) :
  0 < rs -> kline_wf k -> holds_brackets st ->
  Forall candle (snd (process_one rs st k))
  /\ holds_brackets (fst (process_one rs st k)).
Proof.
  unfold holds_brackets, kline_wf. intros Hrs [Hlo Hhi] Hinv.
  destruct (current_bar st) as [cb|] eqn:Hcb;
    [destruct Hinv as (H1 & H2 & H3 & H4)|];
    step_cases Hcb; rewrite ?Hcb; tests;
    cbn [fst snd current_bar];
    (split; [repeat constructor | unfold brackets]);
    unfold candle, brackets; simpl; minmax; try lra; auto.
Qed.

(** X4. With a positive range and klines that close between their low and
    their high, every bar emitted is a candle: its open and its close lie
    between its low and its high (so does the bar in progress). *)
Theorem emitted_bars_are_candles (rs : Q) (klines : list Kline) :
  0 < rs -> Forall kline_wf klines ->
  forall st : AggState,
    holds_brackets st ->
    Forall candle (snd (process_all rs st klines))
    /\ holds_brackets (fst (process_all rs st klines)).
Proof.
  intros Hrs Hwf. induction Hwf as [|k rest Hk Hrest IH]; intros st Hinv.
  - simpl. split; [constructor | exact Hinv].
  - simpl. destruct (process_one_candles rs st k Hrs Hk Hinv) as [Hb1 Hi1].
    destruct (process_one rs st k) as [st1 bars1]. cbn [fst snd] in *.
    destruct (IH st1 Hi1) as [Hb2 Hi2].
    destruct (process_all rs st1 rest) as [st2 bars2]. cbn [fst snd] in *.
    split; [apply Forall_app; split; assumption | exact Hi2].
Qed.

(** A flat bar, then a rise within the range, a completion and a jump. *)
Lemma emitted_bars_are_candles_witness :
  Forall candle
    (snd (process_all 1 sample_state
            [tick 1000 (1005 # 10); tick 2000 101; tick 3000 104])).
Proof.
  apply (emitted_bars_are_candles 1
           [tick 1000 (1005 # 10); tick 2000 101; tick 3000 104]).
  - reflexivity.
  - repeat constructor; discriminate.
  - repeat split; discriminate.
Defined.

(** *** Time *)

Lemma timeline_app (a b : list CompletedBar) : forall p t,
  timeline t (a ++ b)
  <-> timeline t a /\ timeline (snd (chain_end p t a)) b.
Proof.
  induction a as [|x rest IH]; intros p t; simpl; [tauto|].
  rewrite (IH (Close x)). tauto.
Qed.

Lemma process_one_timeline (rs : Q) (st : AggState) (cb : CurrentBar)
    (k : Kline) :
  current_bar st = Some cb ->
  (bar_open_time cb <= bar_close_time cb)%Z ->
  (bar_close_time cb <= close_time k)%Z ->
  timeline (bar_open_time cb) (snd (process_one rs st k))
  /\ exists cb',
       current_bar (fst (process_one rs st k)) = Some cb'
       /\ (bar_open_time cb' <= bar_close_time cb')%Z
       /\ bar_close_time cb' = close_time k.
Proof.
  intros Hcb H1 H2. step_cases Hcb; rewrite ?Hcb;
    cbn [fst snd current_bar];
    (split; [simpl; try lia | eexists; split; [reflexivity | simpl; lia]]).
Qed.

Lemma process_all_timeline (rs : Q) (klines : list Kline) :
  forall (st : AggState) (cb : CurrentBar),
    current_bar st = Some cb ->
    (bar_open_time cb <= bar_close_time cb)%Z ->
    closes_from (bar_close_time cb) klines ->
    timeline (bar_open_time cb) (snd (process_all rs st klines)).
Proof.
  induction klines as [|k rest IH]; intros st cb Hcb Hoc Hcl; simpl;
    [exact I|].
  destruct Hcl as [Hk Hrest].
  destruct (process_one_timeline rs st cb k Hcb Hoc Hk)
    as (Ht1 & cb1 & Hcb1 & Hoc1 & Hc1).
  destruct (process_one_chain rs st cb k Hcb) as (_ & cb1' & Hcb1' & He).
  destruct (process_one rs st k) as [st1 bars1]. cbn [fst snd] in *.
  assert (cb1' = cb1) by congruence. subst cb1'.
  rewrite <- Hc1 in Hrest.
  specialize (IH st1 cb1 Hcb1 Hoc1 Hrest).
  destruct (process_all rs st1 rest) as [st2 bars2]. cbn [fst snd] in *.
  apply (timeline_app bars1 bars2 (open_price cb)). split; [exact Ht1|].
  rewrite <- He. exact IH.
Qed.

(** X5. When the close times of the events never go back (and the first
    kline does not close before it opens), the bars are laid out in time
    order: no bar ends before it begins, and each begins no earlier than
    the one before it ended. *)
Theorem bars_in_time_order (rs : Q) (st : AggState) (klines : list Kline) :
  timed st klines ->
  match opening st klines with
  | Some (_, t) => timeline t (snd (process_all rs st klines))
  | None => snd (process_all rs st klines) = []
  end.
Proof.
  unfold timed, opening. destruct (current_bar st) as [cb|] eqn:Hcb.
  - intros [Hoc Hcl]. apply process_all_timeline; assumption.
  - destruct klines as [|k rest]; [reflexivity|]. intros [Hoc Hcl].
    simpl. unfold process_one at 1. rewrite Hcb.
    unfold process_kline_into_bar. rewrite Hcb. cbv zeta.
    set (st1 := {| current_bar := _; bar_klines := _ |}).
    pose proof (process_all_timeline rs rest st1 _ eq_refl) as H.
    cbn [bar_open_time bar_close_time] in H. specialize (H Hoc Hcl).
    destruct (process_all rs st1 rest) as [st2 bars2]. exact H.
Qed.

Lemma bars_in_time_order_witness :
  timeline 0
    (snd (process_all 1 sample_state
            [tick 1000 (1005 # 10); tick 2000 101; tick 3000 104])).
Proof.
  apply (bars_in_time_order 1 sample_state
           [tick 1000 (1005 # 10); tick 2000 101; tick 3000 104]).
  vm_compute. repeat split; discriminate.
Defined.

(** *** Large jumps *)




(** X7. Once a bar is in progress, no event leaves it at or over the
    range: after every event the bar in progress spans less than the range
    (a bar that reached it has been emitted); and no event emits more than
    two bars. *)
Theorem completion_is_prompt (rs : Q) (st : AggState) (cb : CurrentBar)
    (k : Kline) :
  0 < rs -> current_bar st = Some cb ->
  (length (snd (process_one rs st k)) <= 2)%nat
  /\ exists cb',
       current_bar (fst (process_one rs st k)) = Some cb'
       /\ bar_high cb' - bar_low cb' < rs.
Proof.
  intros Hrs Hcb.
  destruct (Z.leb_spec 2 (possible_bars_of rs (close k) (open_price cb)))
    as [Hjump|Hno].
  - destruct (AggregatorSpec.large_jump_emits_two rs Hrs st cb (close k)
                (close_time k) k Hcb Hjump) as (b1 & b2 & E).
    unfold process_one. rewrite Hcb, (proj2 (Z.leb_le _ _) Hjump), E.
    cbn [fst snd length]. split; [lia|].
    eexists. split; [reflexivity|]. simpl. lra.
  - unfold process_one. rewrite Hcb, (proj2 (Z.leb_gt _ _) Hno).
    unfold process_kline_into_bar, check_range_completion. rewrite Hcb.
    cbv zeta. cbn [bar_high bar_low].
    destruct (Qle_bool rs _) eqn:Hdone; cbn [fst snd length].
    + split; [lia|]. eexists. split; [reflexivity|]. simpl. lra.
    + split; [lia|]. eexists. split; [reflexivity|]. simpl.
      apply Qnot_le_lt. intros Hle. apply Qle_bool_iff in Hle. congruence.
Qed.

Lemma completion_is_prompt_witness :
  (length (snd (process_one 1 sample_state (tick 1000 104))) <= 2)%nat.
Proof.
  exact (proj1 (completion_is_prompt 1 sample_state (flat_bar 100 0)
                  (tick 1000 104) eq_refl eq_refl)).
Defined.




End PipelineSpec.

(** ** The live feed *)

Module LiveFeedSpec.

Import Aggregator GapRecovery LiveFeed.

(** *** The range size at start-up *)

(** X9. With a price filter of positive tick size and a [RANGE_SIZE] that
    is not negative, start-up goes through and the range size it sets is
    positive: the tick size itself when [RANGE_SIZE] is zero, else the
    least multiple of the tick size that is not below [RANGE_SIZE]. *)
Theorem range_size_is_a_multiple_of_the_tick (filters : list Filter)
    (f : Filter) (RANGE_SIZE : Q) :
  find (fun f => String.eqb (filterType f) "PRICE_FILTER") filters = Some f ->
  0 < tickSize f -> 0 <= RANGE_SIZE ->
  exists range_size,
    get_symbol_ticksize (Some filters) RANGE_SIZE
    = Some (tickSize f, range_size)
    /\ 0 < range_size
    /\ (exists n : Z, range_size == inject_Z n * tickSize f)
    /\ (RANGE_SIZE == 0 -> range_size = tickSize f)
    /\ (~ RANGE_SIZE == 0 ->
        RANGE_SIZE <= range_size /\ range_size < RANGE_SIZE + tickSize f).
Proof.
  intros Hfind Ht HR. unfold get_symbol_ticksize. rewrite Hfind. cbv zeta.
  destruct (Qeq_bool RANGE_SIZE 0) eqn:Hzero.
  { apply Qeq_bool_iff in Hzero. eexists. split; [reflexivity|].
    split; [exact Ht|]. split; [exists 1%Z; ring|].
    split; [reflexivity | intros H; contradiction]. }
  assert (Hnz : ~ RANGE_SIZE == 0).
  { intros H. apply Qeq_bool_iff in H. congruence. }
  destruct (Qeq_bool (tickSize f) 0) eqn:Htz;
    [apply Qeq_bool_iff in Htz; lra|].
  set (t := tickSize f) in *.
  set (x := RANGE_SIZE / t).
  assert (Hx : RANGE_SIZE == x * t) by (unfold x; field; lra).
  pose proof (Qfloor_le x) as Hlo.
  pose proof (Qlt_floor x) as Hhi. rewrite inject_Z_plus in Hhi.
  change (inject_Z 1) with 1 in Hhi.
  assert (Hlo' : inject_Z (Qfloor x) * t <= x * t)
    by (apply Qmult_le_compat_r; lra).
  assert (Hhi' : x * t < (inject_Z (Qfloor x) + 1) * t)
    by (apply Qmult_lt_compat_r; lra).
  unfold pymod, floordiv. fold x.
  destruct (Qeq_bool (RANGE_SIZE - t * inject_Z (Qfloor x)) 0) eqn:Hmod;
    cbn [negb].
  - apply Qeq_bool_iff in Hmod. eexists. split; [reflexivity|].
    split; [lra|]. split; [exists (Qfloor x); lra|].
    split; [intros H; contradiction | intros _; lra].
  - assert (Hmod' : ~ RANGE_SIZE - t * inject_Z (Qfloor x) == 0).
    { intros H. apply Qeq_bool_iff in H. congruence. }
    eexists. split; [reflexivity|].
    split; [lra|].
    split; [exists (Qfloor x + 1)%Z; rewrite inject_Z_plus; reflexivity|].
    split; [intros H; contradiction | intros _].
    split; [lra|].
    assert (inject_Z (Qfloor x) * t < RANGE_SIZE); [|lra].
    apply Qle_lteq in Hlo'. destruct Hlo' as [Hlt|Heq]; [lra|].
    exfalso. apply Hmod'. lra.
Qed.

(** A range of a quarter of a cent on a tick of one cent: one cent. *)
Lemma range_size_is_a_multiple_of_the_tick_witness :
  exists range_size,
    get_symbol_ticksize (Some sample_filters) (25 # 10000)
    = Some (1 # 100, range_size)
    /\ 0 < range_size.
Proof.
  destruct (range_size_is_a_multiple_of_the_tick sample_filters
              {| filterType := "PRICE_FILTER"; tickSize := 1 # 100 |}
              (25 # 10000) eq_refl eq_refl ltac:(intro H; discriminate H))
    as (rs & E & Hpos & _).
  exists rs. split; assumption.
Defined.

(** *** The prefetch *)

Local Open Scope Z_scope.

(** The loop gathers the answers to the requests of the chunk loop. *)
Lemma prefetch_loop_requests (fetch : Z -> Z -> list Kline) (rounds : nat)
    (ge cs : Z) :
  forall s acc issued,
    prefetch_loop fetch rounds ge cs s acc issued
    = ((acc ++ concat (map (fun r => fetch (fst r) (snd r))
                         (chunk_requests rounds ge cs s)))%list,
       (issued ++ chunk_requests rounds ge cs s)%list).
Proof.
  induction rounds as [|n IH]; intros s acc issued; simpl.
  - rewrite !app_nil_r. reflexivity.
  - destruct (s <? ge); [|rewrite !app_nil_r; reflexivity].
    rewrite IH. simpl. rewrite <- !app_assoc. reflexivity.
Qed.

Lemma chunk_requests_full (ge cs s : Z) :
  0 <= cs -> s + cs < ge ->
  chunk_requests (Z.to_nat (ge - s)) ge cs s
  = (s, s + cs)
      :: chunk_requests (Z.to_nat (ge - (s + cs + 1))) ge cs (s + cs + 1).
Proof.
  intros Hcs H. rewrite GapRecoverySpec.chunk_requests_unfold by exact Hcs.
  rewrite (proj2 (Z.ltb_lt _ _)) by lia.
  rewrite Z.min_l by lia. reflexivity.
Qed.

Lemma chunk_requests_last (ge cs s : Z) :
  0 <= cs -> s < ge -> ge <= s + cs ->
  chunk_requests (Z.to_nat (ge - s)) ge cs s = [(s, ge)].
Proof.
  intros Hcs H1 H2. rewrite GapRecoverySpec.chunk_requests_unfold by exact Hcs.
  rewrite (proj2 (Z.ltb_lt _ _)) by lia.
  rewrite Z.min_r by lia.
  rewrite GapRecoverySpec.chunk_requests_unfold by exact Hcs.
  rewrite (proj2 (Z.ltb_ge _ _)) by lia. reflexivity.
Qed.

(** The requests of a prefetch that ends at the millisecond [e]. *)
Lemma prefetch_requests (e : Z) :
  chunk_requests (Z.to_nat (e - (e - PREFETCH_HOURS * 3600 * 1000))) e
    (MAX_KLINES_PER_REQUEST * KLINE_INTERVAL_SECONDS * 1000)
    (e - PREFETCH_HOURS * 3600 * 1000)
  = [ (e - 7200000, e - 6200000); (e - 6199999, e - 5199999);
      (e - 5199998, e - 4199998); (e - 4199997, e - 3199997);
      (e - 3199996, e - 2199996); (e - 2199995, e - 1199995);
      (e - 1199994, e - 199994); (e - 199993, e) ].
Proof.
  change (PREFETCH_HOURS * 3600 * 1000) with 7200000.
  change (MAX_KLINES_PER_REQUEST * KLINE_INTERVAL_SECONDS * 1000) with 1000000.
  do 7 (rewrite chunk_requests_full by lia).
  rewrite chunk_requests_last by lia.
  repeat (f_equal; try lia).
Qed.

(** X10. Whatever the clock and the exchange, the prefetch issues eight
    requests that tile the two hours before the current millisecond
    without a hole or an overlap, the last ending exactly there; it appends
    every kline they bring to the buffer in the order of the requests,
    sets the last-successful-update watermark to the current time, and
    marks the prefetch completed with no gap filling under way. *)
Theorem prefetch_covers_two_hours (fetch : Z -> Z -> list Kline)
    (now_end now_ws : Z) (g : FeedState) :
  let e := timestamp_ms now_end in
  let reqs :=
    [ (e - 7200000, e - 6200000); (e - 6199999, e - 5199999);
      (e - 5199998, e - 4199998); (e - 4199997, e - 3199997);
      (e - 3199996, e - 2199996); (e - 2199995, e - 1199995);
      (e - 1199994, e - 199994); (e - 199993, e) ] in
  let g' := fst (prefetch_historical_data fetch now_end now_ws g) in
  snd (prefetch_historical_data fetch now_end now_ws g) = reqs
  /\ contiguous_from (e - 2 * 3600 * 1000) reqs
  /\ klines_data (gap_state g')
     = deque_extend KLINES_DATA_MAXLEN (klines_data (gap_state g))
         (concat (map (fun r => fetch (fst r) (snd r)) reqs))
  /\ last_successful_ws_update (gap_state g') = Some now_ws
  /\ prefetch_completed (gap_state g') = true
  /\ data_gap_filling (gap_state g') = false.
Proof.
  cbv zeta. unfold prefetch_historical_data.
  rewrite prefetch_loop_requests, prefetch_requests. cbn [app fst snd].
  split; [reflexivity|]. split; [simpl; lia|].
  cbn [gap_state klines_data last_successful_ws_update prefetch_completed
       data_gap_filling].
  repeat split; reflexivity.
Qed.

(** *** The live buffer *)

Lemma deque_extend_extend {A : Type} (n : nat) (d a b : list A) :
  deque_extend n (deque_extend n d a) b = deque_extend n d (a ++ b).
Proof.
  unfold deque_extend. rewrite IndicatorSpec.lastn_app_lastn.
  rewrite app_assoc. reflexivity.
Qed.

Lemma deque_extend_nil {A : Type} (n : nat) (d : list A) :
  (length d <= n)%nat -> deque_extend n d [] = d.
Proof.
  intros H. unfold deque_extend. rewrite app_nil_r.
  replace (length d - n)%nat with 0%nat by lia. reflexivity.
Qed.

Lemma deque_extend_length {A : Type} (n : nat) (d a : list A) :
  (length (deque_extend n d a) <= n)%nat.
Proof.
  unfold deque_extend. rewrite length_skipn. lia.
Qed.

(** X11. The live buffer holds the newest klines in the order of arrival:
    after any messages it is the buffer before them with the klines of the
    kline messages appended, cut at the front to its last 10000 entries;
    messages that are not kline events leave no trace, and the
    last-successful-update watermark is the time of the last kline
    message. *)
Theorem live_buffer_keeps_the_newest (msgs : list (Z * Message)) :
  forall g : FeedState,
    (length (klines_data (gap_state g)) <= KLINES_DATA_MAXLEN)%nat ->
    klines_data (gap_state (handle_all msgs g))
    = deque_extend KLINES_DATA_MAXLEN (klines_data (gap_state g))
        (klines_of msgs)
    /\ (length (klines_data (gap_state (handle_all msgs g)))
        <= KLINES_DATA_MAXLEN)%nat
    /\ last_successful_ws_update (gap_state (handle_all msgs g))
       = last_kline_at (last_successful_ws_update (gap_state g)) msgs
    /\ (klines_of msgs = [] -> handle_all msgs g = g).
Proof.
  unfold handle_all, klines_of, last_kline_at.
  induction msgs as [|m rest IH]; intros g Hlen.
  - simpl. rewrite deque_extend_nil by exact Hlen. auto.
  - cbn [fold_left filter].
    remember (kline_handler (fst m) (fst m) (fst m) (snd m) g) as g1 eqn:Hg1.
    unfold kline_handler in Hg1.
    destruct (is_kline_event (snd m)) eqn:Hev; [|subst g1; apply IH, Hlen].
    assert (Hlen1 : (length (klines_data (gap_state g1))
                     <= KLINES_DATA_MAXLEN)%nat)
      by (subst g1; apply deque_extend_length).
    destruct (IH g1 Hlen1) as (Hbuf & Hle & Hmark & _).
    split; [|split; [exact Hle | split; [|discriminate]]].
    + rewrite Hbuf. subst g1. cbn [gap_state klines_data map].
      apply (deque_extend_extend KLINES_DATA_MAXLEN _
               [kline_entry (msg_k (snd m))]).
    + rewrite Hmark. subst g1. reflexivity.
Qed.

(** Two kline events with another message between them. *)
Lemma live_buffer_keeps_the_newest_witness :
  klines_data
    (gap_state
       (handle_all
          [ (1700000001200000, kline_message 1700000000000 100);
            (1700000001700000, other_message);
            (1700000002200000, kline_message 1700000001000 101) ]
          (sample_feed 1700000000000000)))
  = [tick 1700000000000 100; tick 1700000001000 101].
Proof.
  destruct (live_buffer_keeps_the_newest
              [ (1700000001200000, kline_message 1700000000000 100);
                (1700000001700000, other_message);
                (1700000002200000, kline_message 1700000001000 101) ]
              (sample_feed 1700000000000000) (Nat.le_0_l _)) as (E & _).
  rewrite E. reflexivity.
Defined.

(** *** The health check *)

(** X12. After a health check [ws_connected] is the value the check
    returned, and that is whether a kline has been received and the
    [seconds] of the time since it are at most 30.  The check never clears
    the reconnection flag; it raises it exactly when it finds a feed that
    was connected stale.  It touches nothing else: not the buffer, not the
    watermark, not the reconnect delay. *)
Theorem health_check_outcome (now : Z) (g : FeedState) :
  let g' := fst (check_websocket_health now g) in
  let ok := snd (check_websocket_health now g) in
  let fresh :=
    match last_kline_time g with
    | Some t => timedelta_seconds (now - t) <=? 30
    | None => false
    end in
  let stale :=
    match last_kline_time g with
    | Some t => 30 <? timedelta_seconds (now - t)
    | None => false
    end in
  ok = fresh
  /\ ws_connected g' = ok
  /\ ws_reconnection_detected (gap_state g')
     = ws_reconnection_detected (gap_state g) || (ws_connected g && stale)
  /\ g' = with_connection g (ws_connected g')
            (ws_reconnection_detected (gap_state g')) (ws_reconnect_delay g).
Proof.
  cbv zeta. unfold check_websocket_health.
  destruct g as [[buf pc gf dg ws lg flag rc] lk ld conn delay].
  cbn [last_kline_time ws_connected gap_state ws_reconnection_detected
       ws_reconnect_delay].
  destruct lk as [t|].
  - rewrite (Z.leb_antisym 30 (timedelta_seconds (now - t))).
    destruct (30 <? timedelta_seconds (now - t)); destruct conn; destruct flag;
      cbn; repeat split; reflexivity.
  - destruct conn; destruct flag; cbn; repeat split; reflexivity.
Qed.

(** X13. The staleness test reads the [seconds] attribute of the time
    since the last kline, which leaves whole days out: a feed whose last
    kline is [d] days and at most 30 seconds old passes the health check,
    whatever [d], and is marked connected. *)
Theorem health_check_forgets_whole_days (t d r : Z) (g : FeedState) :
  last_kline_time g = Some t ->
  0 <= r < 31000000 ->
  check_websocket_health (t + d * 86400000000 + r) g
  = (with_connection g true (ws_reconnection_detected (gap_state g))
       (ws_reconnect_delay g), true).
Proof.
  intros Hlast Hr. unfold check_websocket_health. rewrite Hlast.
  assert (Hs : timedelta_seconds (t + d * 86400000000 + r - t) = r / 1000000).
  { unfold timedelta_seconds.
    replace (t + d * 86400000000 + r - t)
      with (r + (d * 86400) * 1000000) by lia.
    rewrite Z.div_add by lia. rewrite Z_mod_plus_full.
    apply Z.mod_small.
    split; [apply Z.div_pos; lia | apply Z.div_lt_upper_bound; lia]. }
  rewrite Hs.
  assert (Hle : r / 1000000 <= 30).
  { assert (r / 1000000 < 31) by (apply Z.div_lt_upper_bound; lia). lia. }
  rewrite (proj2 (Z.ltb_ge _ _) Hle).
  destruct g as [[buf pc gf dg ws lg flag rc] lk ld conn delay].
  destruct conn; reflexivity.
Qed.

(** A feed silent for three days and seven seconds passes. *)
Lemma health_check_forgets_whole_days_witness :
  snd (check_websocket_health
         (1700000000000000 + 3 * 86400000000 + 7000000)
         (sample_feed 1700000000000000))
  = true.
Proof.
  rewrite (health_check_forgets_whole_days 1700000000000000 3 7000000
             (sample_feed 1700000000000000) eq_refl ltac:(lia)).
  reflexivity.
Defined.

(** *** Reconnecting *)

Lemma backoff_doubles (d : Z) (i : nat) :
  Z.min (Z.min (d * 2) 60 * 2 ^ (Z.of_nat i + 1)) 60
  = Z.min (d * 2 ^ (Z.of_nat (S i) + 1)) 60.
Proof.
  replace (Z.of_nat (S i) + 1) with (Z.succ (Z.of_nat i + 1)) by lia.
  rewrite Z.pow_succ_r by lia.
  assert (Hp : 0 < 2 ^ (Z.of_nat i + 1)) by (apply Z.pow_pos_nonneg; lia).
  set (p := 2 ^ (Z.of_nat i + 1)) in *.
  destruct (Z.min_spec (d * 2) 60) as [[H ->]|[H ->]].
  - f_equal. lia.
  - rewrite !Z.min_r; nia.
Qed.

(** X14. [start_websocket] retries until an attempt succeeds, sleeping
    before the retry that follows the [i]-th failure the reconnect delay
    doubled [i] times, capped at 60 seconds.  On success the delay is back
    at 5 seconds, [ws_connected] is off until a kline arrives, and the
    reconnection flag is up if it was up, if the feed was connected at the
    call, or if an attempt failed; nothing else is touched. *)
Theorem reconnect_backs_off (fails rest : list Attempt) :
  Forall failed fails ->
  forall g : FeedState,
    start_websocket (fails ++ Started :: rest) g
    = Some
        (with_connection g false
           (ws_reconnection_detected (gap_state g) || ws_connected g
            || (0 <? length fails)%nat) 5,
         map (fun i => Z.min (ws_reconnect_delay g * 2 ^ (Z.of_nat i + 1)) 60)
           (seq 0 (length fails))).
Proof.
  intros Hf. induction Hf as [|a fails' Ha Hrest IH]; intros g.
  - cbn [app start_websocket length seq map Nat.ltb Nat.leb].
    destruct (ws_connected g), (ws_reconnection_detected (gap_state g));
      reflexivity.
  - cbn [app start_websocket].
    assert (Hstep :
      match start_websocket (fails' ++ Started :: rest)
              (with_connection g false true
                 (Z.min (ws_reconnect_delay g * 2) ws_max_reconnect_delay))
      with
      | Some (g', slept) =>
        Some (g', Z.min (ws_reconnect_delay g * 2) ws_max_reconnect_delay
                    :: slept)
      | None => None
      end
      = Some
          (with_connection g false
             (ws_reconnection_detected (gap_state g) || ws_connected g
              || (0 <? length (a :: fails'))%nat) 5,
           map (fun i =>
                  Z.min (ws_reconnect_delay g * 2 ^ (Z.of_nat i + 1)) 60)
             (seq 0 (length (a :: fails'))))).
    { rewrite IH. cbn [length seq map]. f_equal. f_equal.
      - unfold with_connection. cbn.
        rewrite orb_true_r. reflexivity.
      - f_equal. rewrite <- seq_shift, map_map.
        apply map_ext. intros i. cbn [with_connection ws_reconnect_delay].
        apply backoff_doubles. }
    destruct a; [exfalso; apply Ha; reflexivity | exact Hstep | exact Hstep].
Qed.

(** Three failures from a delay of 5 seconds: 10, 20 and 40 seconds. *)
Lemma reconnect_backs_off_witness :
  option_map snd
    (start_websocket [ApiError; OtherError; ApiError; Started]
       (sample_feed 1700000000000000))
  = Some [10; 20; 40].
Proof.
  exact (f_equal (option_map snd)
           (reconnect_backs_off [ApiError; OtherError; ApiError] []
              ltac:(repeat constructor; discriminate)
              (sample_feed 1700000000000000))).
Defined.

(** *** When gap recovery backfills *)

(** X15. Gap recovery issues historical requests exactly when the
    prefetch is completed, no gap filling is under way, the ten-second
    debounce has passed, a watermark is set, a trigger is up (the
    reconnection flag, more than 300 seconds since the watermark, or a
    retry pending) and the window from the watermark plus a second to the
    current time less two seconds is not empty. *)
Theorem backfills_exactly_when (fetch : Z -> Z -> list Kline)
    (now_debounce current_time now_finally : Z) (st : GapState) :
  requests (check_for_data_gaps fetch now_debounce current_time now_finally st)
  <> []
  <-> prefetch_completed st = true
      /\ gap_filling_in_progress st = false
      /\ data_gap_filling st = false
      /\ debounce_passed now_debounce st
      /\ exists last_update,
           last_successful_ws_update st = Some last_update
           /\ (ws_reconnection_detected st = true
               \/ 300 * 1000000 < current_time - last_update
               \/ 0 < gap_fill_retry_count st)
           /\ timestamp_ms last_update + 1000
              < timestamp_ms current_time - 2000.
Proof.
  split.
  - unfold check_for_data_gaps.
    destruct (prefetch_completed st); [|simpl; congruence].
    destruct (gap_filling_in_progress st); [simpl; congruence|].
    destruct (data_gap_filling st); [simpl; congruence|].
    cbn [negb orb].
    destruct (match last_gap_fill_time st with
              | Some t => timedelta_seconds (now_debounce - t) <? 10
              | None => false
              end) eqn:Hdeb; [simpl; congruence|].
    assert (Hpass : debounce_passed now_debounce st).
    { unfold debounce_passed.
      destruct (last_gap_fill_time st);
        [apply Z.ltb_ge; exact Hdeb | exact I]. }
    destruct (last_successful_ws_update st) as [last|]; [|simpl; congruence].
    assert (Hopen :
      forall out_small out_fill : GapOutcome,
        requests out_small = [] ->
        requests
          (if timestamp_ms current_time - 2000 <=? timestamp_ms last + 1000
           then out_small else out_fill) <> [] ->
        timestamp_ms last + 1000 < timestamp_ms current_time - 2000).
    { intros o1 o2 Ho1. destruct (_ <=? _) eqn:Hwin; [congruence|].
      intros _. apply Z.leb_gt in Hwin. exact Hwin. }
    unfold total_seconds_gt, GAP_DETECTION_THRESHOLD.
    destruct (ws_reconnection_detected st) eqn:Hflag;
      [|destruct (300 * 1000000 <? current_time - last) eqn:Hstale;
        [|destruct (0 <? gap_fill_retry_count st) eqn:Hretry;
          [|simpl; congruence]]];
      cbn [negb]; intros Hreq;
      apply Hopen in Hreq; try reflexivity;
      repeat split; try assumption;
      exists last; repeat split; try assumption;
      [ left; reflexivity
      | right; left; apply Z.ltb_lt; exact Hstale
      | right; right; apply Z.ltb_lt; exact Hretry ].
  - intros (Hp & Hg & Hd & Hdeb & last & Hlast & Htrig & Hwin).
    exact (GapRecoverySpec.backfill_issues_requests fetch now_debounce
             current_time now_finally st last Hp Hg Hd Hdeb Hlast Htrig Hwin).
Qed.

(** *** From the outage to the backfill *)

(** [start_websocket] returns with the feed marked disconnected and the
    delay at 5 seconds; it touches the reconnection flag only to raise it. *)
Lemma start_websocket_returns (attempts : list Attempt) :
  forall (g g' : FeedState) (slept : list Z),
    start_websocket attempts g = Some (g', slept) ->
    exists reconnection,
      g' = with_connection g false reconnection 5
      /\ (ws_connected g = true
          \/ ws_reconnection_detected (gap_state g) = true ->
          reconnection = true).
Proof.
  induction attempts as [|a rest IH]; intros g g' slept H; [discriminate H|].
  cbn [start_websocket] in H.
  assert (Hretry :
    match start_websocket rest
            (with_connection g false true
               (Z.min (ws_reconnect_delay g * 2) ws_max_reconnect_delay))
    with
    | Some (g', slept) =>
      Some (g', Z.min (ws_reconnect_delay g * 2) ws_max_reconnect_delay
                  :: slept)
    | None => None
    end = Some (g', slept) ->
    exists reconnection,
      g' = with_connection g false reconnection 5
      /\ (ws_connected g = true
          \/ ws_reconnection_detected (gap_state g) = true ->
          reconnection = true)).
  { destruct (start_websocket rest _) as [[g1 s1]|] eqn:E; [|discriminate].
    intros [= <- _]. destruct (IH _ _ _ E) as (r & -> & Hr).
    exists true. split; [|reflexivity].
    rewrite (Hr (or_intror eq_refl)). reflexivity. }
  destruct a; [|exact (Hretry H) | exact (Hretry H)].
  injection H as <- _. eexists. split; [reflexivity|].
  intros [->| ->]; [reflexivity|].
  destruct (ws_connected g); reflexivity.
Qed.

(** X16. A connected feed that the health check finds stale is
    backfilled: the check returns [False] and raises the reconnection
    flag, the restart of the socket keeps it up, and the gap check that
    follows issues historical requests, however short the outage, as soon
    as its guards are passed and its window is not empty; and it takes the
    flag down again. *)
Theorem stale_feed_is_backfilled (fetch : Z -> Z -> list Kline)
    (now now_debounce current_time now_finally t last_update : Z)
    (attempts : list Attempt) (g g' : FeedState) (slept : list Z) :
  ws_connected g = true ->
  last_kline_time g = Some t ->
  30 < timedelta_seconds (now - t) ->
  start_websocket attempts (fst (check_websocket_health now g))
  = Some (g', slept) ->
  prefetch_completed (gap_state g) = true ->
  gap_filling_in_progress (gap_state g) = false ->
  data_gap_filling (gap_state g) = false ->
  debounce_passed now_debounce (gap_state g) ->
  last_successful_ws_update (gap_state g) = Some last_update ->
  timestamp_ms last_update + 1000 < timestamp_ms current_time - 2000 ->
  let out :=
    check_for_data_gaps fetch now_debounce current_time now_finally
      (gap_state g') in
  snd (check_websocket_health now g) = false
  /\ ws_reconnection_detected (gap_state g') = true
  /\ requests out <> []
  /\ ws_reconnection_detected (state_after out) = false.
Proof.
  intros Hconn Hlast Hstale Hstart Hp Hg Hd Hdeb Hmark Hwin. cbv zeta.
  unfold check_websocket_health in *. rewrite Hlast, Hconn in *.
  rewrite (proj2 (Z.ltb_lt _ _) Hstale) in *. cbn [fst snd] in *.
  destruct (start_websocket_returns _ _ _ _ Hstart) as (r & -> & Hr).
  rewrite (Hr (or_intror eq_refl)).
  split; [reflexivity|]. split; [reflexivity|].
  assert (Hreq :
    requests
      (check_for_data_gaps fetch now_debounce current_time now_finally
         (gap_state
            (with_connection
               (with_connection g false true (ws_reconnect_delay g))
               false true 5))) <> []).
  { apply (GapRecoverySpec.backfill_issues_requests fetch now_debounce
             current_time now_finally _ last_update); try assumption.
    left. reflexivity. }
  split; [exact Hreq|].
  revert Hreq. unfold check_for_data_gaps.
  cbn [gap_state with_connection prefetch_completed gap_filling_in_progress
       data_gap_filling last_gap_fill_time last_successful_ws_update
       ws_reconnection_detected].
  rewrite Hp, Hg, Hd, Hmark. cbn [negb orb].
  destruct (match last_gap_fill_time (gap_state g) with
            | Some t0 => timedelta_seconds (now_debounce - t0) <? 10
            | None => false
            end); [intros H; exfalso; apply H; reflexivity|].
  cbn [negb].
  destruct (_ <=? _); [intros H; exfalso; apply H; reflexivity|].
  destruct (fetch_loop _ _ _ _ _ _ _) as [data issued].
  destruct data; [destruct (MAX_GAP_FILL_RETRIES <=? _)|]; reflexivity.
Qed.

(** The last kline forty seconds old at the health check, the gap check
    five seconds later. *)
Lemma stale_feed_is_backfilled_witness :
  requests
    (check_for_data_gaps no_data 1700000045000000 1700000045000000
       1700000045300000
       (gap_state
          (with_connection (sample_feed 1700000000000000) false true 5)))
  <> [].
Proof.
  exact (proj1 (proj2 (proj2
    (stale_feed_is_backfilled no_data 1700000040000000 1700000045000000
       1700000045000000 1700000045300000 1700000000000000 1700000000000000
       [Started] (sample_feed 1700000000000000)
       (with_connection (sample_feed 1700000000000000) false true 5) []
       eq_refl eq_refl ltac:(vm_compute; reflexivity) eq_refl eq_refl eq_refl
       eq_refl ltac:(vm_compute; discriminate) eq_refl
       ltac:(vm_compute; reflexivity))))).
Defined.

Lemma handle_all_watermark (msgs : list (Z * Message)) :
  forall g : FeedState,
    last_successful_ws_update (gap_state (handle_all msgs g))
    = last_kline_at (last_successful_ws_update (gap_state g)) msgs.
Proof.
  unfold handle_all, last_kline_at.
  induction msgs as [|m rest IH]; intros g; [reflexivity|].
  cbn [fold_left]. rewrite IH. unfold kline_handler.
  destruct (is_kline_event (snd m)); reflexivity.
Qed.

Lemma contiguous_from_starts (reqs : list (Z * Z)) : forall s,
  contiguous_from s reqs -> Forall (fun r => s <= fst r) reqs.
Proof.
  induction reqs as [|[a b] rest IH]; intros s H; [constructor|].
  destruct H as (-> & Hab & Hrest).
  constructor; [simpl; lia|].
  eapply Forall_impl; [|apply (IH (b + 1) Hrest)].
  intros r Hr. simpl in *. lia.
Qed.

(** X17. Gap recovery never asks for anything older than the last live
    kline: the live handler moves the watermark to the arrival of every
    kline message, so every request of the next gap check starts at least
    a second after the last one arrived, and a gap check less than three
    seconds after it requests nothing.  An outage that is over when the
    gap check comes is not backfilled. *)
Theorem no_backfill_before_the_last_live_kline
    (fetch : Z -> Z -> list Kline)
    (now_debounce current_time now_finally t : Z)
    (msgs : list (Z * Message)) (g : FeedState) :
  last_kline_at (last_successful_ws_update (gap_state g)) msgs = Some t ->
  let out :=
    check_for_data_gaps fetch now_debounce current_time now_finally
      (gap_state (handle_all msgs g)) in
  Forall (fun r => timestamp_ms t + 1000 <= fst r) (requests out)
  /\ (timestamp_ms current_time <= timestamp_ms t + 3000 ->
      requests out = [] /\ returned out = false
      /\ klines_data (state_after out)
         = klines_data (gap_state (handle_all msgs g))).
Proof.
  intros Hlast. cbv zeta.
  pose proof (handle_all_watermark msgs g) as Hmark. rewrite Hlast in Hmark.
  set (st := gap_state (handle_all msgs g)) in *.
  assert (Hshape :
    requests
      (check_for_data_gaps fetch now_debounce current_time now_finally st)
    <> [] ->
    timestamp_ms t + 1000 < timestamp_ms current_time - 2000
    /\ Forall (fun r => timestamp_ms t + 1000 <= fst r)
         (requests
            (check_for_data_gaps fetch now_debounce current_time now_finally
               st))).
  { intros Hreq.
    destruct (GapRecoverySpec.backfill_shape fetch now_debounce current_time
                now_finally st t Hmark Hreq) as (Hwin & -> & _).
    split; [exact Hwin|].
    apply contiguous_from_starts.
    apply GapRecoverySpec.chunk_requests_window; lia. }
  split.
  - destruct (requests (check_for_data_gaps fetch now_debounce current_time
                          now_finally st)) eqn:E; [constructor|].
    apply Hshape. discriminate.
  - intros Hsoon.
    assert (Hnone :
      requests
        (check_for_data_gaps fetch now_debounce current_time now_finally st)
      = []).
    { destruct (requests _) eqn:E; [reflexivity|].
      destruct Hshape as [Hwin _]; [discriminate | lia]. }
    split; [exact Hnone|]. revert Hnone.
    unfold check_for_data_gaps. rewrite Hmark.
    destruct (negb (prefetch_completed st) || gap_filling_in_progress st
              || data_gap_filling st); [auto|].
    destruct (match last_gap_fill_time st with
              | Some t0 => timedelta_seconds (now_debounce - t0) <? 10
              | None => false
              end); [auto|].
    destruct (negb (if ws_reconnection_detected st then _ else _)); [auto|].
    rewrite (proj2 (Z.leb_le (timestamp_ms current_time - 2000)
                      (timestamp_ms t + 1000))) by lia.
    auto.
Qed.

(** A kline message at [T + 1.2 s] and a gap check at [T + 3 s], the
    reconnection flag up: nothing is requested. *)
Lemma no_backfill_before_the_last_live_kline_witness :
  requests
    (check_for_data_gaps no_data 1700000003000000 1700000003000000
       1700000003100000
       (gap_state
          (handle_all [(1700000001200000, kline_message 1700000000000 100)]
             (with_connection (sample_feed 1700000000000000) false true 5))))
  = [].
Proof.
  apply (proj2 (no_backfill_before_the_last_live_kline no_data
                  1700000003000000 1700000003000000 1700000003100000
                  1700000001200000
                  [(1700000001200000, kline_message 1700000000000 100)]
                  (with_connection (sample_feed 1700000000000000) false true
                     5) eq_refl)).
  vm_compute. discriminate.
Defined.

End LiveFeedSpec.

(** ** The calculators, further *)

Module CalculatorSpec.

Import Indicators Monitor.

Module RSI := StatefulRSICalculator.
Module SMA := StatefulSMA.
Module Fib := StatefulFibonacci.

(** *** The range of the RSI *)

Lemma Qsum_nonneg (l : list Q) : Forall (fun x => 0 <= x) l -> 0 <= Qsum l.
Proof.
  intros H. induction H as [|x rest Hx Hrest IH].
  - unfold Qsum; simpl. lra.
  - rewrite PipelineSpec.Qsum_cons. lra.
Qed.

Lemma mean_nonneg (l : list Q) : Forall (fun x => 0 <= x) l -> 0 <= mean l.
Proof.
  intros H. unfold mean, Qdiv. apply Qmult_le_0_compat.
  - apply Qsum_nonneg, H.
  - apply Qinv_le_0_compat. change 0 with (inject_Z 0).
    rewrite <- Zle_Qle. lia.
Qed.

Lemma gain_of_nonneg (ch : Q) : 0 <= gain_of ch.
Proof.
  unfold gain_of. destruct (Qle_bool 0 ch) eqn:E; [|lra].
  apply Qle_bool_iff in E. exact E.
Qed.

Lemma loss_of_nonneg (ch : Q) : 0 <= loss_of ch.
Proof.
  unfold loss_of. destruct (Qltb ch 0) eqn:E; [|lra].
  apply Qltb_lt in E. lra.
Qed.

Lemma inject_nat_pos (n : nat) : (0 < n)%nat -> 0 < inject_Z (Z.of_nat n).
Proof.
  intros H. change 0 with (inject_Z 0). rewrite <- Zlt_Qlt. lia.
Qed.

Lemma inject_nat_ge_1 (n : nat) : (0 < n)%nat -> 1 <= inject_Z (Z.of_nat n).
Proof.
  intros H. change 1 with (inject_Z 1). rewrite <- Zle_Qle. lia.
Qed.

Lemma wilder_smooth_nonneg (n : nat) (avg x : Q) :
  (0 < n)%nat -> 0 <= avg -> 0 <= x -> 0 <= wilder_smooth n avg x.
Proof.
  intros Hn Ha Hx. unfold wilder_smooth.
  pose proof (inject_nat_ge_1 n Hn) as H1.
  apply Qle_shift_div_l; [lra|].
  assert (0 <= avg * (inject_Z (Z.of_nat n) - 1))
    by (apply Qmult_le_0_compat; lra).
  lra.
Qed.

(** The RSI of averages that are not negative lies between 0 and 100. *)
Lemma wilder_rsi_range (g l : Q) :
  0 <= g -> 0 <= l -> 0 <= wilder_rsi g l /\ wilder_rsi g l <= 100.
Proof.
  intros Hg Hl. unfold wilder_rsi.
  destruct (Qeq_bool l 0) eqn:El; [lra|].
  destruct (Qeq_bool g 0) eqn:Eg; [lra|].
  assert (Hl' : 0 < l).
  { apply Qle_lteq in Hl. destruct Hl as [H|H]; [exact H|].
    symmetry in H. apply Qeq_bool_iff in H. congruence. }
  assert (Hg' : 0 < g).
  { apply Qle_lteq in Hg. destruct Hg as [H|H]; [exact H|].
    symmetry in H. apply Qeq_bool_iff in H. congruence. }
  assert (E : 100 - 100 / (1 + g / l) == 100 * g / (g + l))
    by (field; split; lra).
  rewrite E. split.
  - apply Qle_shift_div_l; lra.
  - apply Qle_shift_div_r; lra.
Qed.

(** A fresh calculator run over more than [n] prices: [n] undefined
    values, the RSI of the seed averages, then the run of the initialized
    calculator over the rest. *)
Lemma rsi_feed_split (n : nat) (seen : list Q) (p : Q) (rest : list Q) :
  length seen = n ->
  let seeds := seen ++ [p] in
  let avg_gain := mean (map gain_of (diff seeds)) in
  let avg_loss := mean (map loss_of (diff seeds)) in
  let c := running n avg_gain avg_loss (last seeds 0) seeds in
  rsi_feed (RSI.init n) (seen ++ p :: rest)
  = (fst (rsi_feed c rest),
     repeat None n ++ Some (wilder_rsi avg_gain avg_loss)
       :: snd (rsi_feed c rest)).
Proof.
  intros Hlen. cbv zeta.
  change (RSI.init n) with (seeding n []).
  rewrite IndicatorSpec.rsi_feed_app.
  rewrite IndicatorSpec.rsi_feed_seeding by (simpl; lia).
  cbn [fst snd app]. rewrite Hlen. cbn [rsi_feed].
  rewrite (IndicatorSpec.rsi_update_last_seed n seen p Hlen). cbv zeta.
  destruct (rsi_feed _ rest) as [c2 vs]. reflexivity.
Qed.

Lemma rsi_feed_running_range (n : nat) (prices : list Q) :
  (0 < n)%nat ->
  forall g l pp seeds, 0 <= g -> 0 <= l ->
    Forall (fun o => exists v, o = Some v /\ 0 <= v /\ v <= 100)
      (snd (rsi_feed (running n g l pp seeds) prices)).
Proof.
  intros Hn. induction prices as [|p rest IH]; intros g l pp seeds Hg Hl.
  - constructor.
  - cbn [rsi_feed]. rewrite IndicatorSpec.rsi_update_running. cbv zeta.
    set (gain := if Qltb 0 (p - pp) then p - pp else 0).
    set (loss := if Qltb (p - pp) 0 then - (p - pp) else 0).
    assert (Hgain : 0 <= gain).
    { unfold gain. destruct (Qltb 0 (p - pp)) eqn:E; [|lra].
      apply Qltb_lt in E. lra. }
    assert (Hloss : 0 <= loss).
    { unfold loss. destruct (Qltb (p - pp) 0) eqn:E; [|lra].
      apply Qltb_lt in E. lra. }
    pose proof (wilder_smooth_nonneg n g gain Hn Hg Hgain) as Hg'.
    pose proof (wilder_smooth_nonneg n l loss Hn Hl Hloss) as Hl'.
    specialize (IH _ _ p seeds Hg' Hl').
    destruct (rsi_feed _ rest) as [c2 vs]. cbn [snd] in *.
    constructor; [|exact IH].
    eexists. split; [reflexivity|]. apply wilder_rsi_range; assumption.
Qed.

Lemma rsi_feed_length (prices : list Q) : forall c,
  length (snd (rsi_feed c prices)) = length prices.
Proof.
  induction prices as [|q qs IH]; intros c; simpl; [reflexivity|].
  destruct (RSI.update c q) as [c1 v]. specialize (IH c1).
  destruct (rsi_feed c1 qs). simpl in *. congruence.
Qed.

(** A fresh calculator run over more than [n] prices, its averages not
    negative once it is initialized. *)
Lemma rsi_feed_long (n : nat) (prices : list Q) :
  (0 < n)%nat -> (n < length prices)%nat ->
  exists g l pp seeds rest,
    0 <= g /\ 0 <= l
    /\ length prices = (n + S (length rest))%nat
    /\ snd (rsi_feed (RSI.init n) prices)
       = repeat None n ++ Some (wilder_rsi g l)
           :: snd (rsi_feed (running n g l pp seeds) rest).
Proof.
  intros Hn Hlong.
  assert (Hp : prices = firstn n prices ++ skipn n prices)
    by (symmetry; apply firstn_skipn).
  assert (Hseen : length (firstn n prices) = n)
    by (rewrite length_firstn; lia).
  destruct (skipn n prices) as [|p rest] eqn:Hskip.
  { apply (f_equal (@length Q)) in Hskip. rewrite length_skipn in Hskip.
    simpl in Hskip. lia. }
  clear Hskip. revert Hp Hseen. generalize (firstn n prices) as seen.
  intros seen -> Hseen.
  exists (mean (map gain_of (diff (seen ++ [p])))),
         (mean (map loss_of (diff (seen ++ [p])))),
         (last (seen ++ [p]) 0), (seen ++ [p]), rest.
  split; [|split; [|split]].
  - apply mean_nonneg, Forall_forall. intros x Hx.
    apply in_map_iff in Hx. destruct Hx as (ch & <- & _).
    apply gain_of_nonneg.
  - apply mean_nonneg, Forall_forall. intros x Hx.
    apply in_map_iff in Hx. destruct Hx as (ch & <- & _).
    apply loss_of_nonneg.
  - rewrite length_app, Hseen. reflexivity.
  - rewrite (rsi_feed_split n seen p rest Hseen). reflexivity.
Qed.

(** X18. A fresh RSI calculator of length [n] returns not-a-number for
    each of its first [n] prices and a number for every price after them,
    and every number it returns lies between 0 and 100. *)
Theorem rsi_is_between_0_and_100 (n : nat) (prices : list Q) (i : nat) :
  (0 < n)%nat -> (i < length prices)%nat ->
  let out := nth i (snd (rsi_feed (RSI.init n) prices)) None in
  ((i < n)%nat -> out = None)
  /\ ((n <= i)%nat -> exists v, out = Some v /\ 0 <= v /\ v <= 100).
Proof.
  intros Hn Hi. cbv zeta.
  destruct (le_lt_dec (length prices) n) as [Hshort|Hlong].
  - change (RSI.init n) with (seeding n []).
    rewrite IndicatorSpec.rsi_feed_seeding by (simpl; lia). cbn [snd].
    split; [intros _; apply nth_repeat | lia].
  - destruct (rsi_feed_long n prices Hn Hlong)
      as (g & l & pp & seeds & rest & Hg & Hl & Hlen & ->).
    split; intros Hcmp.
    + rewrite app_nth1 by (rewrite repeat_length; exact Hcmp).
      apply nth_repeat.
    + rewrite app_nth2 by (rewrite repeat_length; exact Hcmp).
      rewrite repeat_length.
      pose proof (rsi_feed_running_range n rest Hn g l pp seeds Hg Hl)
        as Hrest.
      pose proof (rsi_feed_length rest (running n g l pp seeds)) as Hlen'.
      destruct (i - n)%nat as [|j] eqn:Hj; cbn [nth].
      * eexists. split; [reflexivity|]. apply wilder_rsi_range; assumption.
      * rewrite Forall_forall in Hrest. apply Hrest, nth_In. lia.
Qed.

(** RSI(14) on fourteen rising prices and a fall: the fifteenth value. *)
Lemma rsi_is_between_0_and_100_witness :
  exists v,
    nth 14 (snd (rsi_feed (RSI.init 14) (rising_prices ++ [62]))) None
    = Some v /\ 0 <= v /\ v <= 100.
Proof.
  exact (proj2 (rsi_is_between_0_and_100 14 (rising_prices ++ [62]) 14
                  ltac:(lia) ltac:(simpl; lia)) ltac:(lia)).
Defined.

(** *** Prices that go one way *)

Lemma last_cons_default (l : list Q) : forall x p,
  last (x :: l) p = last l x.
Proof.
  induction l as [|y ys IH]; intros x p; [reflexivity|].
  change (last (x :: y :: ys) p) with (last (y :: ys) p).
  rewrite (IH y p), (IH y x). reflexivity.
Qed.

Lemma rising_from_app (a b : list Q) : forall p,
  rising_from p (a ++ b)
  <-> rising_from p a /\ rising_from (last a p) b.
Proof.
  induction a as [|x rest IH]; intros p; [simpl; tauto|].
  change ((x :: rest) ++ b) with (x :: (rest ++ b)).
  cbn [rising_from]. rewrite IH.
  rewrite last_cons_default. tauto.
Qed.

Lemma falling_from_app (a b : list Q) : forall p,
  falling_from p (a ++ b)
  <-> falling_from p a /\ falling_from (last a p) b.
Proof.
  induction a as [|x rest IH]; intros p; [simpl; tauto|].
  change ((x :: rest) ++ b) with (x :: (rest ++ b)).
  cbn [falling_from]. rewrite IH.
  rewrite last_cons_default. tauto.
Qed.

Lemma diff_rising (rest : list Q) : forall p,
  rising_from p rest -> Forall (fun ch => 0 <= ch) (diff (p :: rest)).
Proof.
  induction rest as [|q qs IH]; intros p H; [constructor|].
  destruct H as [Hpq Hqs].
  change (diff (p :: q :: qs)) with ((q - p) :: diff (q :: qs)).
  constructor; [lra | apply IH, Hqs].
Qed.

Lemma diff_falling (rest : list Q) : forall p,
  falling_from p rest -> Forall (fun ch => ch < 0) (diff (p :: rest)).
Proof.
  induction rest as [|q qs IH]; intros p H; [constructor|].
  destruct H as [Hpq Hqs].
  change (diff (p :: q :: qs)) with ((q - p) :: diff (q :: qs)).
  constructor; [lra | apply IH, Hqs].
Qed.

Lemma Qsum_pos (x : Q) (l : list Q) :
  Forall (fun y => 0 < y) (x :: l) -> 0 < Qsum (x :: l).
Proof.
  intros H. inversion H as [|? ? Hx Hl]; subst.
  rewrite PipelineSpec.Qsum_cons.
  assert (0 <= Qsum l); [|lra].
  apply Qsum_nonneg. eapply Forall_impl; [|exact Hl].
  intros a Ha. apply Qlt_le_weak, Ha.
Qed.

(** An initialized calculator with no average loss, on prices that never
    fall, stays without loss and returns 100. *)
Lemma rsi_feed_rising (n : nat) (seeds rest : list Q) :
  (0 < n)%nat ->
  forall g l pp, l == 0 -> rising_from pp rest ->
    snd (rsi_feed (running n g l pp seeds) rest)
    = repeat (Some 100) (length rest).
Proof.
  intros Hn. induction rest as [|p ps IH]; intros g l pp Hl Hup;
    [reflexivity|].
  destruct Hup as [Hp Hps].
  cbn [rsi_feed]. rewrite IndicatorSpec.rsi_update_running. cbv zeta.
  rewrite (proj2 (Qltb_ge (p - pp) 0)) by lra.
  assert (Hl' : wilder_smooth n l 0 == 0).
  { unfold wilder_smooth. rewrite Hl. unfold Qdiv. ring. }
  specialize (IH (wilder_smooth n g (if Qltb 0 (p - pp) then p - pp else 0))
                _ p Hl' Hps).
  destruct (rsi_feed _ ps) as [c2 vs]. cbn [snd length repeat] in *.
  rewrite IH. f_equal. unfold wilder_rsi.
  rewrite (proj2 (Qeq_bool_iff _ _) Hl'). reflexivity.
Qed.

(** An initialized calculator with no average gain and some average loss,
    on prices that always fall, stays so and returns 0. *)
Lemma rsi_feed_falling (n : nat) (seeds rest : list Q) :
  (0 < n)%nat ->
  forall g l pp, g == 0 -> 0 < l -> falling_from pp rest ->
    snd (rsi_feed (running n g l pp seeds) rest)
    = repeat (Some 0) (length rest).
Proof.
  intros Hn. induction rest as [|p ps IH]; intros g l pp Hg Hl Hdown;
    [reflexivity|].
  destruct Hdown as [Hp Hps].
  cbn [rsi_feed]. rewrite IndicatorSpec.rsi_update_running. cbv zeta.
  rewrite (proj2 (Qltb_ge 0 (p - pp))) by lra.
  rewrite (proj2 (Qltb_lt (p - pp) 0)) by lra.
  assert (Hg' : wilder_smooth n g 0 == 0).
  { unfold wilder_smooth. rewrite Hg. unfold Qdiv. ring. }
  assert (Hl' : 0 < wilder_smooth n l (- (p - pp))).
  { unfold wilder_smooth. pose proof (inject_nat_ge_1 n Hn).
    apply Qlt_shift_div_l; [lra|].
    assert (0 <= l * (inject_Z (Z.of_nat n) - 1))
      by (apply Qmult_le_0_compat; lra).
    lra. }
  specialize (IH _ _ p Hg' Hl' Hps).
  destruct (rsi_feed _ ps) as [c2 vs]. cbn [snd length repeat] in *.
  rewrite IH. f_equal. unfold wilder_rsi.
  destruct (Qeq_bool (wilder_smooth n l (- (p - pp))) 0) eqn:E.
  - apply Qeq_bool_iff in E. lra.
  - rewrite (proj2 (Qeq_bool_iff _ _) Hg'). reflexivity.
Qed.

(** X19. On prices that never fall a fresh RSI calculator returns exactly
    100 from its first value on, and on prices that always fall exactly 0. *)
Theorem rsi_of_one_way_prices (n : nat) (prices : list Q) :
  (0 < n)%nat ->
  (never_falls prices ->
   snd (rsi_feed (RSI.init n) prices)
   = repeat None (Nat.min (length prices) n)
     ++ repeat (Some 100) (length prices - n))
  /\ (always_falls prices ->
      snd (rsi_feed (RSI.init n) prices)
      = repeat None (Nat.min (length prices) n)
        ++ repeat (Some 0) (length prices - n)).
Proof.
  intros Hn.
  destruct (le_lt_dec (length prices) n) as [Hshort|Hlong].
  { change (RSI.init n) with (seeding n []).
    rewrite IndicatorSpec.rsi_feed_seeding by (simpl; lia). cbn [snd].
    replace (Nat.min (length prices) n) with (length prices) by lia.
    replace (length prices - n)%nat with 0%nat by lia.
    cbn [repeat]. rewrite app_nil_r. split; reflexivity. }
  assert (Hp : prices = firstn n prices ++ skipn n prices)
    by (symmetry; apply firstn_skipn).
  assert (Hseen : length (firstn n prices) = n)
    by (rewrite length_firstn; lia).
  destruct (skipn n prices) as [|p rest] eqn:Hskip.
  { apply (f_equal (@length Q)) in Hskip. rewrite length_skipn in Hskip.
    simpl in Hskip. lia. }
  clear Hskip. revert Hp Hseen. generalize (firstn n prices) as seen.
  intros seen -> Hseen. clear Hlong.
  destruct seen as [|x seen']; [simpl in Hseen; lia|].
  rewrite (rsi_feed_split n (x :: seen') p rest Hseen). cbv zeta. cbn [snd].
  rewrite length_app, Hseen. cbn [length].
  replace (Nat.min (n + S (length rest)) n) with n by lia.
  replace (n + S (length rest) - n)%nat with (S (length rest)) by lia.
  cbn [repeat].
  assert (Hlast : last ((x :: seen') ++ [p]) 0 = p) by apply last_last.
  rewrite Hlast.
  assert (Hlen : length (diff ((x :: seen') ++ [p])) = n).
  { rewrite IndicatorSpec.diff_length, length_app, Hseen. simpl. lia. }
  change ((x :: seen') ++ p :: rest) with (x :: (seen' ++ p :: rest)).
  change ((x :: seen') ++ [p]) with (x :: (seen' ++ [p])) in *.
  cbn [never_falls always_falls].
  change (seen' ++ p :: rest) with (seen' ++ [p] ++ rest).
  rewrite app_assoc, rising_from_app, falling_from_app, last_last.
  split; intros [Hseeds Hrest]; f_equal.
  - assert (Hl : mean (map loss_of (diff (x :: seen' ++ [p]))) == 0).
    { apply IndicatorSpec.mean_zeros, Forall_forall. intros y Hy.
      apply in_map_iff in Hy. destruct Hy as (ch & <- & Hch).
      pose proof (diff_rising _ _ Hseeds) as Hup.
      rewrite Forall_forall in Hup. specialize (Hup ch Hch).
      unfold loss_of. rewrite (proj2 (Qltb_ge ch 0) Hup). reflexivity. }
    rewrite (rsi_feed_rising n _ rest Hn _ _ p Hl Hrest). f_equal.
    unfold wilder_rsi. rewrite (proj2 (Qeq_bool_iff _ _) Hl). reflexivity.
  - pose proof (diff_falling _ _ Hseeds) as Hdown.
    assert (Hg : mean (map gain_of (diff (x :: seen' ++ [p]))) == 0).
    { apply IndicatorSpec.mean_zeros, Forall_forall. intros y Hy.
      apply in_map_iff in Hy. destruct Hy as (ch & <- & Hch).
      rewrite Forall_forall in Hdown. specialize (Hdown ch Hch).
      unfold gain_of. destruct (Qle_bool 0 ch) eqn:E; [|reflexivity].
      apply Qle_bool_iff in E. lra. }
    assert (Hl : 0 < mean (map loss_of (diff (x :: seen' ++ [p])))).
    { unfold mean. rewrite length_map, Hlen.
      apply Qlt_shift_div_l; [apply inject_nat_pos, Hn|].
      destruct (diff (x :: seen' ++ [p])) as [|ch chs] eqn:Hd;
        [simpl in Hlen; lia|].
      assert (0 < Qsum (map loss_of (ch :: chs))); [|lra].
      apply Qsum_pos. cbn [map]. rewrite <- (map_cons loss_of).
      apply Forall_forall. intros y Hy.
      apply in_map_iff in Hy. destruct Hy as (c & <- & Hc).
      rewrite Forall_forall in Hdown. specialize (Hdown c Hc).
      unfold loss_of. rewrite (proj2 (Qltb_lt c 0) Hdown). lra. }
    rewrite (rsi_feed_falling n _ rest Hn _ _ p Hg Hl Hrest). f_equal.
    unfold wilder_rsi.
    destruct (Qeq_bool (mean (map loss_of _)) 0) eqn:E.
    + apply Qeq_bool_iff in E. lra.
    + rewrite (proj2 (Qeq_bool_iff _ _) Hg). reflexivity.
Qed.

(** RSI(14) on fourteen prices that rise and then hold, and on their
    reverse and a further fall. *)
Lemma rsi_of_one_way_prices_witness :
  snd (rsi_feed (RSI.init 14) (rising_prices ++ [63; 64]))
  = repeat None 14 ++ [Some 100; Some 100]
  /\ snd (rsi_feed (RSI.init 14) (falling_prices ++ [49; 48]))
     = repeat None 14 ++ [Some 0; Some 0].
Proof.
  split.
  - apply (proj1 (rsi_of_one_way_prices 14 (rising_prices ++ [63; 64])
                    ltac:(lia))).
    simpl. repeat split; intro H; discriminate H.
  - apply (proj2 (rsi_of_one_way_prices 14 (falling_prices ++ [49; 48])
                    ltac:(lia))).
    simpl. repeat split; reflexivity.
Defined.

(** *** The Fibonacci levels *)

Lemma max_of_spec (l : list Q) : forall m,
  m <= max_of m l
  /\ (forall x, In x l -> x <= max_of m l)
  /\ In (max_of m l) (m :: l).
Proof.
  unfold max_of. induction l as [|y ys IH]; intros m; cbn [fold_left].
  - split; [lra|]. split; [intros x []|]. left. reflexivity.
  - destruct (IH (if Qltb m y then y else m)) as (H1 & H2 & H3).
    destruct (Qltb m y) eqn:E; [apply Qltb_lt in E | apply Qltb_ge in E].
    + split; [lra|]. split.
      * intros x [<-|Hx]; [exact H1 | apply H2, Hx].
      * destruct H3 as [H3|H3];
          [right; left; exact H3 | right; right; exact H3].
    + split; [exact H1|]. split.
      * intros x [<-|Hx]; [lra | apply H2, Hx].
      * destruct H3 as [H3|H3]; [left; exact H3 | right; right; exact H3].
Qed.

Lemma min_of_spec (l : list Q) : forall m,
  min_of m l <= m
  /\ (forall x, In x l -> min_of m l <= x)
  /\ In (min_of m l) (m :: l).
Proof.
  unfold min_of. induction l as [|y ys IH]; intros m; cbn [fold_left].
  - split; [lra|]. split; [intros x []|]. left. reflexivity.
  - destruct (IH (if Qltb y m then y else m)) as (H1 & H2 & H3).
    destruct (Qltb y m) eqn:E; [apply Qltb_lt in E | apply Qltb_ge in E].
    + split; [lra|]. split.
      * intros x [<-|Hx]; [exact H1 | apply H2, Hx].
      * destruct H3 as [H3|H3];
          [right; left; exact H3 | right; right; exact H3].
    + split; [exact H1|]. split.
      * intros x [<-|Hx]; [lra | apply H2, Hx].
      * destruct H3 as [H3|H3]; [left; exact H3 | right; right; exact H3].
Qed.

Lemma fib_update_levels (c : Fib.t) (p : Q) :
  Fib.length (fst (Fib.update c p)) = Fib.length c
  /\ Fib.prices (fst (Fib.update c p))
     = deque_append (Fib.length c) (Fib.prices c) p
  /\ snd (Fib.update c p)
     = fib_levels_on (Fib.length c)
         (deque_append (Fib.length c) (Fib.prices c) p).
Proof.
  unfold Fib.update, fib_levels_on.
  destruct (length (deque_append (Fib.length c) (Fib.prices c) p)
            <? Fib.length c)%nat; [auto|].
  destruct (deque_append (Fib.length c) (Fib.prices c) p); auto.
Qed.

(** After any prices the deque holds the last [n] of them, and the levels
    returned are those of the deque. *)
Lemma fib_feed_nth (n : nat) (prices : list Q) :
  forall (c : Fib.t) (i : nat),
    Fib.length c = n -> (i < length prices)%nat ->
    nth i (snd (fib_feed c prices)) fib_nan
    = let seen := Fib.prices c ++ firstn (S i) prices in
      fib_levels_on n (skipn (length seen - n) seen).
Proof.
  induction prices as [|p rest IH]; intros c i Hc Hi;
    [simpl in Hi; lia|].
  cbn [fib_feed].
  destruct (fib_update_levels c p) as (Hlen1 & Hp1 & Hv).
  destruct (Fib.update c p) as [c1 v]. cbn [fst snd] in *.
  destruct (fib_feed c1 rest) as [c2 vs] eqn:Hfeed.
  rewrite Hc in *.
  destruct i as [|i]; cbn [snd nth].
  - rewrite Hv. reflexivity.
  - simpl in Hi. specialize (IH c1 i Hlen1 ltac:(lia)).
    rewrite Hfeed in IH. cbn [snd] in IH. rewrite IH, Hp1.
    rewrite IndicatorSpec.deque_append_lastn.
    change (firstn (S (S i)) (p :: rest)) with ([p] ++ firstn (S i) rest).
    rewrite app_assoc. cbv zeta.
    rewrite IndicatorSpec.lastn_app_lastn. reflexivity.
Qed.

(** X20. A fresh Fibonacci calculator of length [n] returns not-a-number
    levels until it has seen [n] prices; from then on [level_100] is the
    highest and [level_000] the lowest of the [n] most recent prices, the
    other levels lie at the fixed fractions of the range between them, and
    the seven levels are in order. *)
Theorem fibonacci_levels_of_the_window (n : nat) (prices : list Q) (i : nat) :
  (0 < n)%nat -> (i < length prices)%nat ->
  let lv := nth i (snd (fib_feed (Fib.init n) prices)) fib_nan in
  let w := window n i prices in
  ((S i < n)%nat -> lv = fib_nan)
  /\ ((n <= S i)%nat ->
      length w = n
      /\ exists hi lo,
           In hi w /\ In lo w
           /\ (forall x, In x w -> lo <= x /\ x <= hi)
           /\ lv = {| level_100 := Some hi;
                      level_764 := Some (hi - (236 # 1000) * (hi - lo));
                      level_618 := Some (hi - (382 # 1000) * (hi - lo));
                      level_500 := Some (hi - (1 # 2) * (hi - lo));
                      level_382 := Some (lo + (382 # 1000) * (hi - lo));
                      level_236 := Some (lo + (236 # 1000) * (hi - lo));
                      level_000 := Some lo |}
           /\ ordered_levels lv).
Proof.
  intros Hn Hi. cbv zeta.
  rewrite (fib_feed_nth n prices (Fib.init n) i eq_refl Hi).
  cbn [Fib.init Fib.prices app]. cbv zeta.
  assert (Hlen : length (firstn (S i) prices) = S i)
    by (rewrite length_firstn; lia).
  rewrite Hlen. fold (window n i prices).
  assert (Hw : length (window n i prices) = (S i - (S i - n))%nat)
    by (unfold window; rewrite length_skipn, Hlen; reflexivity).
  unfold fib_levels_on. split; intros Hcmp.
  - replace (length (window n i prices) <? n)%nat with true
      by (symmetry; apply Nat.ltb_lt; lia).
    reflexivity.
  - replace (length (window n i prices) <? n)%nat with false
      by (symmetry; apply Nat.ltb_ge; lia).
    split; [lia|].
    destruct (window n i prices) as [|p ps]; [cbn [length] in Hw; lia|].
    destruct (max_of_spec ps p) as (Hmax1 & Hmax2 & Hmax3).
    destruct (min_of_spec ps p) as (Hmin1 & Hmin2 & Hmin3).
    exists (max_of p ps), (min_of p ps).
    split; [exact Hmax3|]. split; [exact Hmin3|]. split.
    { intros x [<-|Hx]; [split; assumption|].
      split; [apply Hmin2, Hx | apply Hmax2, Hx]. }
    split; [reflexivity|].
    unfold ordered_levels. cbn.
    set (hi := max_of p ps) in *. set (lo := min_of p ps) in *.
    clearbody hi lo. repeat split; lra.
Qed.

(** Five-bar levels (the engine's span 5000) on nine closes rising by two. *)
Lemma fibonacci_levels_of_the_window_witness :
  nth 3 (snd (fib_feed (Fib.init 5) sample_closes)) fib_nan = fib_nan
  /\ level_100 (nth 8 (snd (fib_feed (Fib.init 5) sample_closes)) fib_nan)
     = Some 116
  /\ level_000 (nth 8 (snd (fib_feed (Fib.init 5) sample_closes)) fib_nan)
     = Some 108.
Proof.
  split.
  - exact (proj1 (fibonacci_levels_of_the_window 5 sample_closes 3
                    ltac:(lia) ltac:(simpl; lia)) ltac:(lia)).
  - split; reflexivity.
Defined.

(** *** The signal line *)

Lemma sma_update_value (c : SMA.t) (x : Q) :
  (0 < SMA.length c)%nat ->
  SMA.length (fst (SMA.update c (Some x))) = SMA.length c
  /\ SMA.values (fst (SMA.update c (Some x)))
     = deque_append (SMA.length c) (SMA.values c) x
  /\ snd (SMA.update c (Some x))
     = ma_value_on (SMA.length c)
         (deque_append (SMA.length c) (SMA.values c) x).
Proof.
  intros Hn. unfold SMA.update, ma_value_on.
  destruct (length (deque_append (SMA.length c) (SMA.values c) x)
            <? SMA.length c)%nat eqn:Hlen; [auto|].
  apply Nat.ltb_ge in Hlen.
  replace (length (deque_append (SMA.length c) (SMA.values c) x) =? 0)%nat
    with false by (symmetry; apply Nat.eqb_neq; lia).
  auto.
Qed.

Lemma sma_feed_nth (n : nat) (vals : list (option Q)) : (0 < n)%nat ->
  forall (c : SMA.t) (i : nat),
    SMA.length c = n -> (i < length vals)%nat ->
    nth i (snd (sma_feed c vals)) None
    = match nth i vals None with
      | None => None
      | Some _ =>
        let seen := SMA.values c ++ defined (firstn (S i) vals) in
        ma_value_on n (skipn (length seen - n) seen)
      end.
Proof.
  intros Hn. induction vals as [|v rest IH]; intros c i Hc Hi;
    [simpl in Hi; lia|].
  cbn [sma_feed]. destruct v as [x|].
  - destruct (sma_update_value c x ltac:(lia)) as (Hlen1 & Hv1 & Hout).
    destruct (SMA.update c (Some x)) as [c1 out]. cbn [fst snd] in *.
    destruct (sma_feed c1 rest) as [c2 outs] eqn:Hfeed.
    rewrite Hc in *.
    destruct i as [|i]; cbn [snd nth].
    + rewrite Hout. reflexivity.
    + simpl in Hi. specialize (IH c1 i Hlen1 ltac:(lia)).
      rewrite Hfeed in IH. cbn [snd] in IH. rewrite IH.
      destruct (nth i rest None); [|reflexivity].
      rewrite Hv1, IndicatorSpec.deque_append_lastn.
      change (defined (firstn (S (S i)) (Some x :: rest)))
        with ([x] ++ defined (firstn (S i) rest)).
      rewrite app_assoc. cbv zeta.
      rewrite IndicatorSpec.lastn_app_lastn. reflexivity.
  - change (SMA.update c None) with (c, @None Q). cbv beta iota.
    destruct (sma_feed c rest) as [c2 outs] eqn:Hfeed.
    destruct i as [|i]; cbn [snd nth]; [reflexivity|].
    simpl in Hi. specialize (IH c i Hc ltac:(lia)).
    rewrite Hfeed in IH. cbn [snd] in IH. exact IH.
Qed.

(** X21. The signal line takes no notice of not-a-number inputs: it
    returns not-a-number on each of them, and on a number it returns
    not-a-number until [n] numbers have come in, then the mean of the [n]
    most recent numbers. *)
Theorem signal_line_skips_undefined (n : nat) (vals : list (option Q))
    (i : nat) :
  (0 < n)%nat -> (i < length vals)%nat ->
  nth i (snd (sma_feed (SMA.init n) vals)) None
  = match nth i vals None with
    | None => None
    | Some _ =>
      let seen := defined (firstn (S i) vals) in
      if (length seen <? n)%nat then None
      else Some (mean (skipn (length seen - n) seen))
    end.
Proof.
  intros Hn Hi.
  rewrite (sma_feed_nth n vals Hn (SMA.init n) i eq_refl Hi).
  destruct (nth i vals None); [|reflexivity].
  cbn [SMA.init SMA.values app]. cbv zeta. unfold ma_value_on.
  rewrite length_skipn.
  set (m := length (defined (firstn (S i) vals))).
  destruct (m <? n)%nat eqn:E.
  - apply Nat.ltb_lt in E.
    replace (m - (m - n) <? n)%nat with true
      by (symmetry; apply Nat.ltb_lt; lia).
    reflexivity.
  - apply Nat.ltb_ge in E.
    replace (m - (m - n) <? n)%nat with false
      by (symmetry; apply Nat.ltb_ge; lia).
    reflexivity.
Qed.

(** A signal line of length 3 on the sample values. *)
Lemma signal_line_skips_undefined_witness :
  nth 4 (snd (sma_feed (SMA.init 3) sample_values)) None = None
  /\ nth 5 (snd (sma_feed (SMA.init 3) sample_values)) None
     = Some (mean [40; 50; 60]).
Proof.
  split.
  - exact (signal_line_skips_undefined 3 sample_values 4
             ltac:(lia) ltac:(simpl; lia)).
  - exact (signal_line_skips_undefined 3 sample_values 5
             ltac:(lia) ltac:(simpl; lia)).
Defined.

End CalculatorSpec.

(** ** The engine, further *)

Module EngineProps.

Import Indicators Monitor.
Import StatefulIndicatorEngine.

Module RSI := StatefulRSICalculator.
Module SMA := StatefulSMA.
Module MA := StatefulMovingAverage.
Module Fib := StatefulFibonacci.

(** *** The incremental path takes a bar once *)

Lemma watermark_after_cons (t : option Z) (row : BarRow)
    (recs : list BarRow) :
  watermark_after t (row :: recs)
  = watermark_after (Some (Open_Time row)) recs.
Proof.
  unfold watermark_after. change (row :: recs) with ([row] ++ recs).
  rewrite EngineSpec.last_open_time_app.
  destruct (last_open_time recs); reflexivity.
Qed.

(** The row loop of [process_new_data] is a replay of the record bars. *)
Lemma new_data_loop_records (rows : list BarRow) :
  forall (e : StatefulIndicatorEngine.t) (new_data : list IndicatorRow),
    let recs := records (last_processed_time e) rows in
    new_data_loop e rows new_data
    = (engine_with (initialized e)
         (watermark_after (last_processed_time e) recs) (current_df e)
         (fst (replay (calculators_of e) recs)),
       new_data ++ snd (replay (calculators_of e) recs)).
Proof.
  induction rows as [|row rest IH]; intros e new_data; cbv zeta.
  - simpl. rewrite app_nil_r.
    unfold watermark_after. cbn [last_open_time rev].
    rewrite EngineSpec.engine_with_calculators_of. reflexivity.
  - cbn [new_data_loop records].
    destruct (match last_processed_time e with
              | Some t => (Open_Time row <=? t)%Z
              | None => false
              end); [apply IH|].
    cbn [replay]. unfold indicator_step.
    cbn [calculators_of c_rsi c_rsi_ma50 c_mas c_fib].
    destruct (StatefulRSICalculator.update (rsi e) (Close row))
      as [rsi' rsi_val].
    destruct (match rsi_val with
              | Some _ => StatefulSMA.update (rsi_ma50 e) rsi_val
              | None => (rsi_ma50 e, None)
              end) as [sma' sma_val].
    destruct (update_mas (ma_calculators e) (Close row)) as [mas' ma_vals].
    destruct (StatefulFibonacci.update (fibonacci e) (Close row))
      as [fib' fib_levels].
    rewrite IH. cbv zeta. unfold calculators_of.
    cbn [initialized last_processed_time current_df rsi rsi_ma50
         ma_calculators fibonacci].
    destruct (replay _ (records (Some (Open_Time row)) rest)) as [c2 rs].
    cbn [fst snd]. rewrite <- app_assoc, watermark_after_cons. reflexivity.
Qed.

Lemma replay_length (rows : list BarRow) (c : Calculators) :
  length (snd (replay c rows)) = length rows.
Proof.
  rewrite <- (EngineSpec.replay_bars rows c) at 2.
  rewrite length_map. reflexivity.
Qed.

(** [process_new_data] on an initialized engine. *)
Lemma process_new_data_records (e : StatefulIndicatorEngine.t)
    (rows : list BarRow) :
  initialized e = true ->
  let recs := records (last_processed_time e) rows in
  process_new_data e rows
  = (engine_with true (watermark_after (last_processed_time e) recs)
       (current_df e ++ snd (replay (calculators_of e) recs))
       (fst (replay (calculators_of e) recs)),
     (0 <? length recs)%nat).
Proof.
  intros Hinit. cbv zeta. unfold process_new_data. rewrite Hinit.
  destruct rows as [|row rest] eqn:Hrows.
  - simpl. rewrite app_nil_r. unfold watermark_after.
    cbn [last_open_time rev].
    pose proof (EngineSpec.engine_with_calculators_of e) as He.
    rewrite Hinit in He. rewrite He. reflexivity.
  - rewrite <- Hrows. replace (length rows =? 0)%nat with false
      by (rewrite Hrows; reflexivity).
    cbn [negb orb]. rewrite new_data_loop_records. cbv zeta. cbn [app].
    pose proof (replay_length (records (last_processed_time e) rows)
                  (calculators_of e)) as Hlen.
    destruct (snd (replay (calculators_of e)
                     (records (last_processed_time e) rows)))
      as [|r rs] eqn:Hrs.
    + destruct (records (last_processed_time e) rows) as [|x xs] eqn:Hrec;
        [|simpl in Hlen; lia].
      cbn [replay fst length Nat.ltb Nat.leb]. rewrite app_nil_r, Hinit.
      reflexivity.
    + destruct (records (last_processed_time e) rows) as [|x xs] eqn:Hrec;
        [simpl in Hlen; lia|].
      rewrite Hinit. unfold engine_with.
      cbn [initialized last_processed_time current_df rsi rsi_ma50
           ma_calculators fibonacci fst length Nat.ltb Nat.leb].
      reflexivity.
Qed.

(** *** The record bars *)

Lemma records_incl (rows : list BarRow) : forall t,
  incl (records t rows) rows.
Proof.
  induction rows as [|row rest IH]; intros t; cbn [records];
    [apply incl_refl|].
  destruct (match t with Some t => (Open_Time row <=? t)%Z | None => false end).
  - apply incl_tl, IH.
  - apply incl_cons; [left; reflexivity | apply incl_tl, IH].
Qed.

Lemma records_strictly_newer (rows : list BarRow) : forall t,
  strictly_newer t (records (Some t) rows).
Proof.
  induction rows as [|row rest IH]; intros t; cbn [records]; [exact I|].
  destruct (Open_Time row <=? t)%Z eqn:E; [apply IH|].
  apply Z.leb_gt in E. split; [exact E | apply IH].
Qed.

Lemma records_all (rows : list BarRow) : forall t,
  strictly_newer t rows -> records (Some t) rows = rows.
Proof.
  induction rows as [|row rest IH]; intros t H; [reflexivity|].
  destruct H as [Hlt Hrest]. cbn [records].
  rewrite (proj2 (Z.leb_gt _ _) Hlt). f_equal. apply IH, Hrest.
Qed.

Lemma records_none (rows : list BarRow) (t : Z) :
  none_after t rows -> records (Some t) rows = [].
Proof.
  intros H. induction H as [|row rest Hrow Hrest IH]; [reflexivity|].
  cbn [records]. rewrite (proj2 (Z.leb_le _ _) Hrow). exact IH.
Qed.

(** The watermark the record bars leave is at or after every bar of the
    batch, and never before the watermark they started from. *)
Lemma watermark_after_records (rows : list BarRow) : forall t,
  exists t',
    watermark_after (Some t) (records (Some t) rows) = Some t'
    /\ (t <= t')%Z /\ none_after t' rows.
Proof.
  induction rows as [|row rest IH]; intros t; cbn [records].
  - exists t. repeat split; [lia | constructor].
  - destruct (Open_Time row <=? t)%Z eqn:E.
    + apply Z.leb_le in E. destruct (IH t) as (t' & Hw & Hle & Hall).
      exists t'. repeat split; [exact Hw | exact Hle|].
      constructor; [lia | exact Hall].
    + apply Z.leb_gt in E. rewrite watermark_after_cons.
      destruct (IH (Open_Time row)) as (t' & Hw & Hle & Hall).
      exists t'. repeat split; [exact Hw | lia|].
      constructor; [exact Hle | exact Hall].
Qed.

Lemma records_again (rows : list BarRow) (t : option Z) :
  records (watermark_after t (records t rows)) rows = [].
Proof.
  destruct t as [t|].
  - destruct (watermark_after_records rows t) as (t' & -> & _ & Hall).
    apply records_none, Hall.
  - destruct rows as [|row rest]; [reflexivity|].
    change (records None (row :: rest))
      with (row :: records (Some (Open_Time row)) rest).
    rewrite watermark_after_cons.
    destruct (watermark_after_records rest (Open_Time row))
      as (t' & -> & Hle & Hall).
    apply records_none. constructor; [exact Hle | exact Hall].
Qed.

(** X22. Submitting a batch to [process_new_data] a second time changes
    nothing and returns [False], whatever the batch and the engine: every
    bar is taken at most once. *)
Theorem process_new_data_is_idempotent (e : StatefulIndicatorEngine.t)
    (rows : list BarRow) :
  process_new_data (fst (process_new_data e rows)) rows
  = (fst (process_new_data e rows), false).
Proof.
  destruct (initialized e) eqn:Hinit.
  - rewrite (process_new_data_records e rows Hinit). cbv zeta. cbn [fst].
    set (recs := records (last_processed_time e) rows).
    set (w := watermark_after (last_processed_time e) recs).
    set (c' := fst (replay (calculators_of e) recs)).
    set (df' := current_df e ++ snd (replay (calculators_of e) recs)).
    assert (Hc : calculators_of (engine_with true w df' c') = c')
      by apply EngineSpec.calculators_of_engine_with.
    rewrite (process_new_data_records (engine_with true w df' c') rows
               eq_refl).
    cbv zeta. rewrite Hc.
    change (last_processed_time (engine_with true w df' c')) with w.
    change (current_df (engine_with true w df' c')) with df'.
    assert (Hrec : records w rows = []) by apply records_again.
    rewrite Hrec. cbn [replay fst snd length Nat.ltb Nat.leb].
    rewrite app_nil_r. reflexivity.
  - assert (H : process_new_data e rows = (e, false))
      by (unfold process_new_data; rewrite Hinit; reflexivity).
    rewrite H. cbn [fst]. exact H.
Qed.

(** X23. On an initialized engine [process_new_data] takes exactly the
    bars of the batch that open after the watermark and after every bar
    before them: it replays those through the calculators, appends their
    rows to the table, moves the watermark to the last of them, and returns
    whether there was any.  The bars taken open in strictly rising order
    after the old watermark; a batch already in that order is taken whole,
    and a bar that opens no later than one before it is dropped. *)
Theorem incremental_path_takes_the_record_bars
    (e : StatefulIndicatorEngine.t) (rows : list BarRow) :
  initialized e = true ->
  let recs := records (last_processed_time e) rows in
  process_new_data e rows
  = (engine_with true (watermark_after (last_processed_time e) recs)
       (current_df e ++ snd (replay (calculators_of e) recs))
       (fst (replay (calculators_of e) recs)),
     (0 <? length recs)%nat)
  /\ map bar (snd (replay (calculators_of e) recs)) = recs
  /\ incl recs rows
  /\ (forall t, last_processed_time e = Some t ->
       strictly_newer t recs
       /\ (strictly_newer t rows -> recs = rows)
       /\ (none_after t rows -> recs = [])).
Proof.
  intros Hinit. cbv zeta.
  split; [apply process_new_data_records, Hinit|].
  split; [apply EngineSpec.replay_bars|].
  split; [apply records_incl|].
  intros t ->. split; [apply records_strictly_newer|].
  split; [apply records_all | apply records_none].
Qed.

(** A bar that opens at the time of the bar before it is dropped. *)
Lemma incremental_path_takes_the_record_bars_witness :
  map bar
    (current_df
       (fst (process_new_data
               (fst (initialize_from_history StatefulIndicatorEngine.init
                       [sample_bar 1000 100]))
               [sample_bar 2000 101; sample_bar 2000 102;
                sample_bar 3000 103])))
  = [sample_bar 1000 100; sample_bar 2000 101; sample_bar 3000 103].
Proof.
  destruct (incremental_path_takes_the_record_bars
              (fst (initialize_from_history StatefulIndicatorEngine.init
                      [sample_bar 1000 100]))
              [sample_bar 2000 101; sample_bar 2000 102; sample_bar 3000 103]
              eq_refl) as (E & _).
  rewrite E. reflexivity.
Defined.

(** *** The update pass *)

Lemma strictly_newer_all (rows : list BarRow) : forall t t',
  (t' <= t)%Z -> strictly_newer t rows ->
  Forall (fun row => (t' < Open_Time row)%Z) rows.
Proof.
  induction rows as [|row rest IH]; intros t t' Hle H; [constructor|].
  destruct H as [Hlt Hrest].
  constructor; [lia | apply (IH (Open_Time row)); [lia | exact Hrest]].
Qed.

Lemma filter_newer (history rest : list BarRow) (t : Z) :
  none_after t history -> strictly_newer t rest ->
  filter (fun row => (t <? Open_Time row)%Z) (history ++ rest) = rest.
Proof.
  intros Hold Hnew. rewrite filter_app.
  assert (H1 : filter (fun row => (t <? Open_Time row)%Z) history = []).
  { induction Hold as [|row rows Hrow Hrows IH]; [reflexivity|].
    cbn [filter]. rewrite (proj2 (Z.ltb_ge _ _) Hrow). exact IH. }
  assert (H2 : filter (fun row => (t <? Open_Time row)%Z) rest = rest).
  { pose proof (strictly_newer_all rest t t ltac:(lia) Hnew) as Hall.
    clear Hnew. induction Hall as [|row rows Hrow Hrows IH]; [reflexivity|].
    cbn [filter]. rewrite (proj2 (Z.ltb_lt _ _) Hrow). f_equal. exact IH. }
  rewrite H1, H2. reflexivity.
Qed.

(** X24. The update pass of the monitor follows the bar file: the first
    pass initializes the engine from the whole table, and when the table
    has since grown by bars that each open strictly after the bar before
    them, the next pass leaves the engine exactly as one initialization
    from the grown table would, rows, calculators and watermark. *)
Theorem update_pass_follows_the_file (history rest : list BarRow) (t : Z) :
  last_open_time history = Some t ->
  none_after t history ->
  strictly_newer t rest ->
  update_pass StatefulIndicatorEngine.init false history
  = initialize_from_history StatefulIndicatorEngine.init history
  /\ update_pass
       (fst (initialize_from_history StatefulIndicatorEngine.init history))
       true (history ++ rest)
     = (fst (initialize_from_history StatefulIndicatorEngine.init
               (history ++ rest)), true).
Proof.
  intros Hlast Hold Hnew.
  assert (Hne : history <> []) by (intros ->; discriminate Hlast).
  split.
  { destruct history; [congruence | reflexivity]. }
  assert (Hne' : history ++ rest <> [])
    by (intros H; apply app_eq_nil in H; tauto).
  rewrite (EngineSpec.initialize_from_history_replay _ history Hne).
  rewrite (EngineSpec.initialize_from_history_replay _ (history ++ rest) Hne').
  unfold update_pass.
  destruct (history ++ rest) as [|row0 rows0] eqn:Hall; [congruence|].
  rewrite <- Hall. cbn [negb].
  cbn [fst]. set (c0 := calculators_of StatefulIndicatorEngine.init).
  set (started := engine_with true (last_open_time history)
                    (snd (replay c0 history)) (fst (replay c0 history))).
  change (last_processed_time started) with (last_open_time history).
  rewrite Hlast, (filter_newer history rest t Hold Hnew).
  destruct rest as [|row rest'] eqn:Hrest.
  - rewrite app_nil_r. reflexivity.
  - rewrite <- Hrest in *. f_equal.
    rewrite (EngineSpec.process_new_data_replay started rest t eq_refl
               Hlast Hnew).
    assert (Hc : calculators_of started = fst (replay c0 history))
      by apply EngineSpec.calculators_of_engine_with.
    rewrite Hc.
    change (current_df started) with (snd (replay c0 history)).
    rewrite EngineSpec.replay_app, EngineSpec.last_open_time_app, Hlast.
    cbn [fst snd]. destruct (last_open_time rest); reflexivity.
Qed.

(** A table of one bar that grows by one. *)
Lemma update_pass_follows_the_file_witness :
  update_pass
    (fst (initialize_from_history StatefulIndicatorEngine.init
            [sample_bar 1000 100]))
    true [sample_bar 1000 100; sample_bar 2000 101]
  = (fst (initialize_from_history StatefulIndicatorEngine.init
            [sample_bar 1000 100; sample_bar 2000 101]), true).
Proof.
  exact (proj2 (update_pass_follows_the_file [sample_bar 1000 100]
                  [sample_bar 2000 101] 1000 eq_refl
                  ltac:(repeat constructor; discriminate)
                  (conj eq_refl I))).
Defined.

(** X25. [initialize_from_history] replaces the table but does not reset
    the calculators: called again on an engine already initialized from
    [rows1], it gives the bars of [rows2] the indicator values they would
    have as the continuation of [rows1], not those of a fresh start. *)
Theorem reinitialization_keeps_the_calculators
    (e : StatefulIndicatorEngine.t) (rows1 rows2 : list BarRow) :
  rows1 <> [] -> rows2 <> [] ->
  let again :=
    fst (initialize_from_history (fst (initialize_from_history e rows1))
           rows2) in
  current_df again
  = skipn (length rows1) (snd (replay (calculators_of e) (rows1 ++ rows2)))
  /\ calculators_of again = fst (replay (calculators_of e) (rows1 ++ rows2))
  /\ map bar (current_df again) = rows2.
Proof.
  intros H1 H2. cbv zeta.
  rewrite (EngineSpec.initialize_from_history_replay e rows1 H1). cbn [fst].
  rewrite (EngineSpec.initialize_from_history_replay _ rows2 H2). cbn [fst].
  rewrite !EngineSpec.calculators_of_engine_with.
  change (current_df (engine_with ?i ?t ?df ?c)) with df.
  rewrite EngineSpec.replay_app. cbn [fst snd].
  split; [|split; [reflexivity | apply EngineSpec.replay_bars]].
  rewrite skipn_app, replay_length, Nat.sub_diag.
  rewrite skipn_all2 by (rewrite replay_length; lia). reflexivity.
Qed.

(** Two steady bars, then the same two again: the second time the
    two-bar average is defined from the first row on. *)
Lemma reinitialization_keeps_the_calculators_witness :
  map ma_cols
    (current_df
       (fst (initialize_from_history
               (fst (initialize_from_history StatefulIndicatorEngine.init
                       [sample_bar 1000 100; sample_bar 2000 100]))
               [sample_bar 1000 100; sample_bar 2000 100])))
  = map ma_cols
      (skipn 2
         (snd (replay (calculators_of StatefulIndicatorEngine.init)
                 ([sample_bar 1000 100; sample_bar 2000 100]
                  ++ [sample_bar 1000 100; sample_bar 2000 100])))).
Proof.
  destruct (reinitialization_keeps_the_calculators
              StatefulIndicatorEngine.init
              [sample_bar 1000 100; sample_bar 2000 100]
              [sample_bar 1000 100; sample_bar 2000 100]
              ltac:(discriminate) ltac:(discriminate)) as (E & _).
  rewrite E. reflexivity.
Defined.

(** *** The columns *)

Lemma rsi_feed_cons (c : RSI.t) (p : Q) (ps : list Q) :
  snd (rsi_feed c (p :: ps))
  = snd (RSI.update c p) :: snd (rsi_feed (fst (RSI.update c p)) ps).
Proof.
  cbn [rsi_feed]. destruct (RSI.update c p) as [c1 v]. cbn [fst snd].
  destruct (rsi_feed c1 ps). reflexivity.
Qed.

Lemma sma_feed_cons (c : SMA.t) (v : option Q) (vs : list (option Q)) :
  snd (sma_feed c (v :: vs))
  = snd (SMA.update c v) :: snd (sma_feed (fst (SMA.update c v)) vs).
Proof.
  cbn [sma_feed]. destruct (SMA.update c v) as [c1 out]. cbn [fst snd].
  destruct (sma_feed c1 vs). reflexivity.
Qed.

Lemma ma_feed_cons (c : MA.t) (p : Q) (ps : list Q) :
  snd (ma_feed c (p :: ps))
  = snd (MA.update c p) :: snd (ma_feed (fst (MA.update c p)) ps).
Proof.
  cbn [ma_feed]. destruct (MA.update c p) as [c1 v]. cbn [fst snd].
  destruct (ma_feed c1 ps). reflexivity.
Qed.

Lemma fib_feed_cons (c : Fib.t) (p : Q) (ps : list Q) :
  snd (fib_feed c (p :: ps))
  = snd (Fib.update c p) :: snd (fib_feed (fst (Fib.update c p)) ps).
Proof.
  cbn [fib_feed]. destruct (Fib.update c p) as [c1 v]. cbn [fst snd].
  destruct (fib_feed c1 ps). reflexivity.
Qed.

Lemma update_mas_map (calcs : list (string * MA.t)) (close : Q) :
  update_mas calcs close
  = (map (fun nc => (fst nc, fst (MA.update (snd nc) close))) calcs,
     map (fun nc => (fst nc, snd (MA.update (snd nc) close))) calcs).
Proof.
  induction calcs as [|[name calc] rest IH]; [reflexivity|].
  cbn [update_mas map fst snd]. rewrite IH.
  destruct (MA.update calc close). reflexivity.
Qed.

(** One bar through the calculators, calculator by calculator. *)
Lemma indicator_step_parts (c : Calculators) (row : BarRow) :
  let close := Close row in
  let rsi_val := snd (RSI.update (c_rsi c) close) in
  indicator_step c row
  = ({| c_rsi := fst (RSI.update (c_rsi c) close);
        c_rsi_ma50 := fst (SMA.update (c_rsi_ma50 c) rsi_val);
        c_mas := fst (update_mas (c_mas c) close);
        c_fib := fst (Fib.update (c_fib c) close) |},
     {| bar := row;
        rsi_col := rsi_val;
        rsi_ma50_col := snd (SMA.update (c_rsi_ma50 c) rsi_val);
        ma_cols := snd (update_mas (c_mas c) close);
        fib_cols := snd (Fib.update (c_fib c) close) |}).
Proof.
  cbv zeta. unfold indicator_step.
  destruct (RSI.update (c_rsi c) (Close row)) as [rsi' [v|]]; cbn [fst snd].
  - destruct (SMA.update (c_rsi_ma50 c) (Some v)).
    destruct (update_mas (c_mas c) (Close row)).
    destruct (Fib.update (c_fib c) (Close row)). reflexivity.
  - destruct (update_mas (c_mas c) (Close row)).
    destruct (Fib.update (c_fib c) (Close row)). reflexivity.
Qed.

(** Every column of a replay is the run of its own calculator over the
    closes. *)
Lemma replay_columns (rows : list BarRow) :
  forall (c : Calculators) (i : nat) (r : IndicatorRow),
    nth_error (snd (replay c rows)) i = Some r ->
    let closes := map Close rows in
    let rsis := snd (rsi_feed (c_rsi c) closes) in
    nth_error rows i = Some (bar r)
    /\ rsi_col r = nth i rsis None
    /\ rsi_ma50_col r = nth i (snd (sma_feed (c_rsi_ma50 c) rsis)) None
    /\ ma_cols r = map (fun nc => (fst nc, ma_at (snd nc) closes i)) (c_mas c)
    /\ fib_cols r = nth i (snd (fib_feed (c_fib c) closes)) fib_nan.
Proof.
  induction rows as [|row rest IH]; intros c i r Hr; cbv zeta.
  - destruct i; discriminate Hr.
  - cbn [replay] in Hr. rewrite indicator_step_parts in Hr. cbv zeta in Hr.
    destruct (replay _ rest) as [c2 rs] eqn:Hrep. cbn [snd] in Hr.
    cbn [map]. rewrite rsi_feed_cons, sma_feed_cons, fib_feed_cons.
    destruct i as [|i].
    + injection Hr as <-. cbn [nth_error nth bar rsi_col rsi_ma50_col
                               ma_cols fib_cols].
      repeat split. rewrite update_mas_map. cbn [snd].
      apply map_ext. intros [name calc]. unfold ma_at.
      rewrite ma_feed_cons. reflexivity.
    + cbn [nth_error] in Hr.
      match type of Hrep with
      | replay ?c1 rest = _ =>
        specialize (IH c1 i r); rewrite Hrep in IH; specialize (IH Hr);
          cbv zeta in IH; cbn [c_rsi c_rsi_ma50 c_mas c_fib] in IH
      end.
      destruct IH as (Hb & Hrsi & Hsma & Hma & Hfib).
      cbn [nth_error nth]. repeat split; try assumption.
      rewrite Hma, update_mas_map. cbn [fst]. rewrite map_map.
      apply map_ext. intros [name calc]. unfold ma_at. cbn [fst snd].
      rewrite ma_feed_cons. reflexivity.
Qed.

(** X26. In the table a full replay builds, every indicator column is the
    run of its own calculator over the closes and depends on nothing else:
    the RSI column is the RSI calculator's run, the signal column the
    signal line's run over the RSI column, each moving-average column its
    calculator's run under its name, the Fibonacci columns the Fibonacci
    calculator's run; and the rows are the bars of the table, in order. *)
Theorem columns_are_calculator_runs (e : StatefulIndicatorEngine.t)
    (rows : list BarRow) (i : nat) (r : IndicatorRow) :
  nth_error (current_df (fst (initialize_from_history e rows))) i = Some r ->
  rows <> [] ->
  let closes := map Close rows in
  let rsis := snd (rsi_feed (rsi e) closes) in
  nth_error rows i = Some (bar r)
  /\ rsi_col r = nth i rsis None
  /\ rsi_ma50_col r = nth i (snd (sma_feed (rsi_ma50 e) rsis)) None
  /\ ma_cols r
     = map (fun nc => (fst nc, ma_at (snd nc) closes i)) (ma_calculators e)
  /\ fib_cols r = nth i (snd (fib_feed (fibonacci e) closes)) fib_nan.
Proof.
  intros Hr Hne.
  rewrite (EngineSpec.initialize_from_history_replay e rows Hne) in Hr.
  exact (replay_columns rows (calculators_of e) i r Hr).
Qed.

(** Two bars: the two-bar average of the second row. *)
Lemma columns_are_calculator_runs_witness :
  exists r,
    nth_error
      (current_df
         (fst (initialize_from_history StatefulIndicatorEngine.init
                 [sample_bar 1000 100; sample_bar 2000 102]))) 1
    = Some r
    /\ nth 0 (ma_cols r) (EmptyString, None)
       = ("short002"%string, Some (mean [100; 102])).
Proof.
  destruct (nth_error
              (current_df
                 (fst (initialize_from_history StatefulIndicatorEngine.init
                         [sample_bar 1000 100; sample_bar 2000 102]))) 1)
    as [r|] eqn:Hr; [|discriminate Hr].
  exists r. split; [reflexivity|].
  destruct (columns_are_calculator_runs StatefulIndicatorEngine.init
              [sample_bar 1000 100; sample_bar 2000 102] 1 r Hr
              ltac:(discriminate)) as (_ & _ & _ & E & _).
  rewrite E. reflexivity.
Defined.

(** *** Warm-up *)

Lemma firstn_succ_nth {A : Type} (d : A) (l : list A) : forall k,
  (k < length l)%nat -> firstn (S k) l = firstn k l ++ [nth k l d].
Proof.
  induction l as [|x xs IH]; intros k Hk; [simpl in Hk; lia|].
  destruct k as [|k]; [reflexivity|].
  simpl in Hk. cbn [firstn nth app]. f_equal.
  apply IH. lia.
Qed.

(** Which values of a fresh RSI calculator are numbers. *)
Lemma rsi_feed_nth_defined (n : nat) (prices : list Q) (i : nat) :
  (0 < n)%nat -> (i < length prices)%nat ->
  nth i (snd (rsi_feed (RSI.init n) prices)) None = None <-> (i < n)%nat.
Proof.
  intros Hn Hi.
  destruct (le_lt_dec (length prices) n) as [Hshort|Hlong].
  - change (RSI.init n) with (seeding n []).
    rewrite IndicatorSpec.rsi_feed_seeding by (simpl; lia). cbn [snd].
    rewrite nth_repeat. split; [intros _; lia | reflexivity].
  - destruct (CalculatorSpec.rsi_feed_long n prices Hn Hlong)
      as (g & l & pp & seeds & rest & Hg & Hl & Hlen & ->).
    destruct (le_lt_dec n i) as [Hge|Hlt].
    + rewrite app_nth2 by (rewrite repeat_length; exact Hge).
      rewrite repeat_length.
      pose proof (CalculatorSpec.rsi_feed_running_range n rest Hn g l pp
                    seeds Hg Hl) as Hrest.
      pose proof (CalculatorSpec.rsi_feed_length rest
                    (running n g l pp seeds)) as Hlen'.
      destruct (i - n)%nat as [|j] eqn:Hj; cbn [nth];
        [split; [discriminate | lia]|].
      rewrite Forall_forall in Hrest.
      destruct (Hrest (nth j (snd (rsi_feed (running n g l pp seeds) rest))
                         None)) as (v & -> & _); [apply nth_In; lia|].
      split; [discriminate | lia].
    + rewrite app_nth1 by (rewrite repeat_length; exact Hlt).
      rewrite nth_repeat. split; [intros _; exact Hlt | reflexivity].
Qed.

(** Of the first [k] values of a fresh RSI calculator, [k - n] are
    numbers. *)
Lemma rsi_feed_defined (n : nat) (prices : list Q) : (0 < n)%nat ->
  forall k, (k <= length prices)%nat ->
    length (defined (firstn k (snd (rsi_feed (RSI.init n) prices))))
    = (k - n)%nat.
Proof.
  intros Hn. induction k as [|k IH]; intros Hk; [reflexivity|].
  rewrite (firstn_succ_nth None)
    by (rewrite CalculatorSpec.rsi_feed_length; lia).
  unfold defined in *. rewrite flat_map_app, length_app, IH by lia.
  pose proof (rsi_feed_nth_defined n prices k Hn ltac:(lia)) as Hdef.
  destruct (nth k (snd (rsi_feed (RSI.init n) prices)) None) as [v|].
  - assert (~ (k < n)%nat) by (intros H; apply Hdef in H; discriminate H).
    cbn [flat_map app length]. lia.
  - assert (k < n)%nat by (apply Hdef; reflexivity).
    cbn [flat_map app length]. lia.
Qed.

Lemma ma_at_fresh (n : nat) (closes : list Q) (i : nat) :
  (0 < n)%nat -> (i < length closes)%nat ->
  ma_at (MA.init n) closes i = None <-> (S i < n)%nat.
Proof.
  intros Hn Hi. unfold ma_at.
  rewrite (IndicatorSpec.ma_feed_nth n closes Hn (MA.init n) i eq_refl Hi).
  cbn [MA.init MA.prices app]. cbv zeta. unfold ma_value_on.
  rewrite length_skipn, length_firstn.
  replace (Nat.min (S i) (length closes)) with (S i) by lia.
  destruct (S i - (S i - n) <? n)%nat eqn:E.
  - apply Nat.ltb_lt in E. split; [intros _; lia | reflexivity].
  - apply Nat.ltb_ge in E. split; [discriminate | lia].
Qed.

Lemma fib_fresh (n : nat) (closes : list Q) (i : nat) :
  (0 < n)%nat -> (i < length closes)%nat ->
  nth i (snd (fib_feed (Fib.init n) closes)) fib_nan = fib_nan
  <-> (S i < n)%nat.
Proof.
  intros Hn Hi.
  rewrite (CalculatorSpec.fib_feed_nth n closes (Fib.init n) i eq_refl Hi).
  cbn [Fib.init Fib.prices app]. cbv zeta. unfold fib_levels_on.
  assert (Hlen : length (skipn (length (firstn (S i) closes) - n)
                           (firstn (S i) closes))
                 = (S i - (S i - n))%nat).
  { rewrite length_skipn, length_firstn.
    replace (Nat.min (S i) (length closes)) with (S i) by lia. reflexivity. }
  rewrite Hlen.
  destruct (S i - (S i - n) <? n)%nat eqn:E.
  - apply Nat.ltb_lt in E. split; [intros _; lia | reflexivity].
  - apply Nat.ltb_ge in E.
    destruct (skipn _ (firstn (S i) closes)); [cbn [length] in Hlen; lia|].
    split; [discriminate | lia].
Qed.

Lemma signal_fresh (closes : list Q) (i : nat) :
  (i < length closes)%nat ->
  nth i (snd (sma_feed (SMA.init 36)
                (snd (rsi_feed (RSI.init 14) closes)))) None = None
  <-> (i < 49)%nat.
Proof.
  intros Hi.
  rewrite (CalculatorSpec.sma_feed_nth 36 _ ltac:(lia) (SMA.init 36) i
             eq_refl)
    by (rewrite CalculatorSpec.rsi_feed_length; exact Hi).
  pose proof (rsi_feed_nth_defined 14 closes i ltac:(lia) Hi) as Hdef.
  destruct (nth i (snd (rsi_feed (RSI.init 14) closes)) None) as [v|] eqn:Ev.
  - assert (Hge : (14 <= i)%nat).
    { destruct (le_lt_dec 14 i) as [H|H]; [exact H|].
      apply Hdef in H. discriminate H. }
    cbn [SMA.init SMA.values app]. cbv zeta. unfold ma_value_on.
    rewrite length_skipn, (rsi_feed_defined 14 closes ltac:(lia) (S i))
      by lia.
    destruct (S i - 14 - (S i - 14 - 36) <? 36)%nat eqn:E.
    + apply Nat.ltb_lt in E. split; [intros _; lia | reflexivity].
    + apply Nat.ltb_ge in E. split; [discriminate | lia].
  - assert (i < 14)%nat by (apply Hdef; reflexivity).
    split; [intros _; lia | reflexivity].
Qed.

(** X27. Warm-up of the columns of a table built by a fresh engine: the
    RSI is undefined on the first 14 rows and defined from the 15th on; the
    signal column [rsi_ma50], a 36-value mean of the RSI, is undefined on
    the first 49 rows and defined from the 50th on; each moving average is
    undefined until its own length of bars is in (2, 7, 14, 50, 100, 200,
    350 and 500 for the eight columns, in their order); the Fibonacci
    levels are undefined on the first 4999 rows. *)
Theorem columns_warm_up (rows : list BarRow) (i : nat) (r : IndicatorRow) :
  nth_error
    (current_df (fst (initialize_from_history StatefulIndicatorEngine.init
                        rows))) i = Some r ->
  (rsi_col r = None <-> (i < 14)%nat)
  /\ (rsi_ma50_col r = None <-> (i < 49)%nat)
  /\ Forall2
       (fun col length =>
          fst col = fst length
          /\ (snd col = None <-> (S i < snd length)%nat))
       (ma_cols r)
       [ ("short002"%string, 2%nat); ("short007"%string, 7%nat);
         ("short21"%string, 14%nat); ("short50"%string, 50%nat);
         ("long100"%string, 100%nat); ("long200"%string, 200%nat);
         ("long350"%string, 350%nat); ("long500"%string, 500%nat) ]
  /\ (fib_cols r = fib_nan <-> (i < 4999)%nat).
Proof.
  intros Hr.
  assert (Hne : rows <> []).
  { intros ->. destruct i; discriminate Hr. }
  rewrite (EngineSpec.initialize_from_history_replay _ rows Hne) in Hr.
  cbn [fst engine_with current_df] in Hr.
  assert (Hi : (i < length rows)%nat).
  { rewrite <- (replay_length rows
                  (calculators_of StatefulIndicatorEngine.init)).
    apply nth_error_Some. congruence. }
  destruct (replay_columns rows _ i r Hr) as (_ & Hrsi & Hsma & Hma & Hfib).
  cbv zeta in Hsma.
  cbn [calculators_of c_rsi c_rsi_ma50 c_mas c_fib rsi rsi_ma50
       ma_calculators fibonacci StatefulIndicatorEngine.init]
    in Hrsi, Hsma, Hma, Hfib.
  assert (Hc : (i < length (map Close rows))%nat)
    by (rewrite length_map; exact Hi).
  split; [|split; [|split]].
  - rewrite Hrsi. apply rsi_feed_nth_defined; [lia | exact Hc].
  - rewrite Hsma. apply signal_fresh, Hc.
  - rewrite Hma. cbn [map fst snd].
    repeat (constructor;
            [split;
             [reflexivity
             | cbn [fst snd]; apply ma_at_fresh; [lia | exact Hc]]|]).
    constructor.
  - rewrite Hfib.
    rewrite (fib_fresh (Z.to_nat 5000) (map Close rows) i ltac:(lia) Hc).
    lia.
Qed.

(** Two bars: no RSI yet, the two-bar average defined on the second. *)
Lemma columns_warm_up_witness :
  exists r,
    nth_error
      (current_df
         (fst (initialize_from_history StatefulIndicatorEngine.init
                 [sample_bar 1000 100; sample_bar 2000 102]))) 1
    = Some r
    /\ rsi_col r = None.
Proof.
  destruct (nth_error
              (current_df
                 (fst (initialize_from_history StatefulIndicatorEngine.init
                         [sample_bar 1000 100; sample_bar 2000 102]))) 1)
    as [r|] eqn:Hr; [|discriminate Hr].
  exists r. split; [reflexivity|].
  apply (proj1 (columns_warm_up
                  [sample_bar 1000 100; sample_bar 2000 102] 1 r Hr)).
  lia.
Defined.

End EngineProps.

(** ** The market-data socket and the 03:00 cache *)

Module MonitorSpec.

Import Indicators Monitor.

Module WS := WebSocketMarketData.

(** *** Connecting the market-data socket *)

Lemma attempts_left_pos (self : WS.t) : (1 <= attempts_left self)%nat.
Proof. unfold attempts_left. lia. Qed.

Lemma start_websocket_connects (fails : list WS.Attempt) :
  Forall raised fails ->
  forall (self : WS.t) (now : Q) (rest : list WS.Attempt),
    (length fails < attempts_left self)%nat ->
    WS.start_websocket (fails ++ WS.Connects now :: rest) self
    = Some (WS.with_connection self true true now 0
              (WS.last_health_check self), true).
Proof.
  intros Hf. induction Hf as [|a fails' Ha Hrest IH];
    intros self now rest Hlen; [reflexivity|].
  destruct a as [?|stored]; [destruct Ha|].
  cbn [app WS.start_websocket]. cbn [length] in Hlen.
  unfold attempts_left in Hlen.
  cbn [WS.with_connection WS.connection_attempts WS.max_connection_attempts].
  rewrite (proj2 (Z.ltb_lt _ _)) by lia.
  rewrite IH by (unfold attempts_left; cbn; lia).
  reflexivity.
Qed.

Lemma start_websocket_gives_up (fails : list WS.Attempt) :
  Forall raised fails ->
  forall (self : WS.t) (rest : list WS.Attempt),
    length fails = attempts_left self ->
    exists manager,
      WS.start_websocket (fails ++ rest) self
      = Some (WS.with_connection self manager false
                (WS.last_data_received_time self)
                (WS.connection_attempts self
                 + Z.of_nat (attempts_left self))
                (WS.last_health_check self), false).
Proof.
  intros Hf. induction Hf as [|a fails' Ha Hrest IH]; intros self rest Hlen.
  { pose proof (attempts_left_pos self). simpl in Hlen. lia. }
  destruct a as [?|stored]; [destruct Ha|].
  cbn [app WS.start_websocket]. cbn [length] in Hlen.
  cbn [WS.with_connection WS.connection_attempts WS.max_connection_attempts].
  destruct (WS.connection_attempts self + 1
            <? WS.max_connection_attempts self)%Z eqn:E.
  - apply Z.ltb_lt in E.
    destruct (IH (WS.with_connection self (stored || WS.websocket_manager self)
                    false (WS.last_data_received_time self)
                    (WS.connection_attempts self + 1)
                    (WS.last_health_check self)) rest) as (manager & Hm).
    { unfold attempts_left in *. cbn. lia. }
    exists manager. rewrite Hm. f_equal. f_equal.
    unfold WS.with_connection, attempts_left. cbn. f_equal. lia.
  - apply Z.ltb_ge in E. exists (stored || WS.websocket_manager self).
    unfold attempts_left. replace (Z.to_nat _) with 1%nat by lia.
    reflexivity.
Qed.

(** X28. [WebSocketMarketData.start_websocket] stops retrying: a call
    makes as many attempts as the failure count is short of the maximum,
    and one at least.  If one of them connects, the manager is connected
    and the failure count is back at zero; if they all raise, the call
    returns [False] with the manager disconnected and the failures added
    to the count, which nothing resets: after five failures every later
    call makes a single attempt. *)
Theorem market_socket_stops_retrying (self : WS.t)
    (fails rest : list WS.Attempt) :
  Forall raised fails ->
  (forall now,
     (length fails < attempts_left self)%nat ->
     WS.start_websocket (fails ++ WS.Connects now :: rest) self
     = Some (WS.with_connection self true true now 0
               (WS.last_health_check self), true))
  /\ (length fails = attempts_left self ->
      exists manager,
        WS.start_websocket (fails ++ rest) self
        = Some (WS.with_connection self manager false
                  (WS.last_data_received_time self)
                  (WS.connection_attempts self
                   + Z.of_nat (attempts_left self))
                  (WS.last_health_check self), false)).
Proof.
  intros Hf. split.
  - intros now Hlen. apply start_websocket_connects; assumption.
  - intros Hlen. apply start_websocket_gives_up; assumption.
Qed.

(** A fresh manager gives up after five failures; one that gave up makes
    a single attempt. *)
Lemma market_socket_stops_retrying_witness :
  option_map snd
    (WS.start_websocket
       [WS.Raises true; WS.Raises true; WS.Raises true; WS.Raises true;
        WS.Raises true; WS.Connects 100] WS.init)
  = Some false
  /\ option_map snd
       (WS.start_websocket [WS.Raises true; WS.Connects 100] gave_up)
     = Some false.
Proof.
  split.
  - destruct (proj2 (market_socket_stops_retrying WS.init
                       [WS.Raises true; WS.Raises true; WS.Raises true;
                        WS.Raises true; WS.Raises true] [WS.Connects 100]
                       ltac:(repeat constructor)) eq_refl) as (m & E).
    exact (f_equal (option_map snd) E).
  - destruct (proj2 (market_socket_stops_retrying gave_up
                       [WS.Raises true] [WS.Connects 100]
                       ltac:(repeat constructor)) eq_refl) as (m & E).
    exact (f_equal (option_map snd) E).
Defined.

(** X29. [check_health] reconnects only a manager that is marked
    connected: on a disconnected manager it makes no connection attempt,
    whatever the age of the data, and returns [False], so a manager that
    gave up connecting stays disconnected.  Within the 60-second interval
    since the last check it returns [True] without looking. *)
Theorem health_check_never_reconnects (current_time : Q) (stop_raises : bool)
    (attempts : list WS.Attempt) (self : WS.t) :
  WS.connected self = false ->
  WS.check_health current_time stop_raises attempts self
  = Some
      (if Qltb (current_time - WS.last_health_check self)
            (WS.health_check_interval self)
       then (self, true)
       else (WS.with_connection self (WS.websocket_manager self) false
               (WS.last_data_received_time self)
               (WS.connection_attempts self) current_time, false)).
Proof.
  intros Hoff. unfold WS.check_health.
  destruct (Qltb (current_time - WS.last_health_check self) _);
    [reflexivity|].
  cbn [WS.with_connection WS.data_stale_threshold WS.last_data_received_time
       WS.auto_reconnect WS.connected WS.token_data].
  rewrite Hoff, andb_false_r. cbn [andb].
  destruct (Qltb (WS.data_stale_threshold self) _); reflexivity.
Qed.

(** Ten minutes on, a manager that gave up is still left alone. *)
Lemma health_check_never_reconnects_witness :
  WS.check_health 600 false [WS.Connects 600] gave_up
  = Some (WS.with_connection gave_up true false 0 5 600, false).
Proof.
  exact (health_check_never_reconnects 600 false [WS.Connects 600] gave_up
           eq_refl).
Defined.

(** *** The 03:00 cache *)

Local Open Scope Z_scope.

(** The day that began at the last 03:00 Kenyan time is the UTC day. *)
Lemma required_date_is_utc_date (utc_now : Z) :
  (if 3 <=? hour_of (utc_now + hours 3)
   then date_of (utc_now + hours 3)
   else date_of (utc_now + hours 3) - 1)
  = date_of utc_now.
Proof.
  unfold hour_of, date_of, hours.
  destruct (3 <=? _) eqn:E; [apply Z.leb_le in E | apply Z.leb_gt in E];
    Z.to_euclidean_division_equations; lia.
Qed.

Lemma target_is_utc_midnight (utc_now : Z) :
  let kenyan_time := utc_now + hours 3 in
  let target_kenyan_time := days (date_of kenyan_time) + hours 3 in
  (if kenyan_time <? target_kenyan_time
   then (target_kenyan_time - days 1, date_of (target_kenyan_time - days 1))
   else (target_kenyan_time, date_of target_kenyan_time))
  = (days (date_of utc_now) + hours 3, date_of utc_now).
Proof.
  cbv zeta. unfold date_of, hours, days.
  destruct (_ <? _) eqn:E; [apply Z.ltb_lt in E | apply Z.ltb_ge in E];
    f_equal; Z.to_euclidean_division_equations; lia.
Qed.

(** X30. The 03:00 cache turns over with the UTC day.  The price of a
    symbol is asked for at midnight UTC of the current UTC day (a
    one-second kline, else a one-minute kline, else nothing) and is stored
    with that day as its date; and the cache is found fresh exactly when
    it was updated at most 24 hours ago and holds for SOL a price of the
    current UTC day. *)
Theorem cache_turns_over_with_the_utc_day
    (get_historical_klines : string -> string -> Z -> Z -> option (list Q))
    (symbol : string) (utc_now utc_now' : Z) (self : WS.t) :
  let today := date_of utc_now in
  let midnight := today * 86400000 in
  get_price_at_kenyan_0300_1sec get_historical_klines symbol utc_now
  = match get_historical_klines symbol "1s"%string midnight (midnight + 1000)
    with
    | None => None
    | Some (price :: _) => Some (price, today)
    | Some [] =>
      match get_historical_klines symbol "1m"%string midnight
              (midnight + 60000)
      with
      | None => None
      | Some (price :: _) => Some (price, today)
      | Some [] => None
      end
    end
  /\ (WS.should_refresh_0300_cache utc_now utc_now' self = false
      <-> exists updated cache_data,
            WS.last_cache_update_date self = Some updated
            /\ WS.cache_get "SOL" (WS.price_0300_cache self)
               = Some cache_data
            /\ WS.cache_date cache_data = today
            /\ utc_now' - updated <= hours 24).
Proof.
  cbv zeta. split.
  - unfold get_price_at_kenyan_0300_1sec.
    rewrite (target_is_utc_midnight utc_now).
    replace (Z.quot (days (date_of utc_now) + hours 3 - hours 3) 1000)
      with (date_of utc_now * 86400000); [reflexivity|].
    unfold days, hours.
    replace (date_of utc_now * 86400000000 + 3 * 3600000000 - 3 * 3600000000)
      with (date_of utc_now * 86400000 * 1000) by lia.
    rewrite Z.quot_mul by lia. reflexivity.
  - unfold WS.should_refresh_0300_cache.
    rewrite (required_date_is_utc_date utc_now).
    destruct (WS.last_cache_update_date self) as [updated|].
    + destruct (WS.cache_get "SOL" (WS.price_0300_cache self))
        as [cache_data|].
      * destruct (WS.cache_date cache_data =? date_of utc_now) eqn:Ed;
          cbn [negb].
        -- apply Z.eqb_eq in Ed.
           destruct (hours 24 <? utc_now' - updated) eqn:Eh.
           ++ apply Z.ltb_lt in Eh. split; [discriminate|].
              intros (u & c & [= <-] & [= <-] & _ & H). lia.
           ++ apply Z.ltb_ge in Eh. split; [|reflexivity].
              intros _. exists updated, cache_data. auto.
        -- apply Z.eqb_neq in Ed. split; [discriminate|].
           intros (u & c & _ & [= <-] & H & _). contradiction.
      * split; [discriminate|]. intros (u & c & _ & H & _). discriminate H.
    + split; [discriminate|]. intros (u & c & H & _). discriminate H.
Qed.

End MonitorSpec.
